(** * openstack_cleanup.py: a shallow embedding of the deletion engine

    The development follows the layout of [openstack_cleanup.py]:

    - Python values the script inspects (strings, [None], dictionaries);
    - the compiled filter pattern [resource_name_re], seen through its
      [search] method;
    - [build_resource_dict] and [get_resources_from_cleanup_log];
    - the OpenStack connection, as an interface of calls answered by an
      arbitrary backend, and a monad of traces for the code that talks
      to it;
    - [ResourceMonitor.verify_resource_deleted] and the five cleaners;
    - [OpenStackCleaners].

    Progress messages written with a bare [print] carry no decision of
    the script and are left out, except the error line of
    [get_resources_from_cleanup_log]; the three [report_*] methods of
    [AbstractCleaner] are kept as events of the trace. *)

From Stdlib Require Import String Ascii List Bool Arith Lia.
Import ListNotations.
Open Scope string_scope.
Open Scope list_scope.

Set Implicit Arguments.

Infix "+++" := String.append (right associativity, at level 60).

(** ** Python strings *)

Module Str.

(** [needle in hay] *)
Fixpoint contains (needle hay : string) : bool :=
  String.prefix needle hay
  || match hay with
     | EmptyString => false
     | String _ hay' => contains needle hay'
     end.

Definition lower_char (c : ascii) : ascii :=
  let n := nat_of_ascii c in
  if ((65 <=? n) && (n <=? 90))%nat then ascii_of_nat (n + 32) else c.

Definition upper_char (c : ascii) : ascii :=
  let n := nat_of_ascii c in
  if ((97 <=? n) && (n <=? 122))%nat then ascii_of_nat (n - 32) else c.

Fixpoint map_chars (f : ascii -> ascii) (s : string) : string :=
  match s with
  | EmptyString => EmptyString
  | String c s' => String (f c) (map_chars f s')
  end.

(** [s.lower()] and [s.upper()] on ASCII text *)
Definition lower : string -> string := map_chars lower_char.
Definition upper : string -> string := map_chars upper_char.

(** [s[:n]] *)
Definition take (n : nat) (s : string) : string := String.substring 0 n s.

(** white space as [str.strip()] sees it, below code point 128 *)
Definition is_space (c : ascii) : bool :=
  let n := nat_of_ascii c in
  (((9 <=? n) && (n <=? 13)) || ((28 <=? n) && (n <=? 32)))%nat.

Fixpoint lstrip (s : string) : string :=
  match s with
  | EmptyString => EmptyString
  | String c s' => if is_space c then lstrip s' else s
  end.

Fixpoint rev_onto (s acc : string) : string :=
  match s with
  | EmptyString => acc
  | String c s' => rev_onto s' (String c acc)
  end.

Definition rev (s : string) : string := rev_onto s EmptyString.

Definition rstrip (s : string) : string := rev (lstrip (rev s)).

(** [s.strip()] *)
Definition strip (s : string) : string := rstrip (lstrip s).

(** [s.split(sep)] for a one-character separator *)
Fixpoint split (sep : ascii) (s : string) : list string :=
  match s with
  | EmptyString => [EmptyString]
  | String c s' =>
      if Ascii.eqb c sep then EmptyString :: split sep s'
      else match split sep s' with
           | h :: t => String c h :: t
           | [] => [String c EmptyString]
           end
  end.

End Str.

(** ** Python values read from resources *)

(** An attribute that holds a string or [None]. *)
Inductive pyval : Type :=
| PyNone
| PyStr (s : string).

(** Truth value of [v] in a condition. *)
Definition truthy (v : pyval) : bool :=
  match v with
  | PyNone => false
  | PyStr s => negb (s =? "")
  end.

(** The text of a value that a guard has found truthy. *)
Definition text (v : pyval) : string :=
  match v with
  | PyNone => ""
  | PyStr s => s
  end.

(** [str(v)] *)
Definition py_str (v : pyval) : string :=
  match v with
  | PyNone => "None"
  | PyStr s => s
  end.

(** ** Python dictionaries with string keys

    Insertion order is the iteration order; assigning to a key that is
    present keeps its place. *)

Definition dict (V : Type) : Type := list (string * V).

Module Dict.
Section Ops.
Variable V : Type.

Fixpoint get (k : string) (d : dict V) : option V :=
match d with
| [] => None
| (k', v) :: d' => if k' =? k then Some v else get k d'
end.

Definition mem (k : string) (d : dict V) : bool :=
match get k d with Some _ => true | None => false end.

(** [d[k] = v] *)
Fixpoint set (k : string) (v : V) (d : dict V) : dict V :=
match d with
| [] => [(k, v)]
| (k', v') :: d' =>
    if k' =? k then (k', v) :: d' else (k', v') :: set k v d'
end.

(** [d.pop(k, None)], keeping the dictionary only *)
Fixpoint remove (k : string) (d : dict V) : dict V :=
match d with
| [] => []
| (k', v') :: d' =>
    if k' =? k then d' else (k', v') :: remove k d'
end.

Definition keys (d : dict V) : list string := map fst d.
End Ops.
End Dict.

(** ** Exceptions

    The handlers of the script look at an exception in three ways:
    [str(type(e))], [str(e)] and whether it is an instance of
    [os_exceptions.ResourceNotFound]. *)

Record exn : Type := mk_exn {
  exc_type : string;
  exc_str : string;
  exc_is_ResourceNotFound : bool
}.

Definition is_not_found_error (e : exn) : bool :=
  Str.contains "NotFound" (exc_type e) || Str.contains "404" (exc_str e).

Definition is_conflict_error (e : exn) : bool :=
  Str.contains "ConflictException" (exc_type e)
  || Str.contains "409" (exc_str e)
  || Str.contains "Conflict" (exc_type e).

Definition IndexError : exn :=
  mk_exn "<class 'IndexError'>" "list index out of range" false.

(** ** The filter pattern

    [resource_name_re] is a compiled pattern of Python's [re]; the
    script only calls its [search] method and tests the result for
    truth.  The model of the script takes that method as a function
    [string -> bool].  [Re] gives the function for the patterns built
    from literals, [.], [^], [$], concatenation, alternation and [*]. *)

Module Re.

Inductive regex : Type :=
| Eps
| Chr (c : ascii)
| Any
| Bol
| Eol
| Seq (r1 r2 : regex)
| Alt (r1 r2 : regex)
| Star (r : regex).

Definition newline : ascii := ascii_of_nat 10.

(** [$] holds at the end and before a final newline. *)
Definition at_eol (s : string) : bool :=
  match s with
  | EmptyString => true
  | String c EmptyString => Ascii.eqb c newline
  | _ => false
  end.

(** [matches r bol s k]: [r] matches a prefix of [s], which starts
    the subject iff [bol], and [k] accepts what follows. *)
Fixpoint matches (r : regex) (bol : bool) (s : string)
         (k : bool -> string -> bool) {struct r} : bool :=
  match r with
  | Eps => k bol s
  | Chr c =>
      match s with
      | String a s' => Ascii.eqb a c && k false s'
      | EmptyString => false
      end
  | Any =>
      match s with
      | String a s' => negb (Ascii.eqb a newline) && k false s'
      | EmptyString => false
      end
  | Bol => bol && k bol s
  | Eol => at_eol s && k bol s
  | Seq r1 r2 => matches r1 bol s (fun b s' => matches r2 b s' k)
  | Alt r1 r2 => matches r1 bol s k || matches r2 bol s k
  | Star r1 =>
      (fix star (n : nat) (b : bool) (t : string) {struct n} : bool :=
         match n with
         | 0 => k b t
         | S n' =>
             matches r1 b t
               (fun b' t' =>
                  (String.length t' <? String.length t)%nat && star n' b' t')
             || k b t
         end) (String.length s) bol s
  end.

Fixpoint search_from (r : regex) (bol : bool) (s : string) : bool :=
  matches r bol s (fun _ _ => true)
  || match s with
     | EmptyString => false
     | String _ s' => search_from r false s'
     end.

(** [re.compile(p).search(s)], as a truth value *)
Definition search (r : regex) (s : string) : bool := search_from r true s.

Fixpoint lit (s : string) : regex :=
  match s with
  | EmptyString => Eps
  | String c s' => Seq (Chr c) (lit s')
  end.

(** [^test-.*$] *)
Definition test_prefix : regex :=
  Seq Bol (Seq (lit "test-") (Seq (Star Any) Eol)).

(** [.*test-cluster.*], the default of [main] *)
Definition default_filter : regex :=
  Seq (Star Any) (Seq (lit "test-cluster") (Star Any)).

End Re.

(** ** Resources as [build_resource_dict] reads them *)

Record fields : Type := mk_fields {
  f_id : string;
  f_name : option pyval;              (* [None]: no such attribute or key *)
  f_description : option pyval;
  f_floating_ip_address : option string
}.

(** An SDK object, read through attributes, or a dictionary, read
    through keys after [res.id] raised [AttributeError]. *)
Inductive resource : Type :=
| ObjRes (f : fields)
| DictRes (f : fields).

Definition fields_of (res : resource) : fields :=
  match res with ObjRes f => f | DictRes f => f end.

Definition truncated_desc (resdesc : string) : string :=
  if (50 <? String.length resdesc)%nat
  then Str.take 50 resdesc +++ "..."
  else resdesc.

Section Discovery.

(** [resource_name_re.search] *)
Variable resource_name_re : string -> bool.

(** Lines 314-323 and 327-336: the pair [(resname, resdesc)]. *)
Definition name_and_description (res : resource) : pyval * pyval :=
  match res with
  | ObjRes f =>
      let resid := f_id f in
      let resname :=
        match f_name f with Some v => v | None => PyStr resid end in
      let resdesc :=
        match f_description f with Some v => v | None => PyStr "" end in
      match f_floating_ip_address f with
      | Some addr =>
          if truthy resdesc
          then (PyStr (addr +++ " (desc: " +++ truncated_desc (text resdesc) +++ ")"),
                resdesc)
          else (PyStr addr, resdesc)
      | None => (resname, resdesc)
      end
  | DictRes f =>
      let resid := f_id f in
      let resname :=
        match f_name f with Some v => v | None => PyStr resid end in
      let resdesc :=
        match f_description f with Some v => v | None => PyStr "" end in
      match f_floating_ip_address f with
      | Some addr =>
          if truthy resdesc
          then (PyStr (addr +++ " (desc: " +++ truncated_desc (text resdesc) +++ ")"),
                resdesc)
          else (PyStr addr, resdesc)
      | None => (resname, resdesc)
      end
  end.

(** The condition of line 339. *)
Definition retained (res : resource) : bool :=
  let '(resname, resdesc) := name_and_description res in
  truthy resname
  && (resource_name_re (text resname)
      || (truthy resdesc && resource_name_re (text resdesc))).

Fixpoint build_resource_dict_from
         (res_list : list resource) (resources : dict string) : dict string :=
  match res_list with
  | [] => resources
  | res :: rest =>
      let resid := f_id (fields_of res) in
      let resname := fst (name_and_description res) in
      if retained res
      then build_resource_dict_from rest (Dict.set resid (text resname) resources)
      else build_resource_dict_from rest resources
  end.

Definition build_resource_dict (res_list : list resource) : dict string :=
  build_resource_dict_from res_list [].

End Discovery.

(** ** The pre-supplied resource list *)

Definition no_id_message (restype : string) : string :=
  "Error: resource type " +++ restype +++ " has no ID - ignored!!!".

(** The loop of [get_resources_from_cleanup_log] over [ff.readlines()];
    the second component is what the loop printed. *)
Fixpoint load_lines (content : list string) (resources : dict (dict string))
  : (exn + dict (dict string)) * list string :=
  match content with
  | [] => (inr resources, [])
  | line :: rest =>
      let tokens := Str.split "|" (Str.strip line) in
      match tokens with
      | restype :: resname :: resid :: _ =>
          let '(resid, out) :=
            if resid =? ""
            then if negb (restype =? "keypairs")
                 then (resid, [no_id_message restype])
                 else ("0", [])
            else (resid, []) in
          let resources :=
            if negb (Dict.mem restype resources)
            then Dict.set restype [] resources
            else resources in
          let tres :=
            match Dict.get restype resources with Some d => d | None => [] end in
          let resources := Dict.set restype (Dict.set resid resname tres) resources in
          let '(r, out') := load_lines rest resources in
          (r, out ++ out')
      | _ => (inl IndexError, [])
      end
  end.

Definition get_resources_from_cleanup_log (content : list string)
  : (exn + dict (dict string)) * list string :=
  load_lines content [].


(** ** Objects of the OpenStack SDK, with the attributes the script reads *)

Record address : Type := mk_address {
  addr : string;                        (* [addr['addr']] *)
  os_ext_ips_type : option string       (* [addr.get('OS-EXT-IPS:type')] *)
}.

Record server : Type := mk_server {
  addresses : list (string * list address)
}.

Record floating_ip : Type := mk_floating_ip {
  fip_id : string;
  floating_ip_address : string;
  fip_description : pyval;
  fip_router_id : pyval;
  fip_port_id : pyval
}.

Record fixed_ip : Type := mk_fixed_ip {
  subnet_id : string;
  ip_address : string
}.

Record port : Type := mk_port {
  port_id : string;
  port_name : pyval;
  device_owner : string;
  device_id : string;
  fixed_ips : list fixed_ip
}.

Record router : Type := mk_router {
  external_gateway_info : option string
}.

Record load_balancer : Type := mk_load_balancer {
  provisioning_status : string
}.

Record stack : Type := mk_stack {
  stack_id : string
}.

(** A floating IP as [build_resource_dict] reads it. *)
Definition resource_of_floating_ip (fip : floating_ip) : resource :=
  ObjRes (mk_fields (fip_id fip) (Some (PyStr (floating_ip_address fip)))
                    (Some (fip_description fip))
                    (Some (floating_ip_address fip))).

(** ** The connection

    Every method of [self.conn] that the script calls is a [call]; the
    backend answers it with a value of type [resp] or with an
    exception. *)

Inductive port_query : Type :=
| AllPorts                                  (* [ports()] *)
| PortsOfDevice (device : string)           (* [ports(device_id=id)] *)
| PortsOfNetwork (network : string).        (* [ports(network_id=id)] *)

Inductive listing : Type :=
| Servers | Flavors | Keypairs | Images
| Volumes | Snapshots
| LoadBalancers
| Networks | Routers | SecurityGroups
| Zones (limit1 : bool)                     (* [dns.zones(limit=1)] when set *)
| Stacks (limit1 : bool).

Inductive call : Type :=
(* conn.compute, conn.image *)
| GetServer (id : string)
| DeleteServer (id : string)
| GetFlavor (id : string)
| DeleteFlavor (id : string)
| DeleteKeypair (name : string)
| GetImage (id : string)
| DeleteImage (id : string)
(* conn.block_storage *)
| GetVolume (id : string)
| DeleteVolume (id : string) (force : bool)
| GetSnapshot (id : string)
| DeleteSnapshot (id : string)
(* conn.network *)
| Ips
| GetIp (id : string)
| DeleteIp (id : string)
| Ports (q : port_query)
| GetPort (id : pyval)
| DeletePort (id : string)
| GetRouter (id : string)
| UpdateRouterNoGateway (id : string)      (* [update_router(id, external_gateway_info=None)] *)
| RemoveInterfaceFromRouter (id : string) (subnet : string)
| DeleteRouter (id : string)
| GetNetwork (id : string)
| DeleteNetwork (id : string)
| GetSecurityGroup (id : string)
| DeleteSecurityGroup (id : string)
(* conn.load_balancer *)
| GetLoadBalancer (id : string)
| DeleteLoadBalancer (id : string) (cascade : bool)
(* conn.orchestration, conn.dns *)
| GetStack (id : string)
| DeleteStack (s : stack)
| WaitForDelete (s : stack)
| DeleteZone (id : string)
(* the fetchers of the constructors *)
| List_ (what : listing).

Definition resp (c : call) : Type :=
  match c with
  | GetServer _ => option server
  | Ips => list floating_ip
  | GetIp _ => floating_ip
  | Ports _ => list port
  | GetPort _ => port
  | GetRouter _ => router
  | GetLoadBalancer _ => load_balancer
  | GetStack _ => stack
  | List_ _ => list resource
  | _ => unit
  end.

(** The calls that change the cloud. *)
Definition mutating (c : call) : bool :=
  match c with
  | DeleteServer _ | DeleteFlavor _ | DeleteKeypair _ | DeleteImage _
  | DeleteVolume _ _ | DeleteSnapshot _
  | DeleteIp _ | DeletePort _
  | UpdateRouterNoGateway _ | RemoveInterfaceFromRouter _ _ | DeleteRouter _
  | DeleteNetwork _ | DeleteSecurityGroup _
  | DeleteLoadBalancer _ _
  | DeleteStack _ | DeleteZone _ => true
  | _ => false
  end.

(** What [report_deletion], [report_not_found] and [report_error]
    print about a resource. *)
Inductive outcome : Type :=
| Deleted                 (* "is successfully deleted" *)
| WouldDelete             (* "(but is not deleted: dry run)" *)
| AlreadyGone             (* "not found (already deleted?)" *)
| Failed (reason : string).

(** What a run does, in order. *)
Inductive event : Type :=
| Call (c : call) (r : exn + resp c)
| Sleep (seconds : nat)
| Report (o : outcome) (rtype name : string).

Definition call_of (ev : event) : option call :=
  match ev with
  | Call c _ => Some c
  | _ => None
  end.

Definition raised (ev : event) : bool :=
  match ev with
  | Call _ (inl _) => true
  | _ => false
  end.

Definition on_call (p : call -> bool) (ev : event) : bool :=
  match ev with
  | Call c _ => p c
  | _ => false
  end.

(** A backend: a state of the world, an answer to every call and the
    passing of time. *)
Record backend (World : Type) : Type := mk_backend {
  answer : forall c : call, World -> (exn + resp c) * World;
  wait : nat -> World -> World
}.

(** ** The monad of the script: state of the world, exceptions, trace *)

Definition M (World A : Type) : Type :=
  World -> (exn + A) * World * list event.

Section Monad.
Variable World : Type.

Definition ret (A : Type) (a : A) : M World A :=
  fun w => (inr a, w, []).

Definition raise (A : Type) (e : exn) : M World A :=
  fun w => (inl e, w, []).

Definition bind (A B : Type) (m : M World A) (f : A -> M World B) : M World B :=
  fun w =>
    match m w with
    | (inl e, w1, t1) => (inl e, w1, t1)
    | (inr a, w1, t1) =>
        let '(r, w2, t2) := f a w1 in (r, w2, t1 ++ t2)
    end.

(** [try: m  except Exception as e: h e] *)
Definition try_catch (A : Type) (m : M World A) (h : exn -> M World A) : M World A :=
  fun w =>
    match m w with
    | (inl e, w1, t1) =>
        let '(r, w2, t2) := h e w1 in (r, w2, t1 ++ t2)
    | (inr a, w1, t1) => (inr a, w1, t1)
    end.

Definition emit (ev : event) : M World unit :=
  fun w => (inr tt, w, [ev]).

Definition result (A : Type) (x : (exn + A) * World * list event) : exn + A :=
  fst (fst x).
Definition final (A : Type) (x : (exn + A) * World * list event) : World :=
  snd (fst x).
Definition trace (A : Type) (x : (exn + A) * World * list event) : list event :=
  snd x.
End Monad.

Arguments ret {World A} a.
Arguments raise {World A} e.
Arguments bind {World A B} m f.
Arguments try_catch {World A} m h.
Arguments emit {World} ev.
Arguments result {World A} x.
Arguments final {World A} x.
Arguments trace {World A} x.

Declare Scope script_scope.
Delimit Scope script_scope with script.
Notation "x <- m ;; k" := (bind m (fun x => k))
  (at level 61, m at next level, right associativity) : script_scope.
Notation "m ;; k" := (bind m (fun _ => k))
  (at level 61, right associativity) : script_scope.
Open Scope script_scope.

Section Loops.
Variable World : Type.

(** [for x in l: body x] *)
Fixpoint for_each (X : Type) (l : list X) (body : X -> M World unit) : M World unit :=
  match l with
  | [] => ret tt
  | x :: l' => body x ;; for_each l' body
  end.

(** A [for] loop that updates a local variable. *)
Fixpoint fold_each (X S : Type) (l : list X) (s : S) (body : X -> S -> M World S)
  : M World S :=
  match l with
  | [] => ret s
  | x :: l' => s' <- body x s ;; fold_each l' s' body
  end.

(** The list built by appending in a [for] loop. *)
Fixpoint filter_each (X : Type) (l : list X) (keep : X -> M World bool)
  : M World (list X) :=
  match l with
  | [] => ret []
  | x :: l' =>
      b <- keep x ;;
      rest <- filter_each l' keep ;;
      ret (if b then x :: rest else rest)
  end.

(** How an iteration of [while retry_count > 0] ends: with [break],
    or at the next test of the condition after [retry_count -= 1]. *)
Inductive loop_ctl : Type :=
| Break
| Retry.

(** [while retry_count > 0: body], for a body that takes one from
    [retry_count] on every path that does not [break]. *)
Fixpoint retry_loop (retry_count : nat) (body : nat -> M World loop_ctl)
  : M World unit :=
  match retry_count with
  | 0 => ret tt
  | S n =>
      c <- body retry_count ;;
      match c with
      | Break => ret tt
      | Retry => retry_loop n body
      end
  end.
End Loops.

Arguments for_each {World X} l body.
Arguments fold_each {World X S} l s body.
Arguments filter_each {World X} l keep.
Arguments retry_loop {World} retry_count body.

Definition DEFAULT_DESCRIPTION_TRUNCATE_LENGTH : nat := 30.
Definition DEFAULT_RETRY_COUNT : nat := 3.
Definition DEFAULT_LB_RETRY_DELAY : nat := 10.
Definition DEFAULT_ROUTER_FIP_WAIT : nat := 5.
Definition DEFAULT_INSTANCE_DELETE_RETRIES : nat := 30.

Definition KeyError (k : string) : exn :=
  mk_exn "<class 'KeyError'>" ("'" +++ k +++ "'") false.

Definition UnboundLocalError (v : string) : exn :=
  mk_exn "<class 'UnboundLocalError'>"
         ("cannot access local variable '" +++ v
          +++ "' where it is not associated with a value") false.

(** [x in l] for a list of string constants *)
Definition in_list (x : string) (l : list string) : bool :=
  existsb (String.eqb x) l.

Definition nonempty (X : Type) (l : list X) : bool :=
  match l with [] => false | _ => true end.

(** ** The state of the objects of the script

    [AbstractCleaner.__init__] assigns [self.resources[rtype]] for
    every [rtype] of [res_desc] (lines 352-357), so a cleaner's
    [self.resources] is a record with one dictionary per resource type
    of its class, a lookup of one of these keys raises no [KeyError],
    and the handlers [except KeyError: pass] around the loops are never
    entered. *)

Record ResourceMonitor : Type := mk_ResourceMonitor {
  mon_dryrun : bool
}.

Record StorageCleaner : Type := mk_StorageCleaner {
  st_dryrun : bool;
  st_volumes : dict string;
  st_volume_snapshots : dict string
}.

Record ComputeCleaner : Type := mk_ComputeCleaner {
  co_dryrun : bool;
  co_instances : dict string;
  co_flavors : dict string;
  co_keypairs : dict string;
  co_images : dict string
}.

Record NetworkCleaner : Type := mk_NetworkCleaner {
  ne_dryrun : bool;
  ne_floating_ips : dict string;
  ne_sec_groups : dict string;
  ne_networks : dict string;
  ne_routers : dict string
}.

Record LoadBalancerCleaner : Type := mk_LoadBalancerCleaner {
  lb_dryrun : bool;
  lb_loadbalancers : dict string;
  lb_monitor : option ResourceMonitor
}.

(** [available_services['vpn']] is always [False].  A resource type
    whose service is not available has no key in [self.resources];
    [clean] reads both with [.get(key, {})]. *)
Record AdvancedServicesCleaner : Type := mk_AdvancedServicesCleaner {
  ad_dryrun : bool;
  ad_available_dns : bool;
  ad_available_heat : bool;
  ad_dns_zones : option (dict string);
  ad_heat_stacks : option (dict string)
}.

(** [d.get(key, {})] *)
Definition get_or_empty (d : option (dict string)) : dict string :=
  match d with Some x => x | None => [] end.

Inductive cleaner : Type :=
| AdvancedServices (c : AdvancedServicesCleaner)
| Compute (c : ComputeCleaner)
| Storage (c : StorageCleaner)
| LoadBalancer (c : LoadBalancerCleaner)
| Network (c : NetworkCleaner).

Inductive category : Type :=
| CatAdvancedServices | CatCompute | CatStorage | CatLoadBalancer | CatNetwork.

Definition category_of (c : cleaner) : category :=
  match c with
  | AdvancedServices _ => CatAdvancedServices
  | Compute _ => CatCompute
  | Storage _ => CatStorage
  | LoadBalancer _ => CatLoadBalancer
  | Network _ => CatNetwork
  end.

Record OpenStackCleaners : Type := mk_OpenStackCleaners {
  cleaners : list cleaner;
  oc_dryrun : bool;
  oc_monitor : ResourceMonitor
}.

Definition pyval_is (v : pyval) (s : string) : bool :=
  match v with
  | PyStr x => x =? s
  | PyNone => false
  end.

(** ** The script *)

Section Script.
Variable World : Type.
Variable be : backend World.

(** [resource_name_re.search], the global set by [main] *)
Variable resource_name_re : string -> bool.

Local Abbreviation M := (M World).

(** A method call on [self.conn]. *)
Definition invoke (c : call) : M (resp c) :=
  fun w => let '(r, w') := answer be c w in (r, w', [Call c r]).

(** The same, for a result that is not used. *)
Definition invoke_ (c : call) : M unit :=
  _ <- invoke c ;; ret tt.

(** [time.sleep(seconds)] *)
Definition sleep (seconds : nat) : M unit :=
  fun w => (inr tt, wait be seconds w, [Sleep seconds]).

(** *** ResourceMonitor *)

(** Lines 179-198. *)
Definition get_resource (resource_type resource_id : string) : M unit :=
  let t := Str.upper resource_type in
  if in_list t ["INSTANCE"; "SERVER"] then invoke_ (GetServer resource_id)
  else if t =? "FLAVOR" then invoke_ (GetFlavor resource_id)
  else if t =? "VOLUME" then invoke_ (GetVolume resource_id)
  else if t =? "SNAPSHOT" then invoke_ (GetSnapshot resource_id)
  else if t =? "NETWORK" then invoke_ (GetNetwork resource_id)
  else if t =? "ROUTER" then invoke_ (GetRouter resource_id)
  else if t =? "PORT" then invoke_ (GetPort (PyStr resource_id))
  else if t =? "SECURITY_GROUP" then invoke_ (GetSecurityGroup resource_id)
  else if t =? "LOAD BALANCER" then invoke_ (GetLoadBalancer resource_id)
  else if t =? "IMAGE" then invoke_ (GetImage resource_id)
  else ret tt.

(** [for attempt in range(max_attempts)], lines 174-210; [Some b] is
    [return b]. *)
Fixpoint verify_attempts (resource_type resource_id : string)
         (attempts delay : nat) : M bool :=
  match attempts with
  | 0 => ret false
  | S attempts' =>
      r <- try_catch
             (sleep delay ;;
              get_resource resource_type resource_id ;;
              ret None)
             (fun e =>
                if exc_is_ResourceNotFound e
                then ret (Some true)
                else ret (Some true)) ;;
      match r with
      | Some b => ret b
      | None => verify_attempts resource_type resource_id attempts' delay
      end
  end.

Definition verify_resource_deleted (self : ResourceMonitor)
           (resource_type resource_id : string) (max_attempts delay : nat) : M bool :=
  if mon_dryrun self then ret true
  else verify_attempts resource_type resource_id max_attempts delay.

(** *** AbstractCleaner *)

Definition report_deletion (dryrun : bool) (rtype name : string) : M unit :=
  emit (Report (if dryrun then WouldDelete else Deleted) rtype name).

Definition report_not_found (rtype name : string) : M unit :=
  emit (Report AlreadyGone rtype name).

Definition report_error (rtype name reason : string) : M unit :=
  emit (Report (Failed reason) rtype name).

Definition fetch_resources (fetcher : M (list resource)) : M (list resource) :=
  try_catch fetcher (fun _ => ret []).

(** One turn of the loop of [AbstractCleaner.__init__]. *)
Definition init_resources (resources : option (dict (dict string)))
           (rtype : string) (fetcher : M (list resource)) : M (dict string) :=
  let discover :=
    res_list <- fetch_resources fetcher ;;
    ret (build_resource_dict resource_name_re res_list) in
  match resources with
  | Some rs =>
      if nonempty rs
      then match Dict.get rtype rs with
           | Some d => ret d
           | None => discover
           end
      else discover
  | None => discover
  end.

Definition resource_rows (rtype : string) (rdict : dict string)
  : list (string * string * string) :=
  map (fun '(resid, resname) => (rtype, resname, resid)) rdict.

(** *** StorageCleaner *)

Definition StorageCleaner_init (resources : option (dict (dict string)))
           (dryrun : bool) : M StorageCleaner :=
  volumes <- init_resources resources "volumes" (invoke (List_ Volumes)) ;;
  volume_snapshots <-
    init_resources resources "volume_snapshots" (invoke (List_ Snapshots)) ;;
  ret (mk_StorageCleaner dryrun volumes volume_snapshots).

Definition StorageCleaner_clean (self : StorageCleaner) : M unit :=
  let dryrun := st_dryrun self in
  for_each (st_volumes self) (fun '(id, name) =>
    try_catch
      (if dryrun
       then invoke_ (GetVolume id) ;; report_deletion dryrun "VOLUME" name
       else invoke_ (DeleteVolume id true) ;; report_deletion dryrun "VOLUME" name)
      (fun e =>
         if exc_is_ResourceNotFound e
         then report_not_found "VOLUME" name
         else report_error "VOLUME" name (exc_str e))) ;;
  for_each (st_volume_snapshots self) (fun '(id, name) =>
    try_catch
      (if dryrun
       then invoke_ (GetSnapshot id) ;;
            report_deletion dryrun "VOLUME SNAPSHOT" name
       else invoke_ (DeleteSnapshot id) ;;
            report_deletion dryrun "VOLUME SNAPSHOT" name)
      (fun e =>
         if exc_is_ResourceNotFound e
         then report_not_found "VOLUME SNAPSHOT" name
         else report_error "VOLUME SNAPSHOT" name (exc_str e))).

(** *** ComputeCleaner *)

Definition ComputeCleaner_init (resources : option (dict (dict string)))
           (dryrun : bool) : M ComputeCleaner :=
  instances <- init_resources resources "instances" (invoke (List_ Servers)) ;;
  flavors <- init_resources resources "flavors" (invoke (List_ Flavors)) ;;
  keypairs <- init_resources resources "keypairs" (invoke (List_ Keypairs)) ;;
  images <- init_resources resources "images"
              (try_catch (invoke (List_ Images)) (fun _ => ret [])) ;;
  ret (mk_ComputeCleaner dryrun instances flavors keypairs images).

Definition _get_instance_floating_ips (instance : server) : list string :=
  flat_map
    (fun '(_, addrs) =>
       map addr
           (filter (fun a => match os_ext_ips_type a with
                             | Some t => t =? "floating"
                             | None => false
                             end) addrs))
    (addresses instance).

Definition _delete_floating_ips (self : ComputeCleaner)
           (fip_addresses : list string) : M unit :=
  if negb (nonempty fip_addresses) then ret tt
  else
    fip_lst <- invoke Ips ;;
    for_each fip_addresses (fun fip_addr =>
      match find (fun fip_obj => floating_ip_address fip_obj =? fip_addr) fip_lst with
      | Some fip_obj =>
          try_catch
            (invoke_ (DeleteIp (fip_id fip_obj)) ;;
             report_deletion (co_dryrun self) "FLOATING IP" fip_addr)
            (fun e => report_error "FLOATING IP" fip_addr (exc_str e))
      | None => ret tt
      end).

(** The [for] loop of lines 535-541 over [instances_to_check]. *)
Definition check_instances (self : ComputeCleaner)
           (instances_to_check : list string) (deleting_instances : dict string)
  : M (dict string) :=
  fold_each instances_to_check deleting_instances (fun ins_id deleting_instances =>
    try_catch
      (invoke_ (GetServer ins_id) ;; ret deleting_instances)
      (fun e =>
         if is_not_found_error e
         then match Dict.get ins_id deleting_instances with
              | Some ins_name =>
                  report_deletion (co_dryrun self) "INSTANCE" ins_name ;;
                  ret (Dict.remove ins_id deleting_instances)
              | None => raise (KeyError ins_id)
              end
         else ret deleting_instances)).

(** [while deleting_instances and retry_count > 0] *)
Fixpoint wait_while (self : ComputeCleaner) (retry_count : nat)
         (deleting_instances : dict string) : M unit :=
  match retry_count with
  | 0 => ret tt
  | S retry_count' =>
      if nonempty deleting_instances
      then
        deleting_instances <-
          check_instances self (Dict.keys deleting_instances) deleting_instances ;;
        (if nonempty deleting_instances && (0 <? retry_count')%nat
         then sleep 2 else ret tt) ;;
        wait_while self retry_count' deleting_instances
      else ret tt
  end.

Definition _wait_for_instance_deletion (self : ComputeCleaner)
           (deleting_instances : dict string) : M unit :=
  wait_while self DEFAULT_INSTANCE_DELETE_RETRIES deleting_instances.

Definition _clean_flavors (self : ComputeCleaner) : M unit :=
  for_each (co_flavors self) (fun '(flavor_id, flavor_name) =>
    try_catch
      (if co_dryrun self
       then report_deletion (co_dryrun self) "FLAVOR" flavor_name
       else invoke_ (DeleteFlavor flavor_id) ;;
            report_deletion (co_dryrun self) "FLAVOR" flavor_name)
      (fun e =>
         if is_not_found_error e
         then report_not_found "FLAVOR" flavor_name
         else report_error "FLAVOR" flavor_name (exc_str e))).

Definition _clean_keypairs (self : ComputeCleaner) : M unit :=
  for_each (co_keypairs self) (fun '(keypair_id, keypair_name) =>
    try_catch
      (if co_dryrun self
       then report_deletion (co_dryrun self) "KEYPAIR" keypair_name
       else invoke_ (DeleteKeypair keypair_name) ;;
            report_deletion (co_dryrun self) "KEYPAIR" keypair_name)
      (fun e =>
         if is_not_found_error e
         then report_not_found "KEYPAIR" keypair_name
         else report_error "KEYPAIR" keypair_name (exc_str e))).

Definition _clean_images (self : ComputeCleaner) : M unit :=
  for_each (co_images self) (fun '(image_id, image_name) =>
    try_catch
      (if co_dryrun self
       then report_deletion (co_dryrun self) "IMAGE" image_name
       else invoke_ (DeleteImage image_id) ;;
            report_deletion (co_dryrun self) "IMAGE" image_name)
      (fun e =>
         if is_not_found_error e
         then report_not_found "IMAGE" image_name
         else report_error "IMAGE" image_name (exc_str e))).

(** Lines 466-488: the loop over the instances; its result is
    [deleting_instances]. *)
Definition clean_instances (self : ComputeCleaner) : M (dict string) :=
  fold_each (co_instances self) (co_instances self)
    (fun '(ins_id, ins_name) deleting_instances =>
       try_catch
         (instance <- invoke (GetServer ins_id) ;;
          let fips := match instance with
                      | Some i => _get_instance_floating_ips i
                      | None => []
                      end in
          (if co_dryrun self
           then for_each fips (fun fip =>
                  report_deletion (co_dryrun self) "FLOATING IP" fip) ;;
                report_deletion (co_dryrun self) "INSTANCE" ins_name
           else _delete_floating_ips self fips ;;
                invoke_ (DeleteServer ins_id)) ;;
          ret deleting_instances)
         (fun e =>
            if is_not_found_error e
            then report_not_found "INSTANCE" ins_name ;;
                 ret (Dict.remove ins_id deleting_instances)
            else report_error "INSTANCE" ins_name (exc_str e) ;;
                 ret deleting_instances)).

Definition ComputeCleaner_clean (self : ComputeCleaner) : M unit :=
  deleting_instances <- clean_instances self ;;
  (if negb (co_dryrun self) && nonempty deleting_instances
   then _wait_for_instance_deletion self deleting_instances
   else ret tt) ;;
  _clean_flavors self ;;
  _clean_keypairs self ;;
  _clean_images self.

(** *** NetworkCleaner *)

Definition NetworkCleaner_init (resources : option (dict (dict string)))
           (dryrun : bool) : M NetworkCleaner :=
  floating_ips <-
    init_resources resources "floating_ips"
      (fips <- invoke Ips ;; ret (map resource_of_floating_ip fips)) ;;
  sec_groups <-
    init_resources resources "sec_groups" (invoke (List_ SecurityGroups)) ;;
  networks <- init_resources resources "networks" (invoke (List_ Networks)) ;;
  routers <- init_resources resources "routers" (invoke (List_ Routers)) ;;
  ret (mk_NetworkCleaner dryrun floating_ips sec_groups networks routers).

Definition description_info (fip_description : string) : string :=
  if negb (fip_description =? "")
  then " (desc: "
       +++ Str.take DEFAULT_DESCRIPTION_TRUNCATE_LENGTH fip_description +++ "...)"
  else "".

Definition _delete_floating_ip (self : NetworkCleaner) (fip : floating_ip) : M unit :=
  let fip_ip := floating_ip_address fip in
  let fip_description := text (fip_description fip) in
  try_catch
    (if ne_dryrun self
     then report_deletion (ne_dryrun self) "FLOATING IP"
            (fip_ip +++ description_info fip_description)
     else invoke_ (DeleteIp (fip_id fip)) ;;
          report_deletion (ne_dryrun self) "FLOATING IP"
            (fip_ip +++ description_info fip_description))
    (fun e =>
       if is_not_found_error e
       then report_not_found "FLOATING IP" fip_ip
       else report_error "FLOATING IP" fip_ip (exc_str e)).

(** 1. Lines 662-674: the floating IPs found during discovery. *)
Definition clean_discovered_floating_ips (self : NetworkCleaner) : M unit :=
  for_each (ne_floating_ips self) (fun '(id, name) =>
    try_catch
      (fip <- invoke (GetIp id) ;;
       _delete_floating_ip self fip)
      (fun e =>
         if is_not_found_error e
         then report_not_found "FLOATING IP" name
         else report_error "FLOATING IP" name (exc_str e))).

(** 2. Lines 676-695: the sweep over all floating IPs. *)
Definition sweep_floating_ips (self : NetworkCleaner) : M unit :=
  try_catch
    (all_floating_ips <- invoke Ips ;;
     for_each all_floating_ips (fun fip =>
       let fip_ip := floating_ip_address fip in
       let fip_description := text (fip_description fip) in
       if Dict.mem (fip_id fip) (ne_floating_ips self) then ret tt
       else if resource_name_re fip_ip
               || resource_name_re (fip_id fip)
               || resource_name_re fip_description
            then _delete_floating_ip self fip
            else ret tt))
    (fun _ => ret tt).

Definition system_port_owners : list string :=
  ["network:router_interface"; "network:dhcp"; "network:router_gateway"].

(** 3. Lines 697-725: the sweep over all ports. *)
Definition sweep_ports (self : NetworkCleaner) : M unit :=
  try_catch
    (all_ports <- invoke (Ports AllPorts) ;;
     for_each all_ports (fun port =>
       let port_name := py_str (port_name port) in
       if resource_name_re port_name || resource_name_re (port_id port)
       then
         try_catch
           (if negb (in_list (device_owner port) system_port_owners)
            then if ne_dryrun self
                 then report_deletion (ne_dryrun self) "PORT" port_name
                 else invoke_ (DeletePort (port_id port)) ;;
                      report_deletion (ne_dryrun self) "PORT" port_name
            else ret tt)
           (fun e =>
              if is_not_found_error e
              then report_not_found "PORT" port_name
              else report_error "PORT" port_name (exc_str e))
       else ret tt))
    (fun _ => ret tt).

(** Lines 748-756: is this floating IP on a port of the router? *)
Definition on_router (id : string) (fip : floating_ip) : M bool :=
  if pyval_is (fip_router_id fip) id || truthy (fip_port_id fip)
  then try_catch
         (port <- invoke (GetPort (fip_port_id fip)) ;;
          ret (device_id port =? id))
         (fun _ => ret false)
  else ret false.

(** Lines 744-768.  [Some router_fips] when the list has been
    assigned, [None] when [ips()] raised before the assignment. *)
Definition delete_router_floating_ips (self : NetworkCleaner) (id : string)
  : M (option (list floating_ip)) :=
  try_catch
    (all_floating_ips <- invoke Ips ;;
     router_fips <- filter_each all_floating_ips (on_router id) ;;
     for_each router_fips (fun fip =>
       try_catch
         (invoke_ (DeleteIp (fip_id fip)) ;;
          report_deletion (ne_dryrun self) "FLOATING IP" (floating_ip_address fip))
         (fun _ => ret tt)) ;;
     ret (Some router_fips))
    (fun _ => ret None).

(** Lines 771-798, after [router_fips] has its value for this turn. *)
Definition unplug_and_delete_router (self : NetworkCleaner) (id name : string)
           (router : router) (router_fips : option (list floating_ip)) : M unit :=
  match router_fips with
  | None => raise (UnboundLocalError "router_fips")
  | Some fips => if nonempty fips then sleep DEFAULT_ROUTER_FIP_WAIT else ret tt
  end ;;
  match external_gateway_info router with
  | Some _ =>
      try_catch
        (invoke_ (UpdateRouterNoGateway id) ;;
         report_deletion (ne_dryrun self) "Router Gateway" name)
        (fun _ => ret tt)
  | None => ret tt
  end ;;
  port_list <- invoke (Ports (PortsOfDevice id)) ;;
  for_each port_list (fun port =>
    match fixed_ips port with
    | first :: _ =>
        try_catch
          (invoke_ (RemoveInterfaceFromRouter id (subnet_id first)))
          (fun _ => ret tt)
    | [] => ret tt
    end) ;;
  invoke_ (DeleteRouter id).

(** Lines 800-806. *)
Definition router_failed (name : string) (e : exn) : M unit :=
  if is_not_found_error e
  then report_not_found "ROUTER" name
  else if Str.contains "Conflict" (exc_type e) || Str.contains "409" (exc_str e)
       then report_error "ROUTER" name
              ("Conflict (may have dependencies): " +++ exc_str e)
       else report_error "ROUTER" name (exc_str e).

(** One turn of the loop of lines 728-806.  [router_fips] is a local
    variable of [clean]: it keeps its value from one router to the
    next and is unbound until [ips()] has answered once.  The [try]
    of line 729 is split in two here, around [get_router] and around
    lines 771-799; lines 744-768 in between raise nothing.  So the
    variable is updated as in the script, also when the rest of the
    turn raises, and the handler is the same. *)
Definition clean_router (self : NetworkCleaner)
           (router_fips : option (list floating_ip)) (id name : string)
  : M (option (list floating_ip)) :=
  if ne_dryrun self
  then
    try_catch
      (invoke_ (GetRouter id) ;;
       report_deletion (ne_dryrun self) "Router Gateway" name ;;
       port_list <- invoke (Ports (PortsOfDevice id)) ;;
       for_each port_list (fun port =>
         match fixed_ips port with
         | first :: _ =>
             report_deletion (ne_dryrun self) "Router Interface" (ip_address first)
         | [] => ret tt
         end) ;;
       report_deletion (ne_dryrun self) "ROUTER" name)
      (router_failed name) ;;
    ret router_fips
  else
    got <- try_catch
             (router <- invoke (GetRouter id) ;; ret (Some router))
             (fun e => router_failed name e ;; ret None) ;;
    match got with
    | None => ret router_fips
    | Some router =>
        assigned <- delete_router_floating_ips self id ;;
        let router_fips :=
          match assigned with
          | Some fips => Some fips
          | None => router_fips
          end in
        try_catch
          (unplug_and_delete_router self id name router router_fips ;;
           report_deletion (ne_dryrun self) "ROUTER" name)
          (router_failed name) ;;
        ret router_fips
    end.

Definition clean_routers (self : NetworkCleaner) : M unit :=
  _ <- fold_each (ne_routers self) None (fun '(id, name) router_fips =>
         clean_router self router_fips id name) ;;
  ret tt.

Definition network_port_owners : list string :=
  ["network:dhcp"; "network:router_interface";
   "network:router_gateway"; "network:floatingip"].

(** Lines 820-836. *)
Definition delete_remaining_ports (id : string) : M unit :=
  try_catch
    (remaining_ports <- invoke (Ports (PortsOfNetwork id)) ;;
     for_each remaining_ports (fun port =>
       if in_list (device_owner port) network_port_owners then ret tt
       else try_catch (invoke_ (DeletePort (port_id port))) (fun _ => ret tt)))
    (fun _ => ret tt).

Definition network_in_use (e : exn) : bool :=
  Str.contains "NetworkInUse" (exc_type e)
  || Str.contains "409" (exc_str e)
  || Str.contains "in use" (Str.lower (exc_str e))
  || Str.contains "ports still in use" (Str.lower (exc_str e)).

(** The body of [while retry_count > 0], lines 813-855. *)
Definition network_attempt (self : NetworkCleaner) (id name : string)
           (retry_count : nat) : M loop_ctl :=
  try_catch
    (if ne_dryrun self
     then invoke_ (GetNetwork id) ;;
          report_deletion (ne_dryrun self) "NETWORK" name ;;
          ret Break
     else delete_remaining_ports id ;;
          invoke_ (DeleteNetwork id) ;;
          report_deletion (ne_dryrun self) "NETWORK" name ;;
          ret Break)
    (fun e =>
       if is_not_found_error e
       then report_not_found "NETWORK" name ;; ret Break
       else if network_in_use e
            then let retry_count := retry_count - 1 in
                 (if (0 <? retry_count)%nat
                  then sleep 5
                  else report_error "NETWORK" name
                         ("Still has dependencies after retries: " +++ exc_str e)) ;;
                 ret Retry
            else report_error "NETWORK" name (exc_str e) ;; ret Break).

Definition clean_networks (self : NetworkCleaner) : M unit :=
  for_each (ne_networks self) (fun '(id, name) =>
    retry_loop 3 (network_attempt self id name)).

Definition security_group_in_use (e : exn) : bool :=
  Str.contains "Conflict" (exc_type e)
  || Str.contains "409" (exc_str e)
  || Str.contains "in use" (Str.lower (exc_str e)).

(** The body of [while retry_count > 0], lines 868-891. *)
Definition security_group_attempt (self : NetworkCleaner) (id name : string)
           (retry_count : nat) : M loop_ctl :=
  try_catch
    (if ne_dryrun self
     then invoke_ (GetSecurityGroup id) ;;
          report_deletion (ne_dryrun self) "SECURITY GROUP" name ;;
          ret Break
     else invoke_ (DeleteSecurityGroup id) ;;
          report_deletion (ne_dryrun self) "SECURITY GROUP" name ;;
          ret Break)
    (fun e =>
       if is_not_found_error e
       then report_not_found "SECURITY GROUP" name ;; ret Break
       else if security_group_in_use e
            then let retry_count := retry_count - 1 in
                 (if (0 <? retry_count)%nat
                  then sleep 5
                  else report_error "SECURITY GROUP" name
                         ("Still in use after retries: " +++ exc_str e)) ;;
                 ret Retry
            else report_error "SECURITY GROUP" name (exc_str e) ;; ret Break).

(** Lines 866-891: one security group. *)
Definition clean_security_group (self : NetworkCleaner) (id name : string) : M unit :=
  retry_loop 3 (security_group_attempt self id name).

(** Lines 859-891. *)
Definition clean_security_groups (self : NetworkCleaner)
           (security_groups_to_delete : list (string * string)) : M unit :=
  if nonempty security_groups_to_delete
  then (if negb (ne_dryrun self) then sleep 5 else ret tt) ;;
       for_each security_groups_to_delete (fun '(id, name) =>
         clean_security_group self id name)
  else ret tt.

(** Lines 662-857: everything [clean] does before line 859. *)
Definition clean_before_security_groups (self : NetworkCleaner) : M unit :=
  clean_discovered_floating_ips self ;;
  sweep_floating_ips self ;;
  sweep_ports self ;;
  clean_routers self ;;
  clean_networks self.

Definition NetworkCleaner_clean (self : NetworkCleaner) : M unit :=
  let security_groups_to_delete := ne_sec_groups self in
  clean_before_security_groups self ;;
  clean_security_groups self security_groups_to_delete.

(** *** LoadBalancerCleaner *)

Definition LoadBalancerCleaner_init (resources : option (dict (dict string)))
           (dryrun : bool) : M LoadBalancerCleaner :=
  loadbalancers <-
    init_resources resources "loadbalancers" (invoke (List_ LoadBalancers)) ;;
  ret (mk_LoadBalancerCleaner dryrun loadbalancers None).

Definition set_monitor (self : LoadBalancerCleaner) (monitor : ResourceMonitor)
  : LoadBalancerCleaner :=
  mk_LoadBalancerCleaner (lb_dryrun self) (lb_loadbalancers self) (Some monitor).

Definition pending_states : list string :=
  ["PENDING_UPDATE"; "PENDING_CREATE"; "PENDING_DELETE"].

(** Lines 931-944: [Some c] when the turn of the [while] loop ends
    here, with [continue] or [break]. *)
Definition check_provisioning (id name : string) (retry_count : nat)
  : M (option loop_ctl) :=
  try_catch
    (lb <- invoke (GetLoadBalancer id) ;;
     if in_list (provisioning_status lb) pending_states
     then let retry_count := retry_count - 1 in
          if (0 <? retry_count)%nat
          then sleep DEFAULT_LB_RETRY_DELAY ;; ret (Some Retry)
          else report_error "LOAD BALANCER" name
                 ("Still in " +++ provisioning_status lb +++ " state after retries") ;;
               ret (Some Break)
     else ret None)
    (fun e =>
       if exc_is_ResourceNotFound e
       then report_not_found "LOAD BALANCER" name ;; ret (Some Break)
       else raise e).

(** The body of [while retry_count > 0], lines 925-968. *)
Definition load_balancer_attempt (self : LoadBalancerCleaner) (id name : string)
           (retry_count : nat) : M loop_ctl :=
  try_catch
    (if lb_dryrun self
     then report_deletion (lb_dryrun self) "LOAD BALANCER" name ;; ret Break
     else
       ended <- check_provisioning id name retry_count ;;
       match ended with
       | Some c => ret c
       | None =>
           invoke_ (DeleteLoadBalancer id true) ;;
           report_deletion (lb_dryrun self) "LOAD BALANCER" name ;;
           match lb_monitor self with
           | Some monitor =>
               _ <- verify_resource_deleted monitor "LOAD BALANCER" id 10 2 ;;
               ret tt
           | None => ret tt
           end ;;
           ret Break
       end)
    (fun e =>
       if exc_is_ResourceNotFound e
       then report_not_found "LOAD BALANCER" name ;; ret Break
       else if Str.contains "ConflictException" (exc_type e)
               || Str.contains "409" (exc_str e)
            then let retry_count := retry_count - 1 in
                 (if (0 <? retry_count)%nat
                  then sleep DEFAULT_LB_RETRY_DELAY
                  else report_error "LOAD BALANCER" name
                         ("Conflict after retries: " +++ exc_str e)) ;;
                 ret Retry
            else report_error "LOAD BALANCER" name (exc_str e) ;; ret Break).

Definition LoadBalancerCleaner_clean (self : LoadBalancerCleaner) : M unit :=
  for_each (lb_loadbalancers self) (fun '(id, name) =>
    retry_loop DEFAULT_RETRY_COUNT (load_balancer_attempt self id name)).

(** *** AdvancedServicesCleaner *)

(** [try: list(fetch); True  except Exception: False] *)
Definition available (probe : M (list resource)) : M bool :=
  try_catch (_ <- probe ;; ret true) (fun _ => ret false).

(** [unique_stacks] of [stacks_fetcher], as a list of its values. *)
Definition unique_by_id (all_stacks : list resource) : list resource :=
  map snd
      (fold_left (fun unique_stacks stack =>
                    Dict.set (f_id (fields_of stack)) stack unique_stacks)
                 all_stacks []).

Definition AdvancedServicesCleaner_init (resources : option (dict (dict string)))
           (dryrun : bool) : M AdvancedServicesCleaner :=
  dns <- available (invoke (List_ (Zones true))) ;;
  heat <- available (invoke (List_ (Stacks true))) ;;
  dns_zones <-
    (if dns
     then d <- init_resources resources "dns_zones" (invoke (List_ (Zones false))) ;;
          ret (Some d)
     else ret None) ;;
  heat_stacks <-
    (if heat
     then d <- init_resources resources "heat_stacks"
                 (all_stacks <- invoke (List_ (Stacks false)) ;;
                  ret (unique_by_id all_stacks)) ;;
          ret (Some d)
     else ret None) ;;
  ret (mk_AdvancedServicesCleaner dryrun dns heat dns_zones heat_stacks).

Definition clean_heat_stacks (self : AdvancedServicesCleaner) : M unit :=
  try_catch
    (for_each (get_or_empty (ad_heat_stacks self)) (fun '(stack_id, stack_name) =>
       try_catch
         (if ad_dryrun self
          then report_deletion (ad_dryrun self) "HEAT STACK" stack_name
          else stack <- invoke (GetStack stack_id) ;;
               invoke_ (DeleteStack stack) ;;
               invoke_ (WaitForDelete stack) ;;
               report_deletion (ad_dryrun self) "HEAT STACK" stack_name)
         (fun e =>
            if Str.contains "NotFound" (exc_str e)
            then report_not_found "HEAT STACK" stack_name
            else report_error "HEAT STACK" stack_name (exc_str e))))
    (fun _ => ret tt).

Definition clean_dns_zones (self : AdvancedServicesCleaner) : M unit :=
  try_catch
    (for_each (get_or_empty (ad_dns_zones self)) (fun '(zone_id, zone_name) =>
       try_catch
         (if ad_dryrun self
          then report_deletion (ad_dryrun self) "DNS ZONE" zone_name
          else invoke_ (DeleteZone zone_id) ;;
               report_deletion (ad_dryrun self) "DNS ZONE" zone_name)
         (fun e =>
            if Str.contains "NotFound" (exc_str e)
            then report_not_found "DNS ZONE" zone_name
            else report_error "DNS ZONE" zone_name (exc_str e))))
    (fun _ => ret tt).

Definition AdvancedServicesCleaner_clean (self : AdvancedServicesCleaner) : M unit :=
  if negb (ad_available_dns self || ad_available_heat self || false)
  then ret tt
  else
    (if ad_available_heat self then clean_heat_stacks self else ret tt) ;;
    (if ad_available_dns self then clean_dns_zones self else ret tt).

(** *** OpenStackCleaners *)

Definition clean (c : cleaner) : M unit :=
  match c with
  | AdvancedServices self => AdvancedServicesCleaner_clean self
  | Compute self => ComputeCleaner_clean self
  | Storage self => StorageCleaner_clean self
  | LoadBalancer self => LoadBalancerCleaner_clean self
  | Network self => NetworkCleaner_clean self
  end.

(** [get_resource_list], rows [(rtype, resname, resid)] *)
Definition get_resource_list (c : cleaner) : list (string * string * string) :=
  match c with
  | AdvancedServices self =>
      match ad_dns_zones self with
      | Some d => resource_rows "dns_zones" d
      | None => []
      end
      ++ match ad_heat_stacks self with
         | Some d => resource_rows "heat_stacks" d
         | None => []
         end
  | Compute self =>
      resource_rows "instances" (co_instances self)
      ++ resource_rows "flavors" (co_flavors self)
      ++ resource_rows "keypairs" (co_keypairs self)
      ++ resource_rows "images" (co_images self)
  | Storage self =>
      resource_rows "volumes" (st_volumes self)
      ++ resource_rows "volume_snapshots" (st_volume_snapshots self)
  | LoadBalancer self =>
      resource_rows "loadbalancers" (lb_loadbalancers self)
  | Network self =>
      resource_rows "floating_ips" (ne_floating_ips self)
      ++ resource_rows "sec_groups" (ne_sec_groups self)
      ++ resource_rows "networks" (ne_networks self)
      ++ resource_rows "routers" (ne_routers self)
  end.

(** Lines 1080-1081 and 1083-1092 of [OpenStackCleaners.__init__]:
    what it does with the session once [get_session] has returned it
    on line 1082.  The whole constructor, with line 1082, is
    [OpenStackCleaners_new] below, where the machine that the script
    runs on is at hand. *)
Definition OpenStackCleaners_init (resources : option (dict (dict string)))
           (dryrun : bool) : M OpenStackCleaners :=
  let monitor := mk_ResourceMonitor dryrun in
  advanced <- AdvancedServicesCleaner_init resources dryrun ;;
  compute <- ComputeCleaner_init resources dryrun ;;
  storage <- StorageCleaner_init resources dryrun ;;
  loadbalancer <- LoadBalancerCleaner_init resources dryrun ;;
  network <- NetworkCleaner_init resources dryrun ;;
  ret (mk_OpenStackCleaners
         [AdvancedServices advanced;
          Compute compute;
          Storage storage;
          LoadBalancer (set_monitor loadbalancer monitor);
          Network network]
         dryrun monitor).

(** The number [show_resources] returns. *)
Definition show_resources (self : OpenStackCleaners) : nat :=
  List.length (flat_map get_resource_list (cleaners self)).

Definition OpenStackCleaners_clean (self : OpenStackCleaners) : M unit :=
  for_each (cleaners self) clean.

End Script.

(** ** More of Python's [str] *)

Module Text.

(** [s[n:]] *)
Fixpoint drop (n : nat) (s : string) : string :=
  match n, s with
  | S n', String _ s' => drop n' s'
  | _, _ => s
  end.

(** [s.split(sep, 1)] for a one-character separator *)
Fixpoint split_once (sep : ascii) (s : string) : list string :=
  match s with
  | EmptyString => [EmptyString]
  | String c s' =>
      if Ascii.eqb c sep then [EmptyString; s']
      else match split_once sep s' with
           | h :: t => String c h :: t
           | [] => [String c EmptyString]
           end
  end.

Fixpoint lstrip_chars (chars : list ascii) (s : string) : string :=
  match s with
  | EmptyString => EmptyString
  | String c s' => if existsb (Ascii.eqb c) chars then lstrip_chars chars s' else s
  end.

(** [s.strip(chars)] *)
Definition strip_chars (chars : list ascii) (s : string) : string :=
  Str.rev (lstrip_chars chars (Str.rev (lstrip_chars chars s))).

(** The two quotes of [value.strip] in [_load_openrc_file]. *)
Definition quotes : list ascii := [ascii_of_nat 34; ascii_of_nat 39].

(** A string with a character of code 0. *)
Definition has_nul (s : string) : bool :=
  Str.contains (String (ascii_of_nat 0) EmptyString) s.

End Text.

(** ** The machine the script runs on

    What [Credentials] and [main] read besides the cloud: the
    environment, the files, the keyboard, the [re] module and
    [openstack.connect]. *)

Record host : Type := mk_host {
  environ : dict string;                        (* [os.environ] when the script starts *)
  path_exists : string -> bool;                 (* [os.path.exists] *)
  openrc_lines : string -> list string;         (* the lines [for line in f] yields
                                                   before it ends or raises *)
  readlines : string -> exn + list string;      (* [open(logfile).readlines()] *)
  re_compile : string -> exn + (string -> bool);(* [re.compile(p).search] *)
  connect : pyval -> dict string -> option exn; (* what [openstack.connect] raises *)
  input : exn + string                          (* the answer typed at the prompt *)
}.

Definition ValueError (message : string) : exn :=
  mk_exn "<class 'ValueError'>" message false.

Definition OSError (message : string) : exn :=
  mk_exn "<class 'OSError'>" message false.

Definition SystemExit (code : nat) : exn :=
  mk_exn "<class 'SystemExit'>"
         (match code with 0 => "0" | _ => "1" end) false.

(** ** Credentials *)

Record Credentials : Type := mk_Credentials {
  openrc_file : pyval;
  cloud_name : pyval;
  rc_auth_url : pyval
}.

(** [os.environ[key] = value]: CPython refuses a character of code 0,
    and [setenv] an empty name. *)
Definition environ_set (key value : string) (environ : dict string)
  : exn + dict string :=
  if Text.has_nul key || Text.has_nul value
  then inl (ValueError "embedded null byte")
  else if key =? ""
       then inl (OSError "[Errno 22] Invalid argument")
       else inr (Dict.set key value environ).

(** [os.environ.get(key)] *)
Definition environ_get (key : string) (environ : dict string) : pyval :=
  match Dict.get key environ with
  | Some value => PyStr value
  | None => PyNone
  end.

(** One turn of the loop of lines 95-104; [inl] when it raises. *)
Definition load_openrc_line (line : string) (environ : dict string)
  : exn + dict string :=
  let line := Str.strip line in
  if String.prefix "export " line
  then
    let line := Text.drop 7 line in
    if Str.contains "=" line
    then match Text.split_once "=" line with
         | [key; value] =>
             let value := Text.strip_chars Text.quotes value in
             environ_set key value environ
         | _ => inl (ValueError "not enough values to unpack (expected 2, got 1)")
         end
    else inr environ
  else inr environ.

(** Lines 93-106 over the lines of the file: the handler of line 105
    prints the exception, and the loop is over. *)
Fixpoint _load_openrc_file (lines : list string) (environ : dict string)
  : dict string :=
  match lines with
  | [] => environ
  | line :: rest =>
      match load_openrc_line line environ with
      | inr environ' => _load_openrc_file rest environ'
      | inl _ => environ
      end
  end.

(** Lines 108-129: the value returned and [self] with [rc_auth_url]
    assigned. *)
Definition _validate_auth (self : Credentials) (environ : dict string)
  : bool * Credentials :=
  if truthy (cloud_name self) then (true, self)
  else
    let self := mk_Credentials (openrc_file self) (cloud_name self)
                               (environ_get "OS_AUTH_URL" environ) in
    if negb (truthy (rc_auth_url self)) then (false, self)
    else if truthy (environ_get "OS_APPLICATION_CREDENTIAL_ID" environ)
            && truthy (environ_get "OS_APPLICATION_CREDENTIAL_SECRET" environ)
         then (true, self)
         else if truthy (environ_get "OS_USERNAME" environ)
                 && truthy (environ_get "OS_PROJECT_NAME" environ)
              then (true, self)
              else (false, self).

(** [Credentials.__init__]: the object and the environment it leaves. *)
Definition Credentials_init (h : host) (openrc_file cloud_name : pyval)
  : Credentials * dict string :=
  let self := mk_Credentials openrc_file cloud_name PyNone in
  let loaded :=
    if truthy openrc_file && path_exists h (text openrc_file)
    then Some (_load_openrc_file (openrc_lines h (text openrc_file)) (environ h))
    else if truthy openrc_file
         then None                                         (* [return], line 85 *)
         else Some (environ h) in
  match loaded with
  | None => (self, environ h)
  | Some environ =>
      if negb (truthy cloud_name)
      then (snd (_validate_auth self environ), environ)
      else (self, environ)
  end.

(** [Credentials.get_session]: the exception it raises again, if any. *)
Definition get_session (h : host) (self : Credentials) (environ : dict string)
  : option exn :=
  connect h (cloud_name self) environ.

(** ** [main] *)

(** [opts], as [parser.parse_args()] returns it. *)
Record options : Type := mk_options {
  opt_rc : pyval;
  opt_cloud : pyval;
  opt_file : pyval;
  opt_dryrun : bool;
  opt_filter : pyval;
  opt_auto_approve : bool
}.

Section Main.
Variable World : Type.
Variable be : backend World.
Variable h : host.

Local Abbreviation M := (M World).

(** Lines 284-292; [sys.exit(0)] raises [SystemExit]. *)
Definition prompt_to_run (auto_approve : bool) : M unit :=
  if auto_approve then ret tt
  else match input h with
       | inl e => raise e
       | inr answer =>
           if negb (Str.lower answer =? "y") then raise (SystemExit 0) else ret tt
       end.

(** Lines 1228-1232. *)
Definition load_resources (opts : options) : M (option (dict (dict string))) :=
  if truthy (opt_file opts)
  then match readlines h (text (opt_file opts)) with
       | inl e => raise e
       | inr content =>
           match fst (get_resources_from_cleanup_log content) with
           | inl e => raise e
           | inr resources => ret (Some resources)
           end
       end
  else ret None.

(** Lines 1234-1242: the [search] of the pattern, or the exception of
    [re.compile]. *)
Definition compile_filter (opts : options) : exn + (string -> bool) :=
  if truthy (opt_filter opts)
  then re_compile h (text (opt_filter opts))
  else inr (Re.search Re.default_filter).

(** [OpenStackCleaners(creds_obj, resources, dryrun)]: the whole of
    [__init__], lines 1079-1092.  Line 1082 asks [creds_obj] for the
    session, and [get_session] raises again what [openstack.connect]
    raises; [OpenStackCleaners_init] is what follows. *)
Definition OpenStackCleaners_new (creds_obj : Credentials) (environ : dict string)
           (resource_name_re : string -> bool)
           (resources : option (dict (dict string))) (dryrun : bool)
  : M OpenStackCleaners :=
  match get_session h creds_obj environ with
  | Some e => raise e
  | None => OpenStackCleaners_init be resource_name_re resources dryrun
  end.

(** The value is the exit status of [sys.exit(main())]. *)
Definition main (opts : options) : M nat :=
  if truthy (opt_rc opts) && truthy (opt_cloud opts) then ret 1
  else
    let '(cred, environ) := Credentials_init h (opt_rc opts) (opt_cloud opts) in
    if negb (truthy (opt_cloud opts)) && negb (truthy (rc_auth_url cred)) then ret 1
    else
      resources <- load_resources opts ;;
      match compile_filter opts with
      | inl _ => ret 1
      | inr resource_name_re =>
          cleaners <-
            OpenStackCleaners_new cred environ resource_name_re resources
                                  (opt_dryrun opts) ;;
          let count := show_resources cleaners in
          if (count =? 0)%nat then ret 0
          else
            (if negb (truthy (opt_file opts)) && negb (opt_dryrun opts)
             then prompt_to_run (opt_auto_approve opts)
             else ret tt) ;;
            OpenStackCleaners_clean be resource_name_re cleaners ;;
            ret 0
      end.

End Main.

(** * Scenarios *)

Definition nl : string := String (ascii_of_nat 10) EmptyString.

(** A resource that has a name and nothing else. *)
Definition named (id name : string) : resource :=
  ObjRes (mk_fields id (Some (PyStr name)) None None).

Definition described (id name description : string) : resource :=
  ObjRes (mk_fields id (Some (PyStr name)) (Some (PyStr description)) None).

(** What a backend answers when nothing is said about the call. *)
Definition default_resp (c : call) : resp c :=
  match c with
  | GetServer _ => None
  | Ips => []
  | GetIp id => mk_floating_ip id "" PyNone PyNone PyNone
  | Ports _ => []
  | GetPort _ => mk_port "" PyNone "" "" []
  | GetRouter _ => mk_router None
  | GetLoadBalancer _ => mk_load_balancer "ACTIVE"
  | GetStack id => mk_stack id
  | List_ _ => []
  | _ => tt
  end.

Definition ResourceNotFound (message : string) : exn :=
  mk_exn "<class 'openstack.exceptions.ResourceNotFound'>" message true.

Definition ConflictException (message : string) : exn :=
  mk_exn "<class 'openstack.exceptions.ConflictException'>" message false.


(** A cloud that holds nothing and accepts every call. *)
Definition empty_cloud : backend unit :=
  mk_backend (fun c w => (inr (default_resp c), w)) (fun _ w => w).

(** A cloud where the security group [sg1] is in use until two
    deletions have been refused; the world counts the refusals. *)
Definition busy_group_cloud (refusals : nat) : backend nat :=
  mk_backend
    (fun c =>
       match c as c0 return nat -> (exn + resp c0) * nat with
       | DeleteSecurityGroup _ =>
           fun w =>
             if (w <? refusals)%nat
             then (inl (ConflictException "409: Security Group sg1 in use"), S w)
             else (inr tt, w)
       | c0 => fun w => (inr (default_resp c0), w)
       end)
    (fun _ w => w).

(** A cloud that remembers the servers it has deleted. *)
Definition small_cloud : backend (list string) :=
  mk_backend
    (fun c =>
       match c as c0 return list string -> (exn + resp c0) * list string with
       | GetServer id =>
           fun w =>
             if in_list id w
             then (inl (ResourceNotFound ("No Server found for " +++ id)), w)
             else (inr (Some (mk_server [])), w)
       | DeleteServer id => fun w => (inr tt, id :: w)
       | c0 => fun w => (inr (default_resp c0), w)
       end)
    (fun _ w => w).

(** A resource list with one instance and one security group. *)
Definition instance_and_group : option (dict (dict string)) :=
  Some [("instances", [("i1", "vm")]); ("sec_groups", [("sg1", "web")])].

(** What [OpenStackCleaners(creds, instance_and_group, False)] is on
    [small_cloud]. *)
Definition cleaners_of_instance_and_group : OpenStackCleaners :=
  mk_OpenStackCleaners
    [AdvancedServices (mk_AdvancedServicesCleaner false true true (Some []) (Some []));
     Compute (mk_ComputeCleaner false [("i1", "vm")] [] [] []);
     Storage (mk_StorageCleaner false [] []);
     LoadBalancer (mk_LoadBalancerCleaner false [] (Some (mk_ResourceMonitor false)));
     Network (mk_NetworkCleaner false [] [("sg1", "web")] [] [])]
    false (mk_ResourceMonitor false).

(** A cloud where the server [i1] has the floating IP [203.0.113.7],
    whose deletion answers 404; the stack [s1] is gone as well. *)
Definition gone_cloud : backend unit :=
  mk_backend
    (fun c =>
       match c as c0 return unit -> (exn + resp c0) * unit with
       | GetServer _ =>
           fun w =>
             (inr (Some (mk_server
                           [("private",
                             [mk_address "10.0.0.5" (Some "fixed");
                              mk_address "203.0.113.7" (Some "floating")])])), w)
       | Ips =>
           fun w => (inr [mk_floating_ip "f1" "203.0.113.7" PyNone PyNone PyNone], w)
       | DeleteIp id =>
           fun w =>
             (inl (ResourceNotFound
                     ("404: Client Error for url: /v2.0/floatingips/" +++ id)), w)
       | GetStack id =>
           fun w => (inl (ResourceNotFound ("No Stack found for " +++ id)), w)
       | c0 => fun w => (inr (default_resp c0), w)
       end)
    (fun _ w => w).

(** A cloud where every volume has vanished since the list was made. *)
Definition vanished_cloud : backend unit :=
  mk_backend
    (fun c =>
       match c as c0 return unit -> (exn + resp c0) * unit with
       | GetVolume id =>
           fun w => (inl (ResourceNotFound ("No Volume found for " +++ id)), w)
       | c0 => fun w => (inr (default_resp c0), w)
       end)
    (fun _ w => w).

(** A resource list with one volume. *)
Definition one_volume : option (dict (dict string)) :=
  Some [("volumes", [("v1", "data")])].

(** What [OpenStackCleaners(creds, one_volume, True)] is on
    [empty_cloud] and on [vanished_cloud]. *)
Definition dry_cleaners_of_one_volume : OpenStackCleaners :=
  mk_OpenStackCleaners
    [AdvancedServices (mk_AdvancedServicesCleaner true true true (Some []) (Some []));
     Compute (mk_ComputeCleaner true [] [] [] []);
     Storage (mk_StorageCleaner true [("v1", "data")] []);
     LoadBalancer (mk_LoadBalancerCleaner true [] (Some (mk_ResourceMonitor true)));
     Network (mk_NetworkCleaner true [] [] [] [])]
    true (mk_ResourceMonitor true).

(** A resource list with one security group. *)
Definition one_group : option (dict (dict string)) :=
  Some [("sec_groups", [("sg1", "web")])].

(** What [OpenStackCleaners(creds, one_group, False)] is on
    [busy_group_cloud]. *)
Definition cleaners_of_one_group : OpenStackCleaners :=
  mk_OpenStackCleaners
    [AdvancedServices (mk_AdvancedServicesCleaner false true true (Some []) (Some []));
     Compute (mk_ComputeCleaner false [] [] [] []);
     Storage (mk_StorageCleaner false [] []);
     LoadBalancer (mk_LoadBalancerCleaner false [] (Some (mk_ResourceMonitor false)));
     Network (mk_NetworkCleaner false [] [("sg1", "web")] [] [])]
    false (mk_ResourceMonitor false).




Definition FileNotFoundError (path : string) : exn :=
  mk_exn "<class 'FileNotFoundError'>"
         ("[Errno 2] No such file or directory: '" +++ path +++ "'") false.

Definition re_error (message : string) : exn :=
  mk_exn "<class 're.error'>" message false.

(** A host with the files [files] and [OS_AUTH_URL] in the
    environment, where every connection succeeds and the user types
    [answer]; its [re.compile] is asked for the two patterns of the
    examples and for [(], which is no pattern. *)
Definition desk (files : dict (list string)) (answer : string) : host :=
  mk_host
    [("OS_AUTH_URL", "https://cloud.example:5000/v3")]
    (fun path => Dict.mem path files)
    (fun path => match Dict.get path files with Some lines => lines | None => [] end)
    (fun path => match Dict.get path files with
                 | Some lines => inr lines
                 | None => inl (FileNotFoundError path)
                 end)
    (fun pattern =>
       if pattern =? "^test-.*$" then inr (Re.search Re.test_prefix)
       else if pattern =? ".*test-cluster.*" then inr (Re.search Re.default_filter)
       else inl (re_error "missing ), unterminated subpattern at position 0"))
    (fun _ _ => None)
    (inr answer).

(** [python3 openstack_cleanup.py], with no option. *)
Definition no_options : options :=
  mk_options PyNone PyNone PyNone false PyNone false.

(** A cloud with the volume [v1], named [test-cluster-data]. *)
Definition volume_cloud : backend unit :=
  mk_backend
    (fun c =>
       match c as c0 return unit -> (exn + resp c0) * unit with
       | List_ Volumes => fun w => (inr [named "v1" "test-cluster-data"], w)
       | c0 => fun w => (inr (default_resp c0), w)
       end)
    (fun _ w => w).

(** A cloud whose load balancers stay in [PENDING_UPDATE]. *)
Definition pending_cloud : backend unit :=
  mk_backend
    (fun c =>
       match c as c0 return unit -> (exn + resp c0) * unit with
       | GetLoadBalancer _ => fun w => (inr (mk_load_balancer "PENDING_UPDATE"), w)
       | c0 => fun w => (inr (default_resp c0), w)
       end)
    (fun _ w => w).

Definition live_load_balancers : LoadBalancerCleaner :=
  mk_LoadBalancerCleaner false [("lb1", "front")] (Some (mk_ResourceMonitor false)).


(** A cloud with the volume [v1], named [prod-data], and the port
    [p1], named [test-cluster-port]. *)
Definition unmatched_cloud : backend unit :=
  mk_backend
    (fun c =>
       match c as c0 return unit -> (exn + resp c0) * unit with
       | List_ Volumes => fun w => (inr [named "v1" "prod-data"], w)
       | Ports AllPorts =>
           fun w =>
             (inr [mk_port "p1" (PyStr "test-cluster-port") "compute:nova" "i1" []], w)
       | c0 => fun w => (inr (default_resp c0), w)
       end)
    (fun _ w => w).

(** A cloud where a load balancer that is being deleted is still
    shown, in [PENDING_DELETE], to the first [shown] lookups, and is
    found no more afterwards; the world counts the lookups that
    answered. *)
Definition draining_cloud (shown : nat) : backend nat :=
  mk_backend
    (fun c =>
       match c as c0 return nat -> (exn + resp c0) * nat with
       | GetLoadBalancer id =>
           fun w =>
             if (w <? shown)%nat
             then (inr (mk_load_balancer "PENDING_DELETE"), S w)
             else (inl (ResourceNotFound ("No LoadBalancer found for " +++ id)), w)
       | c0 => fun w => (inr (default_resp c0), w)
       end)
    (fun _ w => w).

(** A cloud that remembers the servers it has deleted, where every
    server has the floating IP [203.0.113.7], which the cloud lists
    as [f1]. *)
Definition floating_cloud : backend (list string) :=
  mk_backend
    (fun c =>
       match c as c0 return list string -> (exn + resp c0) * list string with
       | GetServer id =>
           fun w =>
             if in_list id w
             then (inl (ResourceNotFound ("No Server found for " +++ id)), w)
             else (inr (Some (mk_server
                                [("private",
                                  [mk_address "203.0.113.7" (Some "floating")])])), w)
       | DeleteServer id => fun w => (inr tt, id :: w)
       | Ips =>
           fun w => (inr [mk_floating_ip "f1" "203.0.113.7" PyNone PyNone PyNone], w)
       | c0 => fun w => (inr (default_resp c0), w)
       end)
    (fun _ w => w).

(** A resource list with one instance and its floating IP. *)
Definition instance_and_ip : option (dict (dict string)) :=
  Some [("instances", [("i1", "vm")]); ("floating_ips", [("f1", "203.0.113.7")])].

(** What [OpenStackCleaners(creds, instance_and_ip, False)] is on
    [floating_cloud]. *)
Definition cleaners_of_instance_and_ip : OpenStackCleaners :=
  mk_OpenStackCleaners
    [AdvancedServices (mk_AdvancedServicesCleaner false true true (Some []) (Some []));
     Compute (mk_ComputeCleaner false [("i1", "vm")] [] [] []);
     Storage (mk_StorageCleaner false [] []);
     LoadBalancer (mk_LoadBalancerCleaner false [] (Some (mk_ResourceMonitor false)));
     Network (mk_NetworkCleaner false [("f1", "203.0.113.7")] [] [] [])]
    false (mk_ResourceMonitor false).


(** ** Vocabulary of the properties *)

(** The place of a call in the teardown of a router: floating IPs,
    gateway, interfaces, router. *)
Definition stage (ev : event) : option nat :=
  match ev with
  | Call (DeleteIp _) _ => Some 1
  | Call (UpdateRouterNoGateway _) _ => Some 2
  | Call (RemoveInterfaceFromRouter _ _) _ => Some 3
  | Call (DeleteRouter _) _ => Some 4
  | _ => None
  end.

Fixpoint stages (t : list event) : list nat :=
  match t with
  | [] => []
  | ev :: t' =>
      match stage ev with
      | Some s => s :: stages t'
      | None => stages t'
      end
  end.

Fixpoint nondecreasing (l : list nat) : bool :=
  match l with
  | a :: l' =>
      match l' with
      | b :: _ => (a <=? b)%nat && nondecreasing l'
      | [] => true
      end
  | [] => true
  end.

(** The stages of [t] do not decrease and lie between [lo] and [hi]. *)
Definition within (lo hi : nat) (t : list event) : Prop :=
  nondecreasing (stages t) = true
  /\ Forall (fun s => lo <= s <= hi) (stages t).

(** The event is of stage [k], or of none. *)
Definition at_stage (k : nat) (ev : event) : bool :=
  match stage ev with
  | Some s => (s =? k)%nat
  | None => true
  end.




(** The resource types whose delete call takes the id of the
    inventory. *)
Inductive keyed : Type :=
| KInstance | KFlavor | KImage
| KVolume | KSnapshot
| KLoadBalancer
| KNetwork | KRouter | KSecurityGroup
| KZone.

(** The delete call of the resource [id] of type [k]. *)
Definition deletes (k : keyed) (id : string) (ev : event) : bool :=
  match ev with
  | Call c _ =>
      match k, c with
      | KInstance, DeleteServer i => i =? id
      | KFlavor, DeleteFlavor i => i =? id
      | KImage, DeleteImage i => i =? id
      | KVolume, DeleteVolume i _ => i =? id
      | KSnapshot, DeleteSnapshot i => i =? id
      | KLoadBalancer, DeleteLoadBalancer i _ => i =? id
      | KNetwork, DeleteNetwork i => i =? id
      | KRouter, DeleteRouter i => i =? id
      | KSecurityGroup, DeleteSecurityGroup i => i =? id
      | KZone, DeleteZone i => i =? id
      | _, _ => false
      end
  | _ => false
  end.

(** The errors after which the loops of lines 812, 867 and 924 try
    again. *)
Definition retried (k : keyed) (e : exn) : bool :=
  match k with
  | KSecurityGroup => negb (is_not_found_error e) && security_group_in_use e
  | KNetwork => negb (is_not_found_error e) && network_in_use e
  | KLoadBalancer =>
      negb (exc_is_ResourceNotFound e)
      && (Str.contains "ConflictException" (exc_type e)
          || Str.contains "409" (exc_str e))
  | _ => false
  end.

(** A delete call of the resource that is not answered with such an
    error. *)
Definition deletes_for_good (k : keyed) (id : string) (ev : event) : bool :=
  deletes k id ev
  && match ev with
     | Call _ (inl e) => negb (retried k e)
     | _ => true
     end.

(** How often a run may call it: the loops of lines 812, 867 and 924
    try three times. *)
Definition attempts_allowed (k : keyed) : nat :=
  match k with
  | KLoadBalancer | KNetwork | KSecurityGroup => 3
  | _ => 1
  end.

Definition owner (k : keyed) : category :=
  match k with
  | KInstance | KFlavor | KImage => CatCompute
  | KVolume | KSnapshot => CatStorage
  | KLoadBalancer => CatLoadBalancer
  | KNetwork | KRouter | KSecurityGroup => CatNetwork
  | KZone => CatAdvancedServices
  end.

Definition times (p : event -> bool) (t : list event) : nat :=
  List.length (filter p t).

(** The resource list given to [OpenStackCleaners]: none, or what
    [get_resources_from_cleanup_log] has read from a file. *)
Inductive supplied : option (dict (dict string)) -> Prop :=
| supplied_none : supplied None
| supplied_file (content : list string) (resources : dict (dict string))
                (printed : list string) :
    get_resources_from_cleanup_log content = (inr resources, printed) ->
    supplied (Some resources).

(** No dictionary of the cleaner has a key twice. *)
Definition distinct_ids (c : cleaner) : Prop :=
  match c with
  | AdvancedServices self =>
      NoDup (Dict.keys (get_or_empty (ad_dns_zones self)))
      /\ NoDup (Dict.keys (get_or_empty (ad_heat_stacks self)))
  | Compute self =>
      NoDup (Dict.keys (co_instances self))
      /\ NoDup (Dict.keys (co_flavors self))
      /\ NoDup (Dict.keys (co_keypairs self))
      /\ NoDup (Dict.keys (co_images self))
  | Storage self =>
      NoDup (Dict.keys (st_volumes self))
      /\ NoDup (Dict.keys (st_volume_snapshots self))
  | LoadBalancer self => NoDup (Dict.keys (lb_loadbalancers self))
  | Network self =>
      NoDup (Dict.keys (ne_floating_ips self))
      /\ NoDup (Dict.keys (ne_sec_groups self))
      /\ NoDup (Dict.keys (ne_networks self))
      /\ NoDup (Dict.keys (ne_routers self))
  end.

(** The word under which [clean] reports a resource of type [rtype]. *)
Definition label_of (rtype : string) : string :=
  if rtype =? "instances" then "INSTANCE"
  else if rtype =? "flavors" then "FLAVOR"
  else if rtype =? "keypairs" then "KEYPAIR"
  else if rtype =? "images" then "IMAGE"
  else if rtype =? "volumes" then "VOLUME"
  else if rtype =? "volume_snapshots" then "VOLUME SNAPSHOT"
  else if rtype =? "loadbalancers" then "LOAD BALANCER"
  else if rtype =? "floating_ips" then "FLOATING IP"
  else if rtype =? "sec_groups" then "SECURITY GROUP"
  else if rtype =? "networks" then "NETWORK"
  else if rtype =? "routers" then "ROUTER"
  else if rtype =? "dns_zones" then "DNS ZONE"
  else if rtype =? "heat_stacks" then "HEAT STACK"
  else rtype.

(** The trace [t] of a dry run reports the row [(rtype, resname, resid)]
    of the inventory as one that would be deleted: under its name, or,
    for a floating IP, under the address and description that
    [get_ip(resid)] has just answered. *)
Definition would_delete (rtype resname resid : string) (t : list event) : Prop :=
  if rtype =? "floating_ips"
  then exists fip,
      In (Call (GetIp resid) (inr fip)) t
      /\ In (Report WouldDelete "FLOATING IP"
                    (floating_ip_address fip
                     +++ description_info (text (fip_description fip)))) t
  else In (Report WouldDelete (label_of rtype) resname) t.

(** The calls by which a dry run looks up the resource [resid] of type
    [rtype] before it reports it. *)
Definition looks_up (rtype resid : string) (c : call) : bool :=
  match c with
  | GetServer id => (rtype =? "instances") && (id =? resid)
  | GetVolume id => (rtype =? "volumes") && (id =? resid)
  | GetSnapshot id => (rtype =? "volume_snapshots") && (id =? resid)
  | GetIp id => (rtype =? "floating_ips") && (id =? resid)
  | GetSecurityGroup id => (rtype =? "sec_groups") && (id =? resid)
  | GetNetwork id => (rtype =? "networks") && (id =? resid)
  | GetRouter id => (rtype =? "routers") && (id =? resid)
  | Ports (PortsOfDevice id) => (rtype =? "routers") && (id =? resid)
  | _ => false
  end.

(** A lookup of the resource raised. *)
Definition lookup_raised (rtype resid : string) (ev : event) : bool :=
  raised ev && on_call (looks_up rtype resid) ev.

(** A property of traces that holds of every trace around one of which
    it holds. *)
Definition grows (P : list event -> Prop) : Prop :=
  forall t1 t t2, P t -> P (t1 ++ t ++ t2).

Definition is_sleep (ev : event) : bool :=
  match ev with
  | Sleep _ => true
  | _ => false
  end.

(** The number of attempts of a poll: each starts with a [time.sleep]. *)
Definition polls (t : list event) : nat := List.length (filter is_sleep t).


(** No call that changes the cloud. *)
Definition read_only (ev : event) : bool := negb (on_call mutating ev).

Definition is_delete_security_group (c : call) : bool :=
  match c with
  | DeleteSecurityGroup _ => true
  | _ => false
  end.

(** No security group is deleted. *)
Definition keeps_security_groups (ev : event) : bool :=
  negb (on_call is_delete_security_group ev).

(** Nothing is changed but security groups. *)
Definition changes_security_groups_only (ev : event) : bool :=
  negb (on_call (fun c => mutating c && negb (is_delete_security_group c)) ev).

(** [p] holds of every event but, maybe, of calls that change the cloud. *)
Definition harmless (p : event -> bool) : Prop :=
  forall ev, on_call mutating ev = false -> p ev = true.

(** Every key of [ks] is a key of [d], as often. *)
Definition covers (ks : list string) (d : dict string) : Prop :=
  forall k, count_occ string_dec ks k <= count_occ string_dec (Dict.keys d) k.

(** What [OpenStackCleaners.__init__] builds: one cleaner of each
    class, in the order of line 1087, all with the flag of the run; a
    service that is not available has no resources. *)
Definition built (dryrun : bool) (self : OpenStackCleaners) : Prop :=
  exists a c s l n,
    cleaners self
    = [AdvancedServices a; Compute c; Storage s; LoadBalancer l; Network n]
    /\ ad_dryrun a = dryrun /\ co_dryrun c = dryrun /\ st_dryrun s = dryrun
    /\ lb_dryrun l = dryrun /\ ne_dryrun n = dryrun
    /\ (ad_available_dns a = false -> ad_dns_zones a = None)
    /\ (ad_available_heat a = false -> ad_heat_stacks a = None).

Definition dryrun_of (c : cleaner) : bool :=
  match c with
  | AdvancedServices self => ad_dryrun self
  | Compute self => co_dryrun self
  | Storage self => st_dryrun self
  | LoadBalancer self => lb_dryrun self
  | Network self => ne_dryrun self
  end.

(** The number of [c] in [s]. *)
Fixpoint occurrences (c : ascii) (s : string) : nat :=
  match s with
  | EmptyString => 0
  | String a s' => (if Ascii.eqb a c then 1 else 0) + occurrences c s'
  end.

(** The id under which [get_resources_from_cleanup_log] stores a line
    of type [restype] whose third field is [resid] (lines 1125-1130). *)
Definition stored_id (restype resid : string) : string :=
  if resid =? "" then (if restype =? "keypairs" then "0" else "") else resid.

(** [resources[restype][resid]], if both keys are there. *)
Definition lookup (restype resid : string) (resources : dict (dict string))
  : option string :=
  match Dict.get restype resources with
  | Some d => Dict.get resid d
  | None => None
  end.

(** What one line does to the dictionary, when it has three fields. *)
Definition load_line (restype resname resid : string)
           (resources : dict (dict string)) : dict (dict string) :=
  let resources' :=
    if negb (Dict.mem restype resources)
    then Dict.set restype [] resources
    else resources in
  Dict.set restype
    (Dict.set (stored_id restype resid) resname
       (match Dict.get restype resources' with Some d => d | None => [] end))
    resources'.

(** The lines of [content] leave the entry of [restype] and [resid]
    alone. *)
Definition untouched (restype resid : string) (content : list string) : Prop :=
  forall line t n i extra,
    In line content ->
    Str.split "|" (Str.strip line) = t :: n :: i :: extra ->
    t = restype -> stored_id t i <> resid.

(** The key of [self.resources] under which the ids of [k] are kept. *)
Definition rtype_of (k : keyed) : string :=
  match k with
  | KInstance => "instances"
  | KFlavor => "flavors"
  | KImage => "images"
  | KVolume => "volumes"
  | KSnapshot => "volume_snapshots"
  | KLoadBalancer => "loadbalancers"
  | KNetwork => "networks"
  | KRouter => "routers"
  | KSecurityGroup => "sec_groups"
  | KZone => "dns_zones"
  end.

(** The place of a call in a run: the resource types in the order in
    which [OpenStackCleaners.clean] goes through them.  Floating IPs
    and ports are deleted at several places of a run and have no place
    of their own. *)
Definition phase (ev : event) : option nat :=
  match ev with
  | Call c _ =>
      match c with
      | DeleteStack _ => Some 0
      | DeleteZone _ => Some 1
      | DeleteServer _ => Some 2
      | DeleteFlavor _ => Some 3
      | DeleteKeypair _ => Some 4
      | DeleteImage _ => Some 5
      | DeleteVolume _ _ => Some 6
      | DeleteSnapshot _ => Some 7
      | DeleteLoadBalancer _ _ => Some 8
      | UpdateRouterNoGateway _ | RemoveInterfaceFromRouter _ _ | DeleteRouter _ =>
          Some 9
      | DeleteNetwork _ => Some 10
      | DeleteSecurityGroup _ => Some 11
      | _ => None
      end
  | _ => None
  end.

(** The places of the events of [t] that have one, in the order of [t]. *)
Fixpoint ranks (rank : event -> option nat) (t : list event) : list nat :=
  match t with
  | [] => []
  | ev :: t' =>
      match rank ev with
      | Some s => s :: ranks rank t'
      | None => ranks rank t'
      end
  end.

(** The filter retains nothing of what the cloud lists. *)
Definition nothing_matches (World : Type) (be : backend World)
           (resource_name_re : string -> bool) : Prop :=
  (forall (what : listing) (w : World) (l : list resource),
      fst (answer be (List_ what) w) = inr l ->
      Forall (fun res => retained resource_name_re res = false) l)
  /\ (forall (w : World) (fips : list floating_ip),
         fst (answer be Ips w) = inr fips ->
         Forall (fun fip => retained resource_name_re (resource_of_floating_ip fip)
                            = false) fips).

(** [t] has a line of [report_deletion], [report_not_found] or
    [report_error] about the resource, and not the line of a dry run. *)
Definition reported (rtype name : string) (t : list event) : Prop :=
  exists o, o <> WouldDelete /\ In (Report o rtype name) t.

(** The trace [t] of a run that is no dry run accounts for the row
    [(rtype, resname, resid)] of the inventory: it reports the
    resource; or, for an instance, [delete_server] has accepted it;
    the report of a floating IP may be under the address that
    [get_ip] has answered, with or without its description. *)
Definition accounted (rtype resname resid : string) (t : list event) : Prop :=
  if rtype =? "instances"
  then reported "INSTANCE" resname t \/ In (Call (DeleteServer resid) (inr tt)) t
  else if rtype =? "floating_ips"
       then reported "FLOATING IP" resname t
            \/ exists fip,
                In (Call (GetIp resid) (inr fip)) t
                /\ (reported "FLOATING IP" (floating_ip_address fip) t
                    \/ reported "FLOATING IP"
                         (floating_ip_address fip
                          +++ description_info (text (fip_description fip))) t)
       else reported (label_of rtype) resname t.

(** Every [delete_load_balancer] of [t] comes right after a
    [get_load_balancer] for the same id, answered with a provisioning
    status that is not pending. *)
Definition checked_before_delete (t : list event) : Prop :=
  forall t1 id cascade r t2,
    t = t1 ++ Call (DeleteLoadBalancer id cascade) r :: t2 ->
    exists t0 lb,
      t1 = t0 ++ [Call (GetLoadBalancer id) (inr lb)]
      /\ in_list (provisioning_status lb) pending_states = false.

(** The listing [q], answered with [ports], shows the port [pid] as
    one that the run may delete: for the sweep of lines 697-725, a port
    that the filter matches by name or id and that is no system port;
    for the ports of a network (lines 820-836), a port with none of
    the four owners of line 826. *)
Definition deletable_port (resource_name_re : string -> bool) (q : port_query)
           (ports : list port) (pid : string) : Prop :=
  exists port,
    In port ports /\ port_id port = pid
    /\ in_list (device_owner port) system_port_owners = false
    /\ match q with
       | AllPorts =>
           resource_name_re (py_str (port_name port))
           || resource_name_re (port_id port) = true
       | PortsOfNetwork _ =>
           in_list (device_owner port) network_port_owners = false
       | PortsOfDevice _ => False
       end.

(** Every [delete_port] of [t] is for a port that a listing of [t] has
    shown before as one that may be deleted. *)
Definition ports_deleted_as_listed (resource_name_re : string -> bool)
           (t : list event) : Prop :=
  forall t1 pid r t2,
    t = t1 ++ Call (DeletePort pid) r :: t2 ->
    exists q ports,
      In (Call (Ports q) (inr ports)) t1
      /\ deletable_port resource_name_re q ports pid.

(** Every line [INSTANCE ... is successfully deleted] of [t] comes
    right after a [get_server] that raised what the script takes for
    "not found", and its name is that of the instance looked up: the
    name and the id make a row of instances in [rows]. *)
Definition deletion_confirmed (rows : list (string * string * string))
           (t : list event) : Prop :=
  forall t1 name t2,
    t = t1 ++ Report Deleted "INSTANCE" name :: t2 ->
    exists t0 id e,
      t1 = t0 ++ [Call (GetServer id) (inl e)]
      /\ is_not_found_error e = true
      /\ In ("instances", name, id) rows.

(** The seconds that the script spends in [time.sleep]. *)
Fixpoint slept (t : list event) : nat :=
  match t with
  | [] => 0
  | Sleep seconds :: t' => seconds + slept t'
  | _ :: t' => slept t'
  end.

(** The seconds a cleaner may spend in [time.sleep]: 29 waits of 2 for
    the instances; two waits of 10 and a verification of 10 times 2
    for a load balancer; 5 for a router; two waits of 5 for a network
    and for a security group, and 5 before the security groups. *)
Definition sleep_budget (c : cleaner) : nat :=
  match c with
  | AdvancedServices _ => 0
  | Compute _ => 58
  | Storage _ => 0
  | LoadBalancer self => 40 * List.length (lb_loadbalancers self)
  | Network self =>
      5 * List.length (ne_routers self)
      + 10 * List.length (ne_networks self)
      + (5 + 10 * List.length (ne_sec_groups self))
  end.

(** Every character of [s] has [p]. *)
Fixpoint all_chars (p : ascii -> bool) (s : string) : bool :=
  match s with
  | EmptyString => true
  | String c s' => p c && all_chars p s'
  end.

(** A visible ASCII character: neither white space nor a control
    character. *)
Definition printable (c : ascii) : bool :=
  let n := nat_of_ascii c in ((33 <=? n) && (n <=? 126))%nat.

(** One of the two quotes that [_load_openrc_file] strips. *)
Definition is_quote (c : ascii) : bool := existsb (Ascii.eqb c) Text.quotes.

(** The characters of a variable's name in an [export] line. *)
Definition name_char (c : ascii) : bool := printable c && negb (Ascii.eqb c "=").

(** The characters of a value that [_load_openrc_file] leaves as it is. *)
Definition value_char (c : ascii) : bool := printable c && negb (is_quote c).

(** The types of resource that [verify_resource_deleted] can look up,
    in capitals, each with its [get] call. *)
Definition lookups : dict (string -> call) :=
  [("INSTANCE", GetServer); ("SERVER", GetServer); ("FLAVOR", GetFlavor);
   ("VOLUME", GetVolume); ("SNAPSHOT", GetSnapshot); ("NETWORK", GetNetwork);
   ("ROUTER", GetRouter); ("PORT", fun id => GetPort (PyStr id));
   ("SECURITY_GROUP", GetSecurityGroup); ("LOAD BALANCER", GetLoadBalancer);
   ("IMAGE", GetImage)].

(** [get(kind, id)]: the lookup of the resource [resource_id] of the
    type [resource_type], written in any case; [None] for another
    type. *)
Definition lookup_of (resource_type resource_id : string) : option call :=
  match Dict.get (Str.upper resource_type) lookups with
  | Some get => Some (get resource_id)
  | None => None
  end.

(** The trace of polls of [c], [delay] seconds before each, that were
    answered with [answers]. *)
Definition polled (delay : nat) (c : call) (answers : list (exn + resp c))
  : list event :=
  flat_map (fun r => [Sleep delay; Call c r]) answers.

(** The delete call of the floating IP [id]. *)
Definition deletes_ip (id : string) (ev : event) : bool :=
  match ev with
  | Call (DeleteIp i) _ => i =? id
  | _ => false
  end.

(** The delete call of a keypair, which takes its name. *)
Definition deletes_keypair (name : string) (ev : event) : bool :=
  match ev with
  | Call (DeleteKeypair n) _ => n =? name
  | _ => false
  end.

(** The number of keypairs of [rows] that have the name [name]. *)
Definition keypairs_named (name : string) (rows : list (string * string * string))
  : nat :=
  List.length
    (filter (fun '(rtype, resname, _) => (rtype =? "keypairs") && (resname =? name))
            rows).

(** The lookup of the Heat stack [id]. *)
Definition fetches_stack (id : string) (ev : event) : bool :=
  match ev with
  | Call (GetStack i) _ => i =? id
  | _ => false
  end.

(** Every [delete_stack] of [t] is made on the stack that a
    [get_stack] has just returned. *)
Definition stacks_deleted_as_fetched (t : list event) : Prop :=
  forall t1 s r t2,
    t = t1 ++ Call (DeleteStack s) r :: t2 ->
    exists t0 id, t1 = t0 ++ [Call (GetStack id) (inr s)].







(** * Properties *)

(** ** Strings and dictionaries *)



Lemma keys_set (V : Type) (k k' : string) (v : V) (d : dict V) :
  In k (Dict.keys (Dict.set k' v d)) <-> k = k' \/ In k (Dict.keys d).
Proof.
  unfold Dict.keys.
  induction d as [|[k0 v0] d IH]; simpl.
  - intuition congruence.
  - destruct (String.eqb_spec k0 k'); simpl.
    + subst. intuition congruence.
    + rewrite IH. intuition.
Qed.

Lemma values_set (V : Type) (P : V -> Prop) (k : string) (v : V) (d : dict V) :
  P v -> Forall (fun kv => P (snd kv)) d ->
  Forall (fun kv => P (snd kv)) (Dict.set k v d).
Proof.
  intros Hv. induction 1 as [|[k0 v0] d H0 Hd IH]; simpl.
  - repeat constructor. exact Hv.
  - destruct (k0 =? k); constructor; auto.
Qed.

Lemma nodup_set (V : Type) (k : string) (v : V) (d : dict V) :
  NoDup (Dict.keys d) -> NoDup (Dict.keys (Dict.set k v d)).
Proof.
  unfold Dict.keys.
  induction d as [|[k0 v0] d IH]; simpl; intros H.
  - repeat constructor. intros [].
  - inversion H as [|? ? Hn Hd]; subst.
    destruct (String.eqb_spec k0 k); simpl.
    + constructor; assumption.
    + constructor; [|auto].
      intros Hin. apply (keys_set k0 k v d) in Hin.
      destruct Hin; [congruence | contradiction].
Qed.

(** ** [build_resource_dict] *)

Section DiscoveryFacts.
Variable resource_name_re : string -> bool.

Local Abbreviation kept := (retained resource_name_re).
Local Abbreviation build_from := (build_resource_dict_from resource_name_re).
Local Abbreviation build := (build_resource_dict resource_name_re).

Lemma retained_spec (res : resource) :
  kept res = true <->
  truthy (fst (name_and_description res)) = true
  /\ (resource_name_re (text (fst (name_and_description res))) = true
      \/ (truthy (snd (name_and_description res)) = true
          /\ resource_name_re (text (snd (name_and_description res))) = true)).
Proof.
  unfold retained.
  destruct (name_and_description res) as [resname resdesc]; simpl.
  rewrite andb_true_iff, orb_true_iff, andb_true_iff. reflexivity.
Qed.

Lemma build_from_app (l1 l2 : list resource) (acc : dict string) :
  build_from (l1 ++ l2) acc = build_from l2 (build_from l1 acc).
Proof.
  revert acc; induction l1 as [|res l1 IH]; intros acc; simpl; [reflexivity|].
  destruct (kept res); apply IH.
Qed.

Lemma build_from_keys (l : list resource) (acc : dict string) (k : string) :
  In k (Dict.keys (build_from l acc)) <->
  In k (Dict.keys acc)
  \/ exists res, In res l /\ f_id (fields_of res) = k /\ kept res = true.
Proof.
  revert acc; induction l as [|res l IH]; intros acc; simpl.
  - split; [auto | intros [H | (res & [] & _)]; exact H].
  - destruct (kept res) eqn:Hr; rewrite IH.
    + rewrite keys_set. split.
      * intros [[-> | H] | (r & Hin & Hid & Hret)]; eauto 6.
      * intros [H | (r & [<- | Hin] & Hid & Hret)]; eauto 6.
    + split.
      * intros [H | (r & Hin & Hid & Hret)]; eauto 6.
      * intros [H | (r & [<- | Hin] & Hid & Hret)]; eauto 6; congruence.
Qed.

Lemma build_from_values (l : list resource) (acc : dict string) :
  Forall (fun kv => snd kv <> "") acc ->
  Forall (fun kv => snd kv <> "") (build_from l acc).
Proof.
  revert acc; induction l as [|res l IH]; intros acc Hacc; simpl; [exact Hacc|].
  destruct (kept res) eqn:Hr; [|auto].
  apply IH, (values_set (fun v => v <> "")); [|exact Hacc].
  apply retained_spec in Hr. destruct Hr as [Ht _].
  destruct (fst (name_and_description res)) as [|s]; simpl in *; [discriminate|].
  intros ->. discriminate.
Qed.

Lemma build_nodup (l : list resource) (acc : dict string) :
  NoDup (Dict.keys acc) -> NoDup (Dict.keys (build_from l acc)).
Proof.
  revert acc; induction l as [|res l IH]; intros acc Hacc; simpl; [exact Hacc|].
  destruct (kept res); auto using nodup_set.
Qed.

End DiscoveryFacts.

(** C5 (amended).  A discovered resource is kept iff its display name
    is not empty and the pattern matches the display name or the
    description, if there is one that is not empty; an id is in the
    inventory iff a resource with this id is kept.  [test-abc] with no
    description is kept under [^test-.*$], and so is [prod-abc] with
    the description [test-env]. *)
Theorem retained_iff_name_or_description_matches :
  (forall (resource_name_re : string -> bool) (res_list : list resource) (id : string),
      In id (Dict.keys (build_resource_dict resource_name_re res_list))
      <-> exists res,
          In res res_list /\ f_id (fields_of res) = id
          /\ truthy (fst (name_and_description res)) = true
          /\ (resource_name_re (text (fst (name_and_description res))) = true
              \/ (truthy (snd (name_and_description res)) = true
                  /\ resource_name_re (text (snd (name_and_description res))) = true)))
  /\ build_resource_dict (Re.search Re.test_prefix) [named "1" "test-abc"]
     = [("1", "test-abc")]
  /\ build_resource_dict (Re.search Re.test_prefix) [described "2" "prod-abc" "test-env"]
     = [("2", "prod-abc")].
Proof.
  split; [|split; reflexivity].
  intros re l id. unfold build_resource_dict.
  rewrite build_from_keys. simpl. split.
  - intros [[] | (res & Hin & Hid & Hret)].
    exists res. apply retained_spec in Hret. tauto.
  - intros (res & Hin & Hid & Hret). right. exists res.
    rewrite retained_spec. tauto.
Qed.

(** C5, as stated, fails: the pattern [^test-.*$] matches the
    description of a resource whose name is empty, and the resource is
    not kept. *)
Lemma description_match_of_unnamed_not_retained :
  Re.search Re.test_prefix "test-env" = true
  /\ build_resource_dict (Re.search Re.test_prefix) [described "3" "" "test-env"] = [].
Proof. split; reflexivity. Qed.

(** C10.  A resource whose display name is empty ([""], or [None]) is
    left out of the inventory, whatever its description; every entry of
    the inventory has a display name that is not empty. *)
Theorem empty_display_name_excluded (resource_name_re : string -> bool) :
  (forall (before after : list resource) (res : resource),
      truthy (fst (name_and_description res)) = false ->
      build_resource_dict resource_name_re (before ++ res :: after)
      = build_resource_dict resource_name_re (before ++ after))
  /\ (forall (res_list : list resource) (id name : string),
         In (id, name) (build_resource_dict resource_name_re res_list) ->
         name <> "").
Proof.
  split.
  - intros before after res Hname. unfold build_resource_dict.
    rewrite !build_from_app. simpl.
    replace (retained resource_name_re res) with false; [reflexivity|].
    unfold retained. destruct (name_and_description res); simpl in *.
    rewrite Hname. reflexivity.
  - intros l id name Hin.
    pose proof (build_from_values resource_name_re l (Forall_nil _)) as H.
    rewrite Forall_forall in H. apply (H (id, name)). exact Hin.
Qed.

Lemma empty_display_name_excluded_witness :
  fst (name_and_description (described "3" "" "test-env")) = PyStr ""
  /\ Re.search Re.test_prefix "test-env" = true
  /\ build_resource_dict (Re.search Re.test_prefix)
       ([named "1" "test-abc"] ++ described "3" "" "test-env" :: [named "4" "test-x"])
     = build_resource_dict (Re.search Re.test_prefix)
         ([named "1" "test-abc"] ++ [named "4" "test-x"])
  /\ "test-abc" <> "".
Proof.
  split; [reflexivity | split; [reflexivity | split]].
  - apply (proj1 (empty_display_name_excluded (Re.search Re.test_prefix))).
    reflexivity.
  - apply (proj2 (empty_display_name_excluded (Re.search Re.test_prefix))
             [named "1" "test-abc"] "1" "test-abc").
    simpl. left. reflexivity.
Defined.

(** ** [get_resources_from_cleanup_log] *)

(** C4 (amended).  In the format [type|name|id], the line
    [keypairs|kp1|] has an empty id and loads as
    [{keypairs: {"0": "kp1"}}]; the line [volumes|vol1|] is reported
    as an error, and the load goes on to the lines after it. *)
Theorem load_line_without_id :
  get_resources_from_cleanup_log ["keypairs|kp1|" +++ nl]
  = (inr [("keypairs", [("0", "kp1")])], [])
  /\ exists resources,
      get_resources_from_cleanup_log ["volumes|vol1|" +++ nl; "keypairs|kp1|" +++ nl]
      = (inr resources, ["Error: resource type volumes has no ID - ignored!!!"])
      /\ Dict.get "keypairs" resources = Some [("0", "kp1")].
Proof.
  split; [reflexivity|].
  eexists. split; reflexivity.
Qed.

(** C4, as stated, fails: in [keypairs||kp1] the empty field is the
    name and [kp1] is the id, and [volumes||vol1] is loaded without a
    message. *)
Lemma load_line_with_empty_name :
  get_resources_from_cleanup_log ["keypairs||kp1" +++ nl; "volumes||vol1" +++ nl]
  = (inr [("keypairs", [("kp1", "")]); ("volumes", [("vol1", "")])], [])
  /\ fst (get_resources_from_cleanup_log ["keypairs||kp1" +++ nl])
     <> inr [("keypairs", [("0", "kp1")])].
Proof. split; [reflexivity | discriminate]. Qed.

(** ** Runs of the script: traces and exceptions *)

Section Runs.
Variable World : Type.

Local Abbreviation M := (M World).



Lemma try_inr (A : Type) (m : M A) (h : exn -> M A) (w w1 : World)
      (a : A) (t1 : list event) :
  m w = (inr a, w1, t1) -> try_catch m h w = (inr a, w1, t1).
Proof. intros H. unfold try_catch. rewrite H. reflexivity. Qed.

Lemma try_inl (A : Type) (m : M A) (h : exn -> M A) (w w1 : World)
      (e : exn) (t1 : list event) :
  m w = (inl e, w1, t1) ->
  try_catch m h w = (result (h e w1), final (h e w1), t1 ++ trace (h e w1)).
Proof.
  intros H. unfold try_catch. rewrite H.
  destruct (h e w1) as [[r w2] t2]. reflexivity.
Qed.

Lemma run_eta (A : Type) (x : (exn + A) * World * list event) :
  x = (result x, final x, trace x).
Proof. destruct x as [[r w] t]. reflexivity. Qed.

(** The trace of [m ;; f] starts with the trace of [m]. *)
Lemma bind_trace (A B : Type) (m : M A) (f : A -> M B) (w : World) :
  trace (bind m f w)
  = trace (m w)
    ++ match result (m w) with
       | inr a => trace (f a (final (m w)))
       | inl _ => []
       end.
Proof.
  unfold bind, trace, result, final.
  destruct (m w) as [[[e|a] w1] t1]; simpl.
  - rewrite app_nil_r. reflexivity.
  - destruct (f a w1) as [[r w2] t2]. reflexivity.
Qed.

Lemma try_trace (A : Type) (m : M A) (h : exn -> M A) (w : World) :
  trace (try_catch m h w)
  = trace (m w)
    ++ match result (m w) with
       | inl e => trace (h e (final (m w)))
       | inr _ => []
       end.
Proof.
  unfold try_catch, trace, result, final.
  destruct (m w) as [[[e|a] w1] t1]; simpl.
  - destruct (h e w1) as [[r w2] t2]. reflexivity.
  - rewrite app_nil_r. reflexivity.
Qed.

Lemma bind_result (A B : Type) (m : M A) (f : A -> M B) (w : World) :
  result (bind m f w)
  = match result (m w) with
    | inr a => result (f a (final (m w)))
    | inl e => inl e
    end.
Proof.
  unfold bind, trace, result, final.
  destruct (m w) as [[[e|a] w1] t1]; simpl; [reflexivity|].
  destruct (f a w1) as [[r w2] t2]. reflexivity.
Qed.

Lemma bind_final (A B : Type) (m : M A) (f : A -> M B) (w : World) :
  final (bind m f w)
  = match result (m w) with
    | inr a => final (f a (final (m w)))
    | inl e => final (m w)
    end.
Proof.
  unfold bind, trace, result, final.
  destruct (m w) as [[[e|a] w1] t1]; simpl; [reflexivity|].
  destruct (f a w1) as [[r w2] t2]. reflexivity.
Qed.

Lemma try_result (A : Type) (m : M A) (h : exn -> M A) (w : World) :
  result (try_catch m h w)
  = match result (m w) with
    | inl e => result (h e (final (m w)))
    | inr a => inr a
    end.
Proof.
  unfold try_catch, trace, result, final.
  destruct (m w) as [[[e|a] w1] t1]; simpl; [|reflexivity].
  destruct (h e w1) as [[r w2] t2]. reflexivity.
Qed.

Lemma try_final (A : Type) (m : M A) (h : exn -> M A) (w : World) :
  final (try_catch m h w)
  = match result (m w) with
    | inl e => final (h e (final (m w)))
    | inr a => final (m w)
    end.
Proof.
  unfold try_catch, trace, result, final.
  destruct (m w) as [[[e|a] w1] t1]; simpl; [|reflexivity].
  destruct (h e w1) as [[r w2] t2]. reflexivity.
Qed.

(** *** Every event of every run satisfies [p] *)

Definition emits (p : event -> bool) (A : Type) (m : M A) : Prop :=
  forall w, forallb p (trace (m w)) = true.

(** *** No run ends with an exception *)

Definition safe (A : Type) (m : M A) : Prop :=
  forall w, exists a, result (m w) = inr a.

Section Emits.
Variable p : event -> bool.

Lemma emits_ret (A : Type) (a : A) : emits p (ret a).
Proof. intros w. reflexivity. Qed.

Lemma emits_raise (A : Type) (e : exn) : emits p (@raise World A e).
Proof. intros w. reflexivity. Qed.

Lemma emits_emit (ev : event) : p ev = true -> emits p (emit ev).
Proof. intros H w. simpl. rewrite H. reflexivity. Qed.

Lemma emits_bind (A B : Type) (m : M A) (f : A -> M B) :
  emits p m -> (forall a, emits p (f a)) -> emits p (bind m f).
Proof.
  intros Hm Hf w. rewrite bind_trace, forallb_app, Hm.
  destruct (result (m w)); [reflexivity | apply Hf].
Qed.

Lemma emits_try (A : Type) (m : M A) (h : exn -> M A) :
  emits p m -> (forall e, emits p (h e)) -> emits p (try_catch m h).
Proof.
  intros Hm Hh w. rewrite try_trace, forallb_app, Hm.
  destruct (result (m w)); [apply Hh | reflexivity].
Qed.

Lemma emits_for_each (X : Type) (l : list X) (body : X -> M unit) :
  (forall x, emits p (body x)) -> emits p (for_each l body).
Proof.
  intros H. induction l as [|x l IH]; simpl.
  - apply emits_ret.
  - apply emits_bind; auto.
Qed.

Lemma emits_fold_each (X S : Type) (l : list X) (s : S) (body : X -> S -> M S) :
  (forall x s', emits p (body x s')) -> emits p (fold_each l s body).
Proof.
  intros H. revert s. induction l as [|x l IH]; intros s; simpl.
  - apply emits_ret.
  - apply emits_bind; auto.
Qed.

Lemma emits_filter_each (X : Type) (l : list X) (keep : X -> M bool) :
  (forall x, emits p (keep x)) -> emits p (filter_each l keep).
Proof.
  intros H. induction l as [|x l IH]; simpl.
  - apply emits_ret.
  - apply emits_bind; [auto|]. intros b.
    apply emits_bind; [auto|]. intros rest. apply emits_ret.
Qed.

Lemma emits_retry_loop (n : nat) (body : nat -> M loop_ctl) :
  (forall k, emits p (body k)) -> emits p (retry_loop n body).
Proof.
  intros H. induction n as [|n IH]; simpl.
  - apply emits_ret.
  - apply emits_bind; [auto|]. intros [|]; [apply emits_ret | exact IH].
Qed.
End Emits.

Lemma safe_ret (A : Type) (a : A) : safe (ret a).
Proof. intros w. exists a. reflexivity. Qed.

Lemma safe_emit (ev : event) : safe (emit ev).
Proof. intros w. exists tt. reflexivity. Qed.

Lemma safe_bind (A B : Type) (m : M A) (f : A -> M B) :
  safe m -> (forall a, safe (f a)) -> safe (bind m f).
Proof.
  intros Hm Hf w. destruct (Hm w) as [a Ha].
  rewrite bind_result, Ha. apply Hf.
Qed.

(** A [try] whose handler raises nothing raises nothing. *)
Lemma safe_try (A : Type) (m : M A) (h : exn -> M A) :
  (forall e, safe (h e)) -> safe (try_catch m h).
Proof.
  intros Hh w. rewrite try_result.
  destruct (result (m w)) as [e|a]; [apply Hh | eauto].
Qed.

Lemma safe_for_each (X : Type) (l : list X) (body : X -> M unit) :
  (forall x, safe (body x)) -> safe (for_each l body).
Proof.
  intros H. induction l as [|x l IH]; simpl.
  - apply safe_ret.
  - apply safe_bind; auto.
Qed.

Lemma safe_fold_each (X S : Type) (l : list X) (s : S) (body : X -> S -> M S) :
  (forall x s', safe (body x s')) -> safe (fold_each l s body).
Proof.
  intros H. revert s. induction l as [|x l IH]; intros s; simpl.
  - apply safe_ret.
  - apply safe_bind; auto.
Qed.

Lemma safe_filter_each (X : Type) (l : list X) (keep : X -> M bool) :
  (forall x, safe (keep x)) -> safe (filter_each l keep).
Proof.
  intros H. induction l as [|x l IH]; simpl.
  - apply safe_ret.
  - apply safe_bind; [auto|]. intros b.
    apply safe_bind; [auto|]. intros rest. apply safe_ret.
Qed.

Lemma safe_retry_loop (n : nat) (body : nat -> M loop_ctl) :
  (forall k, safe (body k)) -> safe (retry_loop n body).
Proof.
  intros H. induction n as [|n IH]; simpl.
  - apply safe_ret.
  - apply safe_bind; [auto|]. intros [|]; [apply safe_ret | exact IH].
Qed.

(** A run that raises nothing, taken apart. *)
Lemma safe_run (A : Type) (m : M A) (w : World) :
  safe m -> exists a, m w = (inr a, final (m w), trace (m w)).
Proof.
  intros H. destruct (H w) as [a Ha]. exists a.
  rewrite <- Ha. apply run_eta.
Qed.

(** *** What a run returns *)

(** Every run of [m] returns, and what it returns satisfies [Q]. *)
Definition returns (A : Type) (m : M A) (Q : A -> Prop) : Prop :=
  forall w, exists a, result (m w) = inr a /\ Q a.

(** What a run of [m] returns, if it does, satisfies [Q]. *)
Definition ensures (A : Type) (m : M A) (Q : A -> Prop) : Prop :=
  forall w a, result (m w) = inr a -> Q a.

Lemma returns_safe (A : Type) (m : M A) (Q : A -> Prop) : returns m Q -> safe m.
Proof. intros H w. destruct (H w) as (a & Ha & _). eauto. Qed.

Lemma returns_ret (A : Type) (a : A) (Q : A -> Prop) : Q a -> returns (ret a) Q.
Proof. intros H w. exists a. split; [reflexivity | exact H]. Qed.

Lemma returns_bind (A B : Type) (m : M A) (f : A -> M B)
      (Q : A -> Prop) (R : B -> Prop) :
  returns m Q -> (forall a, Q a -> returns (f a) R) -> returns (bind m f) R.
Proof.
  intros Hm Hf w. destruct (Hm w) as (a & Ha & HQ).
  rewrite bind_result, Ha. apply Hf, HQ.
Qed.

Lemma returns_try (A : Type) (m : M A) (h : exn -> M A) (Q : A -> Prop) :
  ensures m Q -> (forall e, returns (h e) Q) -> returns (try_catch m h) Q.
Proof.
  intros Hm Hh w. rewrite try_result.
  destruct (result (m w)) as [e|a] eqn:Hr; [apply Hh | eauto].
Qed.

Lemma ensures_ret (A : Type) (a : A) (Q : A -> Prop) : Q a -> ensures (ret a) Q.
Proof. intros H w a' Ha. inversion Ha. subst. exact H. Qed.

Lemma ensures_bind (A B : Type) (m : M A) (f : A -> M B) (Q : B -> Prop) :
  (forall a, ensures (f a) Q) -> ensures (bind m f) Q.
Proof.
  intros Hf w b. rewrite bind_result.
  destruct (result (m w)) as [e|a]; [discriminate | apply Hf].
Qed.

Section WithBackend.
Variable be : backend World.

Lemma invoke_trace (c : call) (w : World) :
  trace (invoke be c w) = [Call c (fst (answer be c w))].
Proof. unfold invoke. destruct (answer be c w). reflexivity. Qed.

Lemma invoke_result (c : call) (w : World) :
  result (invoke be c w) = fst (answer be c w).
Proof. unfold invoke. destruct (answer be c w). reflexivity. Qed.

Lemma invoke_final (c : call) (w : World) :
  final (invoke be c w) = snd (answer be c w).
Proof. unfold invoke. destruct (answer be c w). reflexivity. Qed.

Lemma emits_invoke (p : event -> bool) (c : call) :
  (forall r, p (Call c r) = true) -> emits p (invoke be c).
Proof. intros H w. rewrite invoke_trace. simpl. rewrite H. reflexivity. Qed.

Lemma emits_sleep (p : event -> bool) (seconds : nat) :
  p (Sleep seconds) = true -> emits p (sleep be seconds).
Proof. intros H w. simpl. rewrite H. reflexivity. Qed.

Lemma safe_sleep (seconds : nat) : safe (sleep be seconds).
Proof. intros w. exists tt. reflexivity. Qed.
End WithBackend.

End Runs.

Arguments emits {World} p {A} m.
Arguments safe {World A} m.
Arguments returns {World A} m Q.
Arguments ensures {World A} m Q.

Create HintDb script.

#[local] Hint Unfold
  invoke_ report_deletion report_not_found report_error
  fetch_resources init_resources
  StorageCleaner_init StorageCleaner_clean
  ComputeCleaner_init ComputeCleaner_clean clean_instances
  _delete_floating_ips check_instances _wait_for_instance_deletion
  _clean_flavors _clean_keypairs _clean_images
  NetworkCleaner_init NetworkCleaner_clean clean_before_security_groups
  _delete_floating_ip clean_discovered_floating_ips sweep_floating_ips sweep_ports
  on_router delete_router_floating_ips unplug_and_delete_router router_failed
  clean_router clean_routers delete_remaining_ports network_attempt clean_networks
  security_group_attempt clean_security_group clean_security_groups
  LoadBalancerCleaner_init check_provisioning load_balancer_attempt
  LoadBalancerCleaner_clean
  available AdvancedServicesCleaner_init clean_heat_stacks clean_dns_zones
  AdvancedServicesCleaner_clean
  get_resource verify_resource_deleted
  OpenStackCleaners_init OpenStackCleaners_clean clean : script.

Ltac event_ok :=
  first [ reflexivity
        | match goal with H : harmless _ |- _ => apply H; reflexivity end
        | try unfold deletes_for_good; cbn;
          match goal with H : (_ =? _) = false |- _ => rewrite H end;
          reflexivity ].

(** Steps for the loops whose facts come later. *)
Ltac script_extra := fail.

(** One step through the text of the script, for [emits] and [safe]. *)
Ltac script_step :=
  match goal with
  | |- emits _ (ret _) => apply emits_ret
  | |- emits _ (raise _) => apply emits_raise
  | |- emits _ (emit _) => apply emits_emit; event_ok
  | |- emits _ (invoke _ _) => apply emits_invoke; intro; event_ok
  | |- emits _ (sleep _ _) => apply emits_sleep; event_ok
  | |- emits _ (bind _ _) => apply emits_bind; [|intro]
  | |- emits _ (try_catch _ _) => apply emits_try; [|intro]
  | |- emits _ (for_each _ _) => apply emits_for_each; intro
  | |- emits _ (fold_each _ _ _) => apply emits_fold_each; intros
  | |- emits _ (filter_each _ _) => apply emits_filter_each; intro
  | |- emits _ (retry_loop _ _) => apply emits_retry_loop; intro
  | |- safe (ret _) => apply safe_ret
  | |- safe (emit _) => apply safe_emit
  | |- safe (sleep _ _) => apply safe_sleep
  | |- safe (bind _ _) => apply safe_bind; [|intro]
  | |- safe (try_catch _ _) => apply safe_try; intro
  | |- safe (for_each _ _) => apply safe_for_each; intro
  | |- safe (fold_each _ _ _) => apply safe_fold_each; intros
  | |- safe (filter_each _ _) => apply safe_filter_each; intro
  | |- safe (retry_loop _ _) => apply safe_retry_loop; intro
  | H : ?b = _ |- context [if ?b then _ else _] => rewrite H
  | |- emits _ (if ?b then _ else _) => destruct b eqn:?
  | |- safe (if ?b then _ else _) => destruct b eqn:?
  | |- emits _ (match ?x with _ => _ end) => destruct x eqn:?
  | |- safe (match ?x with _ => _ end) => destruct x eqn:?
  | x : (_ * _)%type |- _ => destruct x
  | _ => script_extra
  end.

Ltac script := autounfold with script; repeat script_step.

(** ** Facts about dictionaries used by [_wait_for_instance_deletion] *)

Lemma get_some_of_key (V : Type) (k : string) (d : dict V) :
  In k (Dict.keys d) -> exists v, Dict.get k d = Some v.
Proof.
  unfold Dict.keys. induction d as [|[k0 v0] d IH]; simpl; [intros []|].
  intros [-> | H].
  - rewrite String.eqb_refl. eauto.
  - destruct (k0 =? k); eauto.
Qed.

Lemma count_keys_remove (V : Type) (k k' : string) (d : dict V) :
  In k (Dict.keys d) ->
  count_occ string_dec (Dict.keys d) k'
  = count_occ string_dec (Dict.keys (Dict.remove k d)) k'
    + (if string_dec k k' then 1 else 0).
Proof.
  unfold Dict.keys. induction d as [|[k0 v0] d IH]; simpl; [intros []|].
  intros Hin. destruct (String.eqb_spec k0 k) as [->|Hne].
  - destruct (string_dec k k'); lia.
  - destruct Hin as [->|Hin]; [congruence|].
    simpl. specialize (IH Hin).
    destruct (string_dec k0 k'); lia.
Qed.

Lemma covers_keys (d : dict string) : covers (Dict.keys d) d.
Proof. intros k. apply le_n. Qed.

Lemma covers_head (k : string) (ks : list string) (d : dict string) :
  covers (k :: ks) d -> In k (Dict.keys d).
Proof.
  intros H. specialize (H k). simpl in H.
  destruct (string_dec k k); [|congruence].
  apply (count_occ_In string_dec). lia.
Qed.

Lemma covers_tail (k : string) (ks : list string) (d : dict string) :
  covers (k :: ks) d -> covers ks d.
Proof.
  intros H k'. specialize (H k'). simpl in H.
  destruct (string_dec k k'); lia.
Qed.

Lemma covers_remove (k : string) (ks : list string) (d : dict string) :
  covers (k :: ks) d -> covers ks (Dict.remove k d).
Proof.
  intros H k'. pose proof (covers_head H) as Hin.
  specialize (H k'). simpl in H.
  rewrite (@count_keys_remove _ k k' d Hin) in H.
  destruct (string_dec k k'); lia.
Qed.

Section CleanerFacts.
Variable World : Type.
Variable be : backend World.
Variable resource_name_re : string -> bool.

(** *** ResourceMonitor *)

Lemma verify_attempts_safe (resource_type resource_id : string) (n delay : nat) :
  safe (verify_attempts be resource_type resource_id n delay).
Proof. induction n as [|n IH]; simpl; script. exact IH. Qed.

Lemma verify_attempts_emits (p : event -> bool)
      (resource_type resource_id : string) (n delay : nat) :
  harmless p -> emits p (verify_attempts be resource_type resource_id n delay).
Proof. intros Hp. induction n as [|n IH]; simpl; script. exact IH. Qed.

(** *** ComputeCleaner *)

Lemma check_instances_safe (self : ComputeCleaner) (ks : list string)
      (d : dict string) :
  covers ks d -> safe (check_instances be self ks d).
Proof.
  unfold check_instances. revert d.
  induction ks as [|k ks IH]; intros d Hc; simpl; [apply safe_ret|].
  apply returns_safe with (Q := fun _ => True).
  apply returns_bind with (Q := covers ks).
  - apply returns_try.
    + apply ensures_bind. intros _. apply ensures_ret, (covers_tail Hc).
    + intros e. destruct (is_not_found_error e).
      * destruct (get_some_of_key _ _ (covers_head Hc)) as [v ->].
        apply returns_bind with (Q := fun _ => True).
        -- intros w. exists tt. split; [reflexivity | exact I].
        -- intros _ _. apply returns_ret, (covers_remove Hc).
      * apply returns_ret, (covers_tail Hc).
  - intros d' Hd' w. destruct (IH d' Hd' w) as [a Ha]. eauto.
Qed.

Lemma wait_while_safe (self : ComputeCleaner) (n : nat) (d : dict string) :
  safe (wait_while be self n d).
Proof.
  revert d. induction n as [|n IH]; intros d; simpl; [apply safe_ret|].
  destruct (nonempty d); [|apply safe_ret].
  apply safe_bind; [apply check_instances_safe, covers_keys|].
  intros d'. apply safe_bind; [|intros _; apply IH].
  script.
Qed.

Lemma wait_while_emits (p : event -> bool) (self : ComputeCleaner)
      (n : nat) (d : dict string) :
  harmless p -> emits p (wait_while be self n d).
Proof.
  intros Hp. revert d. induction n as [|n IH]; intros d; simpl; script.
  apply IH.
Qed.

Lemma compute_safe (self : ComputeCleaner) : safe (ComputeCleaner_clean be self).
Proof. script; apply wait_while_safe. Qed.

Lemma storage_safe (self : StorageCleaner) : safe (StorageCleaner_clean be self).
Proof. script. Qed.

Lemma load_balancer_safe (self : LoadBalancerCleaner) :
  safe (LoadBalancerCleaner_clean be self).
Proof. script. Qed.

Lemma advanced_safe (self : AdvancedServicesCleaner) :
  safe (AdvancedServicesCleaner_clean be self).
Proof. script. Qed.

Lemma before_security_groups_safe (self : NetworkCleaner) :
  safe (clean_before_security_groups be resource_name_re self).
Proof. script. Qed.

Lemma security_groups_safe (self : NetworkCleaner) (l : list (string * string)) :
  safe (clean_security_groups be self l).
Proof. script. Qed.

Lemma clean_safe (c : cleaner) : safe (clean be resource_name_re c).
Proof.
  destruct c; simpl;
    auto using compute_safe, storage_safe, load_balancer_safe, advanced_safe.
  unfold NetworkCleaner_clean. apply safe_bind.
  - apply before_security_groups_safe.
  - intros _. apply security_groups_safe.
Qed.

(** *** A dry run changes nothing *)

Lemma harmless_read_only : harmless read_only.
Proof. intros ev H. unfold read_only. rewrite H. reflexivity. Qed.

Lemma compute_dry (self : ComputeCleaner) :
  co_dryrun self = true -> emits read_only (ComputeCleaner_clean be self).
Proof.
  intros H. script.
  rewrite H in *. discriminate.
Qed.

Lemma storage_dry (self : StorageCleaner) :
  st_dryrun self = true -> emits read_only (StorageCleaner_clean be self).
Proof. intros H. script. Qed.

Lemma load_balancer_dry (self : LoadBalancerCleaner) :
  lb_dryrun self = true -> emits read_only (LoadBalancerCleaner_clean be self).
Proof. intros H. script. Qed.

Lemma advanced_dry (self : AdvancedServicesCleaner) :
  ad_dryrun self = true -> emits read_only (AdvancedServicesCleaner_clean be self).
Proof. intros H. script. Qed.

Lemma network_dry (self : NetworkCleaner) :
  ne_dryrun self = true ->
  emits read_only (NetworkCleaner_clean be resource_name_re self).
Proof. intros H. script. Qed.

Lemma clean_dry (c : cleaner) :
  dryrun_of c = true -> emits read_only (clean be resource_name_re c).
Proof.
  destruct c; simpl;
    auto using compute_dry, storage_dry, load_balancer_dry, advanced_dry, network_dry.
Qed.

(** *** Where security groups are deleted *)

Lemma harmless_keeps : harmless keeps_security_groups.
Proof.
  intros [c r| |] H; try reflexivity.
  destruct c; try reflexivity; discriminate H.
Qed.

Lemma advanced_keeps (self : AdvancedServicesCleaner) :
  emits keeps_security_groups (AdvancedServicesCleaner_clean be self).
Proof. script. Qed.

Lemma compute_keeps (self : ComputeCleaner) :
  emits keeps_security_groups (ComputeCleaner_clean be self).
Proof. script. apply wait_while_emits, harmless_keeps. Qed.

Lemma storage_keeps (self : StorageCleaner) :
  emits keeps_security_groups (StorageCleaner_clean be self).
Proof. script. Qed.

Lemma load_balancer_keeps (self : LoadBalancerCleaner) :
  emits keeps_security_groups (LoadBalancerCleaner_clean be self).
Proof.
  pose proof harmless_keeps. script.
  apply verify_attempts_emits. assumption.
Qed.

Lemma before_security_groups_keeps (self : NetworkCleaner) :
  emits keeps_security_groups (clean_before_security_groups be resource_name_re self).
Proof. script. Qed.

Lemma security_groups_only (self : NetworkCleaner) (l : list (string * string)) :
  emits changes_security_groups_only (clean_security_groups be self l).
Proof. script. Qed.

(** *** [OpenStackCleaners.__init__] *)

Lemma safe_returns (A : Type) (m : M World A) : safe m -> returns m (fun _ => True).
Proof. intros H w. destruct (H w) as [a Ha]. eauto. Qed.

Lemma init_resources_safe (resources : option (dict (dict string)))
      (rtype : string) (fetcher : M World (list resource)) :
  safe (init_resources resource_name_re resources rtype fetcher).
Proof. script. Qed.

Lemma init_built (resources : option (dict (dict string))) (dryrun : bool) :
  returns (OpenStackCleaners_init be resource_name_re resources dryrun)
          (built dryrun).
Proof.
  unfold OpenStackCleaners_init.
  apply returns_bind with (Q := fun a =>
    ad_dryrun a = dryrun
    /\ (ad_available_dns a = false -> ad_dns_zones a = None)
    /\ (ad_available_heat a = false -> ad_heat_stacks a = None)).
  { unfold AdvancedServicesCleaner_init.
    apply returns_bind with (Q := fun _ => True); [apply safe_returns; script|].
    intros dns _.
    apply returns_bind with (Q := fun _ => True); [apply safe_returns; script|].
    intros heat _.
    apply returns_bind with (Q := fun z => dns = false -> z = None).
    { destruct dns.
      - apply returns_bind with (Q := fun _ => True);
          [apply safe_returns, init_resources_safe|].
        intros d _. apply returns_ret. discriminate.
      - apply returns_ret. reflexivity. }
    intros zones Hz.
    apply returns_bind with (Q := fun z => heat = false -> z = None).
    { destruct heat.
      - apply returns_bind with (Q := fun _ => True);
          [apply safe_returns, init_resources_safe|].
        intros d _. apply returns_ret. discriminate.
      - apply returns_ret. reflexivity. }
    intros stacks Hs. apply returns_ret. simpl. auto. }
  intros a (Ha & Hdns & Hheat).
  apply returns_bind with (Q := fun c => co_dryrun c = dryrun).
  { unfold ComputeCleaner_init.
    repeat (apply returns_bind with (Q := fun _ => True);
            [apply safe_returns, init_resources_safe | intros ? _]).
    apply returns_ret. reflexivity. }
  intros c Hc.
  apply returns_bind with (Q := fun c => st_dryrun c = dryrun).
  { unfold StorageCleaner_init.
    repeat (apply returns_bind with (Q := fun _ => True);
            [apply safe_returns, init_resources_safe | intros ? _]).
    apply returns_ret. reflexivity. }
  intros st Hst.
  apply returns_bind with (Q := fun c => lb_dryrun c = dryrun).
  { unfold LoadBalancerCleaner_init.
    repeat (apply returns_bind with (Q := fun _ => True);
            [apply safe_returns, init_resources_safe | intros ? _]).
    apply returns_ret. reflexivity. }
  intros l Hl.
  apply returns_bind with (Q := fun c => ne_dryrun c = dryrun).
  { unfold NetworkCleaner_init.
    repeat (apply returns_bind with (Q := fun _ => True);
            [apply safe_returns, init_resources_safe | intros ? _]).
    apply returns_ret. reflexivity. }
  intros n Hn. apply returns_ret.
  exists a, c, st, (set_monitor l (mk_ResourceMonitor dryrun)), n.
  simpl. auto 10.
Qed.

Lemma init_result_built (resources : option (dict (dict string))) (dryrun : bool)
      (w0 : World) (self : OpenStackCleaners) :
  result (OpenStackCleaners_init be resource_name_re resources dryrun w0) = inr self ->
  built dryrun self.
Proof.
  intros H. destruct (init_built resources dryrun w0) as (self' & Hr & Hb).
  congruence.
Qed.

(** *** The run of the five cleaners, taken apart *)

Lemma run_then (A B : Type) (m : M World A) (f : A -> M World B) (w w1 w2 : World)
      (a : A) (r : exn + B) (t1 t2 : list event) :
  m w = (inr a, w1, t1) -> f a w1 = (r, w2, t2) ->
  bind m f w = (r, w2, t1 ++ t2).
Proof. intros Hm Hf. unfold bind. rewrite Hm, Hf. reflexivity. Qed.

Lemma run_then_eq (A B : Type) (m : M World A) (f : A -> M World B)
      (w w1 w2 : World) (a : A) (r : exn + B) (t t1 t2 : list event) :
  m w = (inr a, w1, t1) -> f a w1 = (r, w2, t2) -> t = t1 ++ t2 ->
  bind m f w = (r, w2, t).
Proof. intros Hm Hf ->. eapply run_then; eassumption. Qed.

Lemma clean_all_run (a : AdvancedServicesCleaner) (c : ComputeCleaner)
      (s : StorageCleaner) (l : LoadBalancerCleaner) (n : NetworkCleaner)
      (w : World) :
  exists t_a w_a t_c w_c t_s w_s t_l w_l t_n w_n t_g w_g,
    AdvancedServicesCleaner_clean be a w = (inr tt, w_a, t_a)
    /\ ComputeCleaner_clean be c w_a = (inr tt, w_c, t_c)
    /\ StorageCleaner_clean be s w_c = (inr tt, w_s, t_s)
    /\ LoadBalancerCleaner_clean be l w_s = (inr tt, w_l, t_l)
    /\ clean_before_security_groups be resource_name_re n w_l = (inr tt, w_n, t_n)
    /\ clean_security_groups be n (ne_sec_groups n) w_n = (inr tt, w_g, t_g)
    /\ for_each [AdvancedServices a; Compute c; Storage s; LoadBalancer l; Network n]
                (clean be resource_name_re) w
       = (inr tt, w_g, t_a ++ t_c ++ t_s ++ t_l ++ t_n ++ t_g).
Proof.
  destruct (safe_run w (advanced_safe a)) as [[] Ha].
  destruct (safe_run (final (AdvancedServicesCleaner_clean be a w)) (compute_safe c))
    as [[] Hc].
  destruct (safe_run (final (ComputeCleaner_clean be c
                               (final (AdvancedServicesCleaner_clean be a w))))
                     (storage_safe s)) as [[] Hs].
  remember (final (AdvancedServicesCleaner_clean be a w)) as w_a.
  remember (final (ComputeCleaner_clean be c w_a)) as w_c.
  remember (final (StorageCleaner_clean be s w_c)) as w_s.
  destruct (safe_run w_s (load_balancer_safe l)) as [[] Hl].
  remember (final (LoadBalancerCleaner_clean be l w_s)) as w_l.
  destruct (safe_run w_l (before_security_groups_safe n)) as [[] Hn].
  remember (final (clean_before_security_groups be resource_name_re n w_l)) as w_n.
  destruct (safe_run w_n (security_groups_safe n (ne_sec_groups n))) as [[] Hg].
  do 12 eexists. repeat (split; [eassumption|]).
  cbn [for_each clean]. unfold NetworkCleaner_clean.
  eapply run_then; [exact Ha|].
  eapply run_then; [exact Hc|].
  eapply run_then; [exact Hs|].
  eapply run_then; [exact Hl|].
  replace (trace (clean_before_security_groups be resource_name_re n w_l)
           ++ trace (clean_security_groups be n (ne_sec_groups n) w_n))
    with ((trace (clean_before_security_groups be resource_name_re n w_l)
           ++ trace (clean_security_groups be n (ne_sec_groups n) w_n)) ++ [])
    by apply app_nil_r.
  eapply run_then; [|reflexivity].
  eapply run_then; [exact Hn | exact Hg].
Qed.

End CleanerFacts.

(** ** The order of the run *)

(** C1.  [OpenStackCleaners] holds the cleaners in the order
    AdvancedServices, Compute, Storage, LoadBalancer, Network, and its
    [clean] runs them in this order, none of them raising: the trace of
    the run is the trace of each cleaner, one after the other.  No
    security group is deleted before the end of what the Network
    cleaner does for the other resources, hence after the whole trace
    of the Compute cleaner; from then on only security groups are
    deleted. *)
Theorem security_groups_deleted_last
        (World : Type) (be : backend World) (resource_name_re : string -> bool)
        (resources : option (dict (dict string))) (dryrun : bool)
        (w0 : World) (self : OpenStackCleaners) :
  result (OpenStackCleaners_init be resource_name_re resources dryrun w0) = inr self ->
  map category_of (cleaners self)
  = [CatAdvancedServices; CatCompute; CatStorage; CatLoadBalancer; CatNetwork]
  /\ forall w : World,
      exists a c s l n t_a w_a t_c w_c t_s w_s t_l w_l t_n w_n t_g w_g,
        cleaners self
        = [AdvancedServices a; Compute c; Storage s; LoadBalancer l; Network n]
        /\ AdvancedServicesCleaner_clean be a w = (inr tt, w_a, t_a)
        /\ ComputeCleaner_clean be c w_a = (inr tt, w_c, t_c)
        /\ StorageCleaner_clean be s w_c = (inr tt, w_s, t_s)
        /\ LoadBalancerCleaner_clean be l w_s = (inr tt, w_l, t_l)
        /\ clean_before_security_groups be resource_name_re n w_l = (inr tt, w_n, t_n)
        /\ clean_security_groups be n (ne_sec_groups n) w_n = (inr tt, w_g, t_g)
        /\ OpenStackCleaners_clean be resource_name_re self w
           = (inr tt, w_g, t_a ++ t_c ++ t_s ++ t_l ++ t_n ++ t_g)
        /\ forallb keeps_security_groups (t_a ++ t_c ++ t_s ++ t_l ++ t_n) = true
        /\ forallb changes_security_groups_only t_g = true.
Proof.
  intros Hinit.
  destruct (init_result_built _ _ _ _ _ Hinit)
    as (a & c & s & l & n & Hcs & _).
  split; [rewrite Hcs; reflexivity|].
  intros w.
  destruct (clean_all_run be resource_name_re a c s l n w)
    as (t_a & w_a & t_c & w_c & t_s & w_s & t_l & w_l & t_n & w_n & t_g & w_g
        & Ha & Hc & Hs & Hl & Hn & Hg & Hall).
  exists a, c, s, l, n, t_a, w_a, t_c, w_c, t_s, w_s, t_l, w_l, t_n, w_n, t_g, w_g.
  repeat (split; [assumption|]).
  split; [unfold OpenStackCleaners_clean; rewrite Hcs; exact Hall|].
  split.
  - rewrite !forallb_app.
    pose proof (advanced_keeps be a w) as Ka. rewrite Ha in Ka.
    pose proof (compute_keeps be c w_a) as Kc. rewrite Hc in Kc.
    pose proof (storage_keeps be s w_c) as Ks. rewrite Hs in Ks.
    pose proof (load_balancer_keeps be l w_s) as Kl. rewrite Hl in Kl.
    pose proof (before_security_groups_keeps be resource_name_re n w_l) as Kn.
    rewrite Hn in Kn. simpl in *.
    rewrite Ka, Kc, Ks, Kl, Kn. reflexivity.
  - pose proof (security_groups_only be n (ne_sec_groups n) w_n) as Kg.
    rewrite Hg in Kg. exact Kg.
Qed.

Lemma security_groups_deleted_last_witness :
  map category_of (cleaners cleaners_of_instance_and_group)
  = [CatAdvancedServices; CatCompute; CatStorage; CatLoadBalancer; CatNetwork]
  /\ trace (OpenStackCleaners_clean small_cloud (Re.search Re.default_filter)
                                    cleaners_of_instance_and_group [])
     = [Call (GetServer "i1") (inr (Some (mk_server [])));
        Call (DeleteServer "i1") (inr tt);
        Call (GetServer "i1") (inl (ResourceNotFound "No Server found for i1"));
        Report Deleted "INSTANCE" "vm";
        Call Ips (inr []);
        Call (Ports AllPorts) (inr []);
        Sleep 5;
        Call (DeleteSecurityGroup "sg1") (inr tt);
        Report Deleted "SECURITY GROUP" "web"].
Proof.
  split; [|reflexivity].
  exact (proj1 (@security_groups_deleted_last
                  (list string) small_cloud (Re.search Re.default_filter)
                  instance_and_group false [] cleaners_of_instance_and_group
                  eq_refl)).
Defined.

(** ** A deletion that answers 404 *)

(** C2 fails on the code.  [ComputeCleaner._delete_floating_ips]
    reports every exception of [delete_ip] as an error, a 404 too; and
    [AdvancedServicesCleaner.clean] looks for "NotFound" in the message
    of the exception, not in its type, so a stack that is gone is
    reported as an error. *)
Lemma not_found_reported_as_failed :
  is_not_found_error (ResourceNotFound "404: Client Error for url: /v2.0/floatingips/f1")
  = true
  /\ trace (clean_instances gone_cloud (mk_ComputeCleaner false [("i1", "vm")] [] [] []) tt)
     = [Call (GetServer "i1")
             (inr (Some (mk_server
                           [("private",
                             [mk_address "10.0.0.5" (Some "fixed");
                              mk_address "203.0.113.7" (Some "floating")])])));
        Call Ips (inr [mk_floating_ip "f1" "203.0.113.7" PyNone PyNone PyNone]);
        Call (DeleteIp "f1")
             (inl (ResourceNotFound "404: Client Error for url: /v2.0/floatingips/f1"));
        Report (Failed "404: Client Error for url: /v2.0/floatingips/f1")
               "FLOATING IP" "203.0.113.7";
        Call (DeleteServer "i1") (inr tt)]
  /\ is_not_found_error (ResourceNotFound "No Stack found for s1") = true
  /\ trace (AdvancedServicesCleaner_clean gone_cloud
             (mk_AdvancedServicesCleaner false false true None (Some [("s1", "app")])) tt)
     = [Call (GetStack "s1") (inl (ResourceNotFound "No Stack found for s1"));
        Report (Failed "No Stack found for s1") "HEAT STACK" "app"].
Proof. repeat split. Qed.

(** ** Security groups in use *)

Section SecurityGroups.
Variable World : Type.
Variable be : backend World.
Variable self : NetworkCleaner.
Variables id name : string.
Hypothesis live : ne_dryrun self = false.

Local Abbreviation delete := (DeleteSecurityGroup id).



End SecurityGroups.




(** ** Verification of a deletion *)

Section Verification.
Variable World : Type.
Variable be : backend World.

Lemma invoke__cases (c : call) (w : World) :
  (exists r w', invoke_ be c w = (inr tt, w', [Call c (inr r)]))
  \/ (exists e w', invoke_ be c w = (inl e, w', [Call c (inl e)])).
Proof.
  unfold invoke_, bind, invoke.
  destruct (answer be c w) as [[e|r] w']; simpl; eauto.
Qed.

(** A probe answers, or raises what the call raised. *)
Lemma get_resource_cases (resource_type resource_id : string) (w : World) :
  (exists w' t,
      get_resource be resource_type resource_id w = (inr tt, w', t)
      /\ existsb raised t = false /\ polls t = 0
      /\ forallb read_only t = true)
  \/ (exists e w' c,
         get_resource be resource_type resource_id w
         = (inl e, w', [Call c (inl e)])
         /\ mutating c = false).
Proof.
  unfold get_resource.
  repeat match goal with
         | |- context [if ?b then _ else _] => destruct b
         end;
    try (left; exists w, []; repeat split; reflexivity);
    match goal with
    | |- context [invoke_ be ?c w] =>
        destruct (invoke__cases c w) as [(r & w' & ->) | (e & w' & ->)];
        [ left; exists w', [Call c (inr r)]; repeat split; reflexivity
        | right; exists e, w', c; split; reflexivity ]
    end.
Qed.

Lemma verify_attempts_spec (resource_type resource_id : string) (delay : nat)
      (n : nat) (w : World) :
  exists b w' t,
    verify_attempts be resource_type resource_id n delay w = (inr b, w', t)
    /\ polls t <= n
    /\ forallb read_only t = true
    /\ (b = true ->
        exists t0 c e, t = t0 ++ [Call c (inl e)] /\ existsb raised t0 = false)
    /\ (b = false -> polls t = n /\ existsb raised t = false).
Proof.
  revert w. induction n as [|n IH]; intros w.
  - exists false, w, []. simpl. repeat split; auto; discriminate.
  - cbn [verify_attempts].
    destruct (get_resource_cases resource_type resource_id (wait be delay w))
      as [(w1 & t1 & Hg & Hq & Hp & Hro) | (e & w1 & c & Hg & Hc)].
    + destruct (IH w1) as (b & w' & t & Hrun & Hle & Hro' & Htrue & Hfalse).
      exists b, w', (Sleep delay :: t1 ++ t).
      split.
      { eapply run_then_eq.
        - eapply try_inr. eapply run_then_eq; [reflexivity | | reflexivity].
          eapply run_then_eq; [exact Hg | reflexivity | reflexivity].
        - exact Hrun.
        - simpl. rewrite app_nil_r. reflexivity. }
      unfold polls in *. simpl. rewrite filter_app, length_app, Hp.
      split; [simpl; lia|].
      split; [rewrite forallb_app, Hro, Hro'; reflexivity|].
      split.
      * intros Hb. destruct (Htrue Hb) as (t0 & c & e & -> & Hq0).
        exists (Sleep delay :: t1 ++ t0), c, e.
        split; [simpl; rewrite app_assoc; reflexivity|].
        simpl. rewrite existsb_app, Hq, Hq0. reflexivity.
      * intros Hb. destruct (Hfalse Hb) as [Hn Hq'].
        split; [simpl; lia|].
        rewrite existsb_app, Hq, Hq'. reflexivity.
    + exists true, w1, [Sleep delay; Call c (inl e)].
      split.
      { eapply run_then_eq.
        - erewrite try_inl.
          2:{ eapply run_then_eq; [reflexivity | | reflexivity].
              unfold bind. rewrite Hg. reflexivity. }
          destruct (exc_is_ResourceNotFound e); reflexivity.
        - reflexivity.
        - reflexivity. }
      unfold polls. simpl.
      split; [lia|].
      split; [unfold read_only; simpl; rewrite Hc; reflexivity|].
      split.
      * intros _. exists [Sleep delay], c, e. split; reflexivity.
      * discriminate.
Qed.

End Verification.

Lemma get_resource_lookup (World : Type) (be : backend World)
      (resource_type resource_id : string) (c : call) :
  lookup_of resource_type resource_id = Some c ->
  get_resource be resource_type resource_id = invoke_ be c /\ mutating c = false.
Proof.
  unfold lookup_of, lookups, get_resource, in_list. cbn [Dict.get existsb].
  cbv zeta. generalize (Str.upper resource_type). intros t.
  rewrite !(String.eqb_sym _ t), orb_false_r.
  repeat match goal with
         | |- context [(t =? ?k)%string] => destruct (t =? k)%string; cbn [orb]
         end;
    intros H; inversion H; subst; split; reflexivity.
Qed.

Lemma verify_attempts_polled (World : Type) (be : backend World)
      (resource_type resource_id : string) (c : call) (delay n : nat) (w : World) :
  get_resource be resource_type resource_id = invoke_ be c ->
  exists b w' answers,
    verify_attempts be resource_type resource_id n delay w
    = (inr b, w', polled delay c answers)
    /\ List.length answers <= n
    /\ (b = true -> exists quiet e, answers = map inr quiet ++ [inl e])
    /\ (b = false -> List.length answers = n /\ exists quiet, answers = map inr quiet).
Proof.
  intros Hget. revert w. induction n as [|n IH]; intros w.
  - exists false, w, []. split; [reflexivity|]. split; [apply le_n|].
    split; [discriminate|]. intros _. split; [reflexivity|]. exists []. reflexivity.
  - cbn [verify_attempts]. rewrite Hget.
    assert (Hpoll : forall r w1,
               answer be c (wait be delay w) = (r, w1) ->
               (sleep be delay ;; invoke_ be c ;; ret (@None bool)) w
               = (match r with inl e => inl e | inr _ => inr None end, w1,
                  [Sleep delay; Call c r])).
    { intros r w1 Hc. unfold bind, sleep, invoke_, bind, invoke, ret. rewrite Hc.
      destruct r; reflexivity. }
    destruct (answer be c (wait be delay w)) as [[e|r] w1] eqn:Hc;
      specialize (Hpoll _ _ eq_refl).
    + exists true, w1, [inl e].
      split.
      { eapply run_then_eq.
        - erewrite try_inl by exact Hpoll.
          destruct (exc_is_ResourceNotFound e); reflexivity.
        - reflexivity.
        - reflexivity. }
      split; [simpl; lia|].
      split; [intros _; exists [], e; reflexivity | discriminate].
    + destruct (IH w1) as (b & w' & answers & Hrun & Hle & Htrue & Hfalse).
      exists b, w', (inr r :: answers).
      split.
      { eapply run_then_eq.
        - eapply try_inr. exact Hpoll.
        - exact Hrun.
        - reflexivity. }
      split; [simpl; lia|].
      split.
      * intros Hb. destruct (Htrue Hb) as (quiet & e & ->).
        exists (r :: quiet), e. reflexivity.
      * intros Hb. destruct (Hfalse Hb) as (Hn & quiet & ->).
        split; [simpl; lia|]. exists (r :: quiet). reflexivity.
Qed.

(** C8 (amended).  [verify_resource_deleted] raises nothing.  In a dry
    run it answers [True] at once, with no lookup.  Otherwise, for a
    type of resource that it can look up, its run is a sequence of at
    most [max_attempts] polls, each a [time.sleep(delay)] and then the
    lookup of this resource: it answers [True] when a poll raises,
    [ResourceNotFound] or any other exception, and this poll is the
    last; it answers [False] when [max_attempts] polls have found the
    resource.  The lookup changes nothing in the cloud. *)
Theorem verify_resource_deleted_polls
        (World : Type) (be : backend World) (self : ResourceMonitor)
        (resource_type resource_id : string) (c : call)
        (max_attempts delay : nat) (w : World) :
  lookup_of resource_type resource_id = Some c ->
  mutating c = false
  /\ exists (b : bool) (w' : World) (answers : list (exn + resp c)),
      verify_resource_deleted be self resource_type resource_id max_attempts delay w
      = (inr b, w', polled delay c answers)
      /\ (mon_dryrun self = true -> b = true /\ w' = w /\ answers = [])
      /\ (mon_dryrun self = false ->
          List.length answers <= max_attempts
          /\ (b = true -> exists quiet e, answers = map inr quiet ++ [inl e])
          /\ (b = false ->
              List.length answers = max_attempts
              /\ exists quiet, answers = map inr quiet)).
Proof.
  intros Hc. destruct (get_resource_lookup be _ _ Hc) as [Hget Hread].
  split; [exact Hread|].
  unfold verify_resource_deleted. destruct (mon_dryrun self).
  - exists true, w, []. repeat split; auto; discriminate.
  - destruct (@verify_attempts_polled World be resource_type resource_id c delay
                                      max_attempts w Hget)
      as (b & w' & answers & Hrun & H).
    exists b, w', answers. split; [exact Hrun|].
    split; [discriminate | intros _; exact H].
Qed.

Lemma verify_resource_deleted_polls_witness :
  verify_resource_deleted (draining_cloud 1) (mk_ResourceMonitor false)
                          "Load Balancer" "lb1" 10 2 0
  = (inr true, 1,
     [Sleep 2;
      Call (GetLoadBalancer "lb1") (inr (mk_load_balancer "PENDING_DELETE"));
      Sleep 2;
      Call (GetLoadBalancer "lb1")
           (inl (ResourceNotFound "No LoadBalancer found for lb1"))])
  /\ exists (b : bool) (w' : nat) (answers : list (exn + load_balancer)),
      verify_resource_deleted (draining_cloud 1) (mk_ResourceMonitor false)
                              "Load Balancer" "lb1" 10 2 0
      = (inr b, w', polled 2 (GetLoadBalancer "lb1") answers)
      /\ List.length answers <= 10.
Proof.
  split; [reflexivity|].
  destruct (proj2 (@verify_resource_deleted_polls
                     nat (draining_cloud 1) (mk_ResourceMonitor false)
                     "Load Balancer" "lb1" (GetLoadBalancer "lb1") 10 2 0 eq_refl))
    as (b & w' & answers & Hrun & _ & Hlive).
  exists b, w', answers. split; [exact Hrun | exact (proj1 (Hlive eq_refl))].
Defined.

(** C8, as stated, fails.  In a dry run the verification answers
    [True] with no poll, though the load balancer is still shown; and
    for a type that it cannot look up, such as a keypair, it polls
    nothing: it sleeps [max_attempts] times and answers [False]. *)
Lemma verification_without_lookup :
  fst (answer (draining_cloud 1) (GetLoadBalancer "lb1") 0)
  = inr (mk_load_balancer "PENDING_DELETE")
  /\ verify_resource_deleted (draining_cloud 1) (mk_ResourceMonitor true)
                             "LOAD BALANCER" "lb1" 10 2 0
     = (inr true, 0, [])
  /\ lookup_of "KEYPAIR" "kp1" = None
  /\ verify_resource_deleted (draining_cloud 1) (mk_ResourceMonitor false)
                             "KEYPAIR" "kp1" 3 2 0
     = (inr false, 0, [Sleep 2; Sleep 2; Sleep 2]).
Proof. repeat split. Qed.

(** ** What a run reports when no call raises *)

Section Reports.
Variable World : Type.
Variable be : backend World.
Variable P : list event -> Prop.
Hypothesis P_grows : grows P.

(** The events that excuse the run from [P]. *)
Variable q : event -> bool.

Definition reports (A : Type) (m : M World A) : Prop :=
  forall w, existsb q (trace (m w)) = false -> P (trace (m w)).

Lemma grows_l (t t2 : list event) : P t -> P (t ++ t2).
Proof. intros H. exact (@P_grows [] t t2 H). Qed.

Lemma grows_r (t1 t : list event) : P t -> P (t1 ++ t).
Proof.
  intros H. pose proof (@P_grows t1 t [] H) as H'.
  rewrite app_nil_r in H'. exact H'.
Qed.

Lemma reports_emit (ev : event) : P [ev] -> reports (emit ev).
Proof. intros H w _. exact H. Qed.

Lemma reports_bind_l (A B : Type) (m : M World A) (f : A -> M World B) :
  reports m -> reports (bind m f).
Proof.
  intros Hm w. rewrite bind_trace, existsb_app. intros Hq.
  apply orb_false_iff in Hq. apply grows_l, Hm, Hq.
Qed.

Lemma reports_bind_r (A B : Type) (m : M World A) (f : A -> M World B) :
  safe m -> (forall a, reports (f a)) -> reports (bind m f).
Proof.
  intros Hs Hf w. rewrite bind_trace, existsb_app. intros Hq.
  apply orb_false_iff in Hq. destruct (Hs w) as [a Ha]. rewrite Ha in *.
  apply grows_r, Hf, Hq.
Qed.

Lemma reports_try (A : Type) (m : M World A) (h : exn -> M World A) :
  reports m -> reports (try_catch m h).
Proof.
  intros Hm w. rewrite try_trace, existsb_app. intros Hq.
  apply orb_false_iff in Hq. apply grows_l, Hm, Hq.
Qed.

Lemma reports_invoke_then (B : Type) (c : call) (f : resp c -> M World B) :
  (forall e, q (Call c (inl e)) = true) ->
  (forall r, reports (f r)) -> reports (bind (invoke be c) f).
Proof.
  intros Hc Hf w. rewrite bind_trace, existsb_app, invoke_trace, invoke_result.
  destruct (fst (answer be c w)) as [e|r]; simpl.
  - rewrite Hc. discriminate.
  - intros Hq. apply orb_false_iff in Hq. apply (grows_r [_]), Hf, Hq.
Qed.

Lemma reports_invoke__then (B : Type) (c : call) (f : unit -> M World B) :
  (forall e, q (Call c (inl e)) = true) ->
  reports (f tt) -> reports (bind (invoke_ be c) f).
Proof.
  intros Hc Hf w. rewrite bind_trace, existsb_app.
  destruct (invoke__cases be c w) as [(r & w' & ->) | (e & w' & ->)]; simpl.
  - intros Hq. apply orb_false_iff in Hq. apply (grows_r [_]), Hf, Hq.
  - rewrite Hc. discriminate.
Qed.

Lemma reports_for_each (X : Type) (x : X) (l : list X) (body : X -> M World unit) :
  In x l -> (forall y, safe (body y)) -> reports (body x) ->
  reports (for_each l body).
Proof.
  intros Hin Hs Hx. induction l as [|y l IH]; [destruct Hin|].
  simpl. destruct Hin as [->|Hin].
  - apply reports_bind_l, Hx.
  - apply reports_bind_r; [apply Hs | intros _; apply IH, Hin].
Qed.

Lemma reports_fold_each (X S : Type) (x : X) (l : list X) (s : S)
      (body : X -> S -> M World S) :
  In x l -> (forall y s', safe (body y s')) -> (forall s', reports (body x s')) ->
  reports (fold_each l s body).
Proof.
  intros Hin Hs Hx. revert s. induction l as [|y l IH]; intros s; [destruct Hin|].
  simpl. destruct Hin as [->|Hin].
  - apply reports_bind_l, Hx.
  - apply reports_bind_r; [apply Hs | intros s'; apply IH, Hin].
Qed.

Lemma reports_retry_loop (n : nat) (body : nat -> M World loop_ctl) :
  reports (body (S n)) -> reports (retry_loop (S n) body).
Proof. intros H. simpl. apply reports_bind_l, H. Qed.

End Reports.

Arguments reports {World} P q {A} m.

(** ** A dry run *)

Lemma grows_in (ev : event) : grows (fun t => In ev t).
Proof. intros t1 t t2 H. apply in_or_app. right. apply in_or_app. left. exact H. Qed.

Lemma grows_would_delete (rtype resname resid : string) :
  grows (would_delete rtype resname resid).
Proof.
  unfold would_delete. destruct (rtype =? "floating_ips").
  - intros t1 t t2 (fip & H1 & H2). exists fip.
    split; apply in_or_app; right; apply in_or_app; left; assumption.
  - apply grows_in.
Qed.

Lemma in_resource_rows (rtype rtype' resname resid : string) (d : dict string) :
  In (rtype, resname, resid) (resource_rows rtype' d) ->
  rtype = rtype' /\ In (resid, resname) d.
Proof.
  unfold resource_rows. rewrite in_map_iff.
  intros ([k v] & Heq & Hin). inversion Heq. subst. auto.
Qed.

Ltac lookup_ok :=
  unfold lookup_raised; cbn; rewrite ?String.eqb_refl; reflexivity.

(** One step into a dry run, towards the report of a resource. *)
Ltac reports_step G :=
  match goal with
  | |- reports _ _ (emit _) => apply reports_emit; simpl; auto
  | |- reports _ _ (report_deletion _ _ _) => unfold report_deletion
  | |- reports _ _ (try_catch _ _) => eapply reports_try; [exact G|]
  | |- reports _ _ (bind (invoke_ _ _) _) =>
      eapply reports_invoke__then; [exact G | intro; lookup_ok |]
  | |- reports _ _ (bind (invoke _ _) _) =>
      eapply reports_invoke_then; [exact G | intro; lookup_ok | intro]
  | |- reports _ _ (retry_loop (S _) _) => eapply reports_retry_loop; [exact G|]
  | H : In _ ?l |- reports _ _ (for_each ?l _) =>
      eapply reports_for_each; [exact G | exact H | intro; script | cbv beta iota]
  | H : In _ ?l |- reports _ _ (fold_each ?l _ _) =>
      eapply reports_fold_each;
      [exact G | exact H | intros; script | intro; cbv beta iota]
  | H : ?b = _ |- context [if ?b then _ else _] => rewrite H
  end.

Ltac reports_left G := eapply reports_bind_l; [exact G|].
Ltac reports_right G := eapply reports_bind_r; [exact G | script | intro].

Section DryRun.
Variable World : Type.
Variable be : backend World.
Variable resource_name_re : string -> bool.

Lemma storage_reports (self : StorageCleaner) (rtype resname resid : string) :
  st_dryrun self = true ->
  In (rtype, resname, resid) (get_resource_list (Storage self)) ->
  reports (would_delete rtype resname resid) (lookup_raised rtype resid)
          (StorageCleaner_clean be self).
Proof.
  intros Hdry Hin. simpl in Hin.
  pose proof (grows_would_delete rtype resname resid) as G.
  unfold StorageCleaner_clean.
  apply in_app_or in Hin.
  destruct Hin as [Hin|Hin]; apply in_resource_rows in Hin; destruct Hin as [-> Hin];
    unfold would_delete in *; simpl in *.
  - reports_left G. repeat reports_step G.
  - reports_right G. repeat reports_step G.
Qed.

Lemma compute_reports (self : ComputeCleaner) (rtype resname resid : string) :
  co_dryrun self = true ->
  In (rtype, resname, resid) (get_resource_list (Compute self)) ->
  reports (would_delete rtype resname resid) (lookup_raised rtype resid)
          (ComputeCleaner_clean be self).
Proof.
  intros Hdry Hin. simpl in Hin.
  pose proof (grows_would_delete rtype resname resid) as G.
  unfold ComputeCleaner_clean.
  repeat (apply in_app_or in Hin; destruct Hin as [Hin|Hin]);
    apply in_resource_rows in Hin; destruct Hin as [-> Hin];
    unfold would_delete in *; simpl in *.
  - reports_left G. unfold clean_instances. repeat reports_step G.
    reports_left G. reports_right G. repeat reports_step G.
  - reports_right G. reports_right G; [apply wait_while_safe|].
    reports_left G. unfold _clean_flavors. repeat reports_step G.
  - reports_right G. reports_right G; [apply wait_while_safe|].
    reports_right G. reports_left G. unfold _clean_keypairs. repeat reports_step G.
  - reports_right G. reports_right G; [apply wait_while_safe|].
    reports_right G. reports_right G. unfold _clean_images. repeat reports_step G.
Qed.

Lemma load_balancer_reports (self : LoadBalancerCleaner) (rtype resname resid : string) :
  lb_dryrun self = true ->
  In (rtype, resname, resid) (get_resource_list (LoadBalancer self)) ->
  reports (would_delete rtype resname resid) (lookup_raised rtype resid)
          (LoadBalancerCleaner_clean be self).
Proof.
  intros Hdry Hin. simpl in Hin.
  pose proof (grows_would_delete rtype resname resid) as G.
  unfold LoadBalancerCleaner_clean.
  apply in_resource_rows in Hin; destruct Hin as [-> Hin];
    unfold would_delete in *; simpl in *.
  repeat reports_step G. reports_left G. unfold load_balancer_attempt.
  repeat reports_step G. reports_left G. repeat reports_step G.
Qed.

Lemma advanced_reports (self : AdvancedServicesCleaner) (rtype resname resid : string) :
  ad_dryrun self = true ->
  (ad_available_dns self = false -> ad_dns_zones self = None) ->
  (ad_available_heat self = false -> ad_heat_stacks self = None) ->
  In (rtype, resname, resid) (get_resource_list (AdvancedServices self)) ->
  reports (would_delete rtype resname resid) (lookup_raised rtype resid)
          (AdvancedServicesCleaner_clean be self).
Proof.
  intros Hdry Hdns Hheat Hin. simpl in Hin.
  pose proof (grows_would_delete rtype resname resid) as G.
  unfold AdvancedServicesCleaner_clean.
  apply in_app_or in Hin. destruct Hin as [Hin|Hin].
  - destruct (ad_dns_zones self) as [d|] eqn:Hd; [|destruct Hin].
    destruct (ad_available_dns self); [|discriminate (Hdns eq_refl)].
    apply in_resource_rows in Hin; destruct Hin as [-> Hin];
      unfold would_delete in *; simpl in *.
    reports_right G. unfold clean_dns_zones. rewrite Hd. simpl.
    repeat reports_step G.
  - destruct (ad_heat_stacks self) as [d|] eqn:Hd; [|destruct Hin].
    destruct (ad_available_heat self); [|discriminate (Hheat eq_refl)].
    apply in_resource_rows in Hin; destruct Hin as [-> Hin];
      unfold would_delete in *; simpl in *.
    rewrite orb_true_r. simpl.
    reports_left G. unfold clean_heat_stacks. rewrite Hd. simpl.
    repeat reports_step G.
Qed.

Lemma network_reports (self : NetworkCleaner) (rtype resname resid : string) :
  ne_dryrun self = true ->
  In (rtype, resname, resid) (get_resource_list (Network self)) ->
  reports (would_delete rtype resname resid) (lookup_raised rtype resid)
          (NetworkCleaner_clean be resource_name_re self).
Proof.
  intros Hdry Hin. simpl in Hin.
  pose proof (grows_would_delete rtype resname resid) as G.
  unfold NetworkCleaner_clean.
  repeat (apply in_app_or in Hin; destruct Hin as [Hin|Hin]);
    apply in_resource_rows in Hin; destruct Hin as [-> Hin].
  - (* floating IPs *)
    reports_left G. unfold clean_before_security_groups. reports_left G.
    unfold clean_discovered_floating_ips. do 2 reports_step G.
    intros w. unfold _delete_floating_ip. rewrite Hdry.
    unfold would_delete. simpl.
    unfold try_catch, bind, invoke, report_deletion, emit.
    destruct (answer be (GetIp resid) w) as [[e|fip] w1]; simpl.
    + unfold lookup_raised. simpl. rewrite String.eqb_refl.
      intros H; discriminate H.
    + intros _. exists fip. auto.
  - (* security groups *)
    unfold would_delete in *; simpl in *.
    reports_right G. unfold clean_security_groups.
    destruct (ne_sec_groups self) as [|kv l] eqn:Hl; [destruct Hin|].
    simpl nonempty. cbv iota. rewrite <- Hl in *.
    reports_right G. repeat reports_step G.
    unfold clean_security_group. repeat reports_step G.
    try reports_left G. unfold security_group_attempt.
    repeat reports_step G. reports_left G. repeat reports_step G.
  - (* networks *)
    unfold would_delete in *; simpl in *.
    reports_left G. unfold clean_before_security_groups.
    do 4 reports_right G. unfold clean_networks. repeat reports_step G.
    try reports_left G. unfold network_attempt.
    repeat reports_step G. reports_left G. repeat reports_step G.
  - (* routers *)
    unfold would_delete in *; simpl in *.
    reports_left G. unfold clean_before_security_groups.
    do 3 reports_right G. reports_left G. unfold clean_routers.
    reports_left G. repeat reports_step G.
    unfold clean_router. rewrite Hdry. reports_left G.
    repeat reports_step G. reports_right G. repeat reports_step G.
    reports_right G. repeat reports_step G.
Qed.

Lemma clean_reports (c : cleaner) (rtype resname resid : string) :
  dryrun_of c = true ->
  (forall a, c = AdvancedServices a ->
             (ad_available_dns a = false -> ad_dns_zones a = None)
             /\ (ad_available_heat a = false -> ad_heat_stacks a = None)) ->
  In (rtype, resname, resid) (get_resource_list c) ->
  reports (would_delete rtype resname resid) (lookup_raised rtype resid)
          (clean be resource_name_re c).
Proof.
  intros Hdry Hwf Hin. destruct c as [a|c|s|l|n]; simpl in Hdry |- *.
  - destruct (Hwf a eq_refl). apply advanced_reports; assumption.
  - apply compute_reports; assumption.
  - apply storage_reports; assumption.
  - apply load_balancer_reports; assumption.
  - apply network_reports; assumption.
Qed.

End DryRun.

(** C3 (amended).  In a dry run no cleaner calls an operation that
    changes the cloud, and every resource of the inventory is reported
    as one that would be deleted unless a call by which [clean] looks
    this resource up has raised. *)
Theorem dry_run_reads_and_reports
        (World : Type) (be : backend World) (resource_name_re : string -> bool)
        (resources : option (dict (dict string)))
        (w0 : World) (self : OpenStackCleaners) :
  result (OpenStackCleaners_init be resource_name_re resources true w0) = inr self ->
  forall w : World,
    forallb read_only (trace (OpenStackCleaners_clean be resource_name_re self w)) = true
    /\ forall rtype resname resid : string,
        In (rtype, resname, resid) (flat_map get_resource_list (cleaners self)) ->
        existsb (lookup_raised rtype resid)
                (trace (OpenStackCleaners_clean be resource_name_re self w)) = false ->
        would_delete rtype resname resid
          (trace (OpenStackCleaners_clean be resource_name_re self w)).
Proof.
  intros Hinit w.
  destruct (init_result_built _ _ _ _ _ Hinit)
    as (a & c & s & l & n & Hcs & Ha & Hc & Hs & Hl & Hn & Hdns & Hheat).
  unfold OpenStackCleaners_clean. rewrite Hcs. split.
  - revert w. change (emits read_only
      (for_each [AdvancedServices a; Compute c; Storage s; LoadBalancer l; Network n]
                (clean be resource_name_re))).
    cbn [for_each].
    repeat (apply emits_bind; [apply clean_dry; assumption | intros _]).
    apply emits_ret.
  - intros rtype resname resid Hin.
    apply in_flat_map in Hin. destruct Hin as (x & Hx & Hrow).
    generalize w.
    change (reports (would_delete rtype resname resid) (lookup_raised rtype resid)
      (for_each [AdvancedServices a; Compute c; Storage s; LoadBalancer l; Network n]
                (clean be resource_name_re))).
    eapply reports_for_each;
      [apply grows_would_delete | exact Hx | apply clean_safe |].
    apply clean_reports; [| |exact Hrow].
    + simpl in Hx.
      destruct Hx as [<-|[<-|[<-|[<-|[<-|[]]]]]]; assumption.
    + intros a' ->. simpl in Hx.
      destruct Hx as [Hx|[Hx|[Hx|[Hx|[Hx|[]]]]]]; inversion Hx; subst; auto.
Qed.

Lemma dry_run_reads_and_reports_witness :
  In (Report WouldDelete "VOLUME" "data")
     (trace (OpenStackCleaners_clean empty_cloud (Re.search Re.default_filter)
                                     dry_cleaners_of_one_volume tt)).
Proof.
  refine (proj2 (@dry_run_reads_and_reports
                   unit empty_cloud (Re.search Re.default_filter) one_volume tt
                   dry_cleaners_of_one_volume eq_refl tt)
                "volumes" "data" "v1" _ eq_refl).
  simpl. auto.
Defined.

(** C3, as stated, fails: in a dry run a volume of the inventory that
    [get_volume] does not find is reported as not found, not as one
    that would be deleted. *)
Lemma dry_run_reports_vanished_volume_not_found :
  result (OpenStackCleaners_init vanished_cloud (Re.search Re.default_filter)
                                 one_volume true tt)
  = inr dry_cleaners_of_one_volume
  /\ In ("volumes", "data", "v1")
        (flat_map get_resource_list (cleaners dry_cleaners_of_one_volume))
  /\ trace (OpenStackCleaners_clean vanished_cloud (Re.search Re.default_filter)
                                    dry_cleaners_of_one_volume tt)
     = [Call (GetVolume "v1") (inl (ResourceNotFound "No Volume found for v1"));
        Report AlreadyGone "VOLUME" "data";
        Call Ips (inr []);
        Call (Ports AllPorts) (inr [])]
  /\ ~ would_delete "volumes" "data" "v1"
        (trace (OpenStackCleaners_clean vanished_cloud (Re.search Re.default_filter)
                                        dry_cleaners_of_one_volume tt)).
Proof.
  split; [reflexivity|]. split; [simpl; auto|]. split; [reflexivity|].
  unfold would_delete. simpl.
  intros [H|[H|[H|[H|[]]]]]; discriminate H.
Qed.

(** ** How often a resource is deleted *)

Section Bounded.
Variable World : Type.
Variable be : backend World.
Variable p : event -> bool.

(** No run has more than [n] events of [p]. *)
Definition bounded (n : nat) (A : Type) (m : M World A) : Prop :=
  forall w, times p (trace (m w)) <= n.

Lemma times_app (t1 t2 : list event) : times p (t1 ++ t2) = times p t1 + times p t2.
Proof. unfold times. rewrite filter_app, length_app. reflexivity. Qed.

Lemma times_none (t : list event) :
  forallb (fun ev => negb (p ev)) t = true -> times p t = 0.
Proof.
  unfold times. induction t as [|ev t IH]; simpl; [reflexivity|].
  intros H. apply andb_true_iff in H. destruct H as [Hev Ht].
  apply negb_true_iff in Hev. rewrite Hev. auto.
Qed.

Lemma bounded_none (n : nat) (A : Type) (m : M World A) :
  emits (fun ev => negb (p ev)) m -> bounded n m.
Proof. intros H w. rewrite (times_none _ (H w)). lia. Qed.

Lemma bounded_bind (n1 n2 n : nat) (A B : Type) (m : M World A) (f : A -> M World B) :
  bounded n1 m -> (forall a, bounded n2 (f a)) -> n1 + n2 <= n ->
  bounded n (bind m f).
Proof.
  intros Hm Hf Hn w. rewrite bind_trace, times_app.
  specialize (Hm w). destruct (result (m w)) as [e|a].
  - simpl. unfold times at 2. simpl. lia.
  - specialize (Hf a (final (m w))). lia.
Qed.

Lemma bounded_try (n1 n2 n : nat) (A : Type) (m : M World A) (h : exn -> M World A) :
  bounded n1 m -> (forall e, bounded n2 (h e)) -> n1 + n2 <= n ->
  bounded n (try_catch m h).
Proof.
  intros Hm Hh Hn w. rewrite try_trace, times_app.
  specialize (Hm w). destruct (result (m w)) as [e|a].
  - specialize (Hh e (final (m w))). lia.
  - unfold times at 2. simpl. lia.
Qed.

Lemma bounded_invoke (c : call) : bounded 1 (invoke be c).
Proof.
  intros w. rewrite invoke_trace. unfold times. simpl.
  destruct (p _); simpl; lia.
Qed.

Lemma bounded_retry_loop (n : nat) (body : nat -> M World loop_ctl) :
  (forall k, bounded 1 (body k)) -> bounded n (retry_loop n body).
Proof.
  intros H. induction n as [|n IH]; simpl.
  - intros w. unfold times. simpl. lia.
  - apply bounded_bind with (n1 := 1) (n2 := n); [apply H | | lia].
    intros [|]; [|exact IH].
    intros w. unfold times. simpl. lia.
Qed.

(** A loop over a dictionary in which only the turn of the key [id]
    has events of [p]. *)
Lemma bounded_for_each_key (n : nat) (id : string) (d : dict string)
      (body : string * string -> M World unit) :
  NoDup (Dict.keys d) ->
  (forall k v, (k =? id) = false -> bounded 0 (body (k, v))) ->
  (forall v, bounded n (body (id, v))) ->
  bounded n (for_each d body).
Proof.
  intros Hnd Hother Hid.
  assert (Hrest : forall d', ~ In id (Dict.keys d') -> bounded 0 (for_each d' body)).
  { induction d' as [|[k v] d' IH]; simpl; intros Hnot.
    - intros w. unfold times. simpl. lia.
    - apply bounded_bind with (n1 := 0) (n2 := 0); [| |lia].
      + apply Hother. apply String.eqb_neq. intros ->. apply Hnot. left. reflexivity.
      + intros _. apply IH. intros Hin. apply Hnot. right. exact Hin. }
  induction d as [|[k v] d IH]; simpl.
  - intros w. unfold times. simpl. lia.
  - unfold Dict.keys in Hnd. simpl in Hnd. inversion Hnd as [|? ? Hnot Hnd']; subst.
    destruct (String.eqb_spec k id) as [->|Hne].
    + apply bounded_bind with (n1 := n) (n2 := 0); [apply Hid | | lia].
      intros _. apply Hrest. exact Hnot.
    + apply bounded_bind with (n1 := 0) (n2 := n); [| |lia].
      * apply Hother. apply String.eqb_neq. exact Hne.
      * intros _. apply IH. exact Hnd'.
Qed.

Lemma bounded_fold_each_key (n : nat) (id : string) (S : Type) (d : dict string) (s : S)
      (body : string * string -> S -> M World S) :
  NoDup (Dict.keys d) ->
  (forall k v s', (k =? id) = false -> bounded 0 (body (k, v) s')) ->
  (forall v s', bounded n (body (id, v) s')) ->
  bounded n (fold_each d s body).
Proof.
  intros Hnd Hother Hid.
  assert (Hrest : forall d' s', ~ In id (Dict.keys d') ->
                                bounded 0 (fold_each d' s' body)).
  { induction d' as [|[k v] d' IH]; simpl; intros s' Hnot.
    - intros w. unfold times. simpl. lia.
    - apply bounded_bind with (n1 := 0) (n2 := 0); [| |lia].
      + apply Hother. apply String.eqb_neq. intros ->. apply Hnot. left. reflexivity.
      + intros s''. apply IH. intros Hin. apply Hnot. right. exact Hin. }
  revert s. induction d as [|[k v] d IH]; simpl; intros s.
  - intros w. unfold times. simpl. lia.
  - unfold Dict.keys in Hnd. simpl in Hnd. inversion Hnd as [|? ? Hnot Hnd']; subst.
    destruct (String.eqb_spec k id) as [->|Hne].
    + apply bounded_bind with (n1 := n) (n2 := 0); [apply Hid | | lia].
      intros s'. apply Hrest. exact Hnot.
    + apply bounded_bind with (n1 := 0) (n2 := n); [| |lia].
      * apply Hother. apply String.eqb_neq. exact Hne.
      * intros s'. apply IH. exact Hnd'.
Qed.

End Bounded.

Arguments bounded {World} p n {A} m.

Ltac script_extra ::=
  match goal with
  | H : harmless ?p |- emits ?p (wait_while _ _ _ _) =>
      apply wait_while_emits; exact H
  | H : harmless ?p |- emits ?p (verify_attempts _ _ _ _ _) =>
      apply verify_attempts_emits; exact H
  | |- safe (wait_while _ _ _ _) => apply wait_while_safe
  | |- safe (verify_attempts _ _ _ _ _) => apply verify_attempts_safe
  end.

Lemma harmless_deletes (k : keyed) (id : string) :
  harmless (fun ev => negb (deletes k id ev)).
Proof.
  intros [c r| |] H; try reflexivity.
  destruct k, c; try reflexivity; discriminate H.
Qed.

(** No event of [p] at all. *)
Ltac quiet := solve [apply bounded_none; script].

(** One step through the text of the script, for [bounded]. *)
Ltac bounded_step :=
  match goal with
  | |- bounded _ _ _ => quiet
  | |- bounded _ _ (invoke _ _) => apply bounded_invoke
  | |- bounded _ ?n (retry_loop ?n _) => apply bounded_retry_loop; intro
  | |- bounded _ ?n (bind _ _) =>
      first [ apply bounded_bind with (n1 := 0) (n2 := n); [quiet | intro | lia]
            | apply bounded_bind with (n1 := n) (n2 := 0); [ | intro; quiet | lia] ]
  | |- bounded _ ?n (try_catch _ _) =>
      first [ apply bounded_try with (n1 := 0) (n2 := n); [quiet | intro | lia]
            | apply bounded_try with (n1 := n) (n2 := 0); [ | intro; quiet | lia] ]
  | H : NoDup (Dict.keys ?d) |- bounded (_ _ ?id) _ (for_each ?d _) =>
      apply bounded_for_each_key with (id := id);
      [exact H | intros ? ? ?; cbv beta iota; quiet | intro; cbv beta iota]
  | H : NoDup (Dict.keys ?d) |- bounded (_ _ ?id) _ (fold_each ?d _ _) =>
      apply bounded_fold_each_key with (id := id);
      [exact H | intros ? ? ? ?; cbv beta iota; quiet | intros ? ?; cbv beta iota]
  | |- bounded _ _ (if ?b then _ else _) => destruct b eqn:?
  | |- bounded _ _ (match ?x with _ => _ end) => destruct x eqn:?
  end.

Section Deletions.
Variable World : Type.
Variable be : backend World.
Variable resource_name_re : string -> bool.
Variable k : keyed.
Variable id : string.

Lemma storage_bounded (self : StorageCleaner) :
  distinct_ids (Storage self) ->
  bounded (deletes k id)
          (match owner k with CatStorage => attempts_allowed k | _ => 0 end)
          (StorageCleaner_clean be self).
Proof.
  intros [Hv Hs]. pose proof (harmless_deletes k id) as Hh.
  destruct k; simpl; try quiet; unfold StorageCleaner_clean, invoke_;
    repeat bounded_step.
Qed.

Lemma compute_bounded (self : ComputeCleaner) :
  distinct_ids (Compute self) ->
  bounded (deletes k id)
          (match owner k with CatCompute => attempts_allowed k | _ => 0 end)
          (ComputeCleaner_clean be self).
Proof.
  intros (Hi & Hf & Hk & Hm). pose proof (harmless_deletes k id) as Hh.
  destruct k; simpl; try quiet;
    unfold ComputeCleaner_clean, clean_instances, _clean_flavors, _clean_images,
      invoke_;
    repeat bounded_step.
Qed.

Lemma load_balancer_bounded (self : LoadBalancerCleaner) :
  distinct_ids (LoadBalancer self) ->
  bounded (deletes k id)
          (match owner k with CatLoadBalancer => attempts_allowed k | _ => 0 end)
          (LoadBalancerCleaner_clean be self).
Proof.
  intros Hl. simpl in Hl. pose proof (harmless_deletes k id) as Hh.
  destruct k; simpl; try quiet;
    unfold LoadBalancerCleaner_clean, DEFAULT_RETRY_COUNT, load_balancer_attempt,
      invoke_;
    repeat bounded_step.
Qed.

Lemma advanced_bounded (self : AdvancedServicesCleaner) :
  distinct_ids (AdvancedServices self) ->
  bounded (deletes k id)
          (match owner k with CatAdvancedServices => attempts_allowed k | _ => 0 end)
          (AdvancedServicesCleaner_clean be self).
Proof.
  intros [Hz Hs]. pose proof (harmless_deletes k id) as Hh.
  destruct k; simpl; try quiet;
    unfold AdvancedServicesCleaner_clean, clean_dns_zones, invoke_;
    repeat bounded_step.
Qed.

Lemma network_bounded (self : NetworkCleaner) :
  distinct_ids (Network self) ->
  bounded (deletes k id)
          (match owner k with CatNetwork => attempts_allowed k | _ => 0 end)
          (NetworkCleaner_clean be resource_name_re self).
Proof.
  intros (Hf & Hg & Hn & Hr). pose proof (harmless_deletes k id) as Hh.
  destruct k; simpl; try quiet;
    unfold NetworkCleaner_clean, clean_before_security_groups, clean_routers,
      clean_networks, clean_security_groups, clean_security_group,
      clean_router, network_attempt, security_group_attempt,
      unplug_and_delete_router, invoke_;
    repeat bounded_step.
Qed.

Lemma clean_bounded (c : cleaner) :
  distinct_ids c ->
  bounded (deletes k id)
          (if match category_of c, owner k with
              | CatAdvancedServices, CatAdvancedServices
              | CatCompute, CatCompute
              | CatStorage, CatStorage
              | CatLoadBalancer, CatLoadBalancer
              | CatNetwork, CatNetwork => true
              | _, _ => false
              end
           then attempts_allowed k else 0)
          (clean be resource_name_re c).
Proof.
  intros Hd. destruct c as [a|c|s|l|n]; simpl.
  - pose proof (@advanced_bounded a Hd) as H. destruct (owner k); exact H.
  - pose proof (@compute_bounded c Hd) as H. destruct (owner k); exact H.
  - pose proof (@storage_bounded s Hd) as H. destruct (owner k); exact H.
  - pose proof (@load_balancer_bounded l Hd) as H. destruct (owner k); exact H.
  - pose proof (@network_bounded n Hd) as H. destruct (owner k); exact H.
Qed.

End Deletions.

(** *** The last delete call of a retry loop *)

Lemma times_le (p q : event -> bool) (t : list event) :
  (forall ev, p ev = true -> q ev = true) -> times p t <= times q t.
Proof.
  intros H. unfold times. induction t as [|ev t IH]; simpl; [lia|].
  destruct (p ev) eqn:Hp; [rewrite (H ev Hp); simpl; lia|].
  destruct (q ev); simpl; lia.
Qed.

Lemma deletes_for_good_deletes (k : keyed) (id : string) (ev : event) :
  deletes_for_good k id ev = true -> deletes k id ev = true.
Proof. unfold deletes_for_good. intros H. apply andb_true_iff in H. apply H. Qed.

Lemma harmless_deletes_for_good (k : keyed) (id : string) :
  harmless (fun ev => negb (deletes_for_good k id ev)).
Proof.
  intros ev H. pose proof (harmless_deletes k id ev H) as H1. simpl in H1.
  apply negb_true_iff in H1. unfold deletes_for_good. rewrite H1. reflexivity.
Qed.

Section Settles.
Variable World : Type.
Variable be : backend World.
Variable k : keyed.
Variable id : string.

(** In a run of [m] no delete call of the resource is answered for
    good; or one is, and the run then returns something of [Q] or
    raises the error of that call. *)
Definition settles (A : Type) (Q : A -> Prop) (m : M World A) : Prop :=
  forall w,
    times (deletes_for_good k id) (trace (m w)) = 0
    \/ (times (deletes_for_good k id) (trace (m w)) <= 1
        /\ match result (m w) with
           | inl e => retried k e = false
           | inr a => Q a
           end).

Lemma settles_quiet (A : Type) (Q : A -> Prop) (m : M World A) :
  bounded (deletes_for_good k id) 0 m -> settles Q m.
Proof. intros H w. left. specialize (H w). lia. Qed.

Lemma settles_invoke (c : call) : settles (fun _ => True) (invoke be c).
Proof.
  intros w. rewrite invoke_trace, invoke_result.
  destruct (fst (answer be c w)) as [e|a]; unfold times; simpl.
  - destruct (deletes_for_good k id (Call c (inl e))) eqn:Hp; [|left; reflexivity].
    right. split; [simpl; lia|].
    unfold deletes_for_good in Hp. apply andb_true_iff in Hp. destruct Hp as [_ Hp].
    apply negb_true_iff in Hp. exact Hp.
  - right. split; [destruct (deletes_for_good _ _ _); simpl; lia | exact I].
Qed.

(** Before the delete call. *)
Lemma settles_bind_l (A B : Type) (Q : B -> Prop) (m : M World A) (f : A -> M World B) :
  bounded (deletes_for_good k id) 0 m -> (forall a, settles Q (f a)) ->
  settles Q (bind m f).
Proof.
  intros Hm Hf w. rewrite bind_trace, bind_result, times_app.
  specialize (Hm w). destruct (result (m w)) as [e|a].
  - left. change (times (deletes_for_good k id) []) with 0. lia.
  - destruct (Hf a (final (m w))) as [H|[H HQ]];
      [left; lia | right; split; [lia | exact HQ]].
Qed.

(** After the delete call. *)
Lemma settles_bind_r (A B : Type) (Q : B -> Prop) (m : M World A) (f : A -> M World B) :
  settles (fun _ => True) m ->
  (forall a, bounded (deletes_for_good k id) 0 (f a)) ->
  (forall a, returns (f a) Q) ->
  settles Q (bind m f).
Proof.
  intros Hm Hf HQ w. rewrite bind_trace, bind_result, times_app.
  specialize (Hm w). revert Hm.
  destruct (result (m w)) as [e|a]; intros [H|[H Hr]].
  - left. change (times (deletes_for_good k id) []) with 0. lia.
  - right. change (times (deletes_for_good k id) []) with 0. split; [lia | exact Hr].
  - left. specialize (Hf a (final (m w))). lia.
  - right. specialize (Hf a (final (m w))). split; [lia|].
    destruct (HQ a (final (m w))) as (b & Hb & Qb). rewrite Hb. exact Qb.
Qed.

(** The handler runs on the error of the delete call. *)
Lemma settles_try (A : Type) (Q : A -> Prop) (m : M World A) (h : exn -> M World A) :
  settles Q m ->
  (forall e, bounded (deletes_for_good k id) 0 (h e)) ->
  (forall e, retried k e = false -> returns (h e) Q) ->
  settles Q (try_catch m h).
Proof.
  intros Hm Hh HQ w. rewrite try_trace, try_result, times_app.
  specialize (Hm w). revert Hm.
  destruct (result (m w)) as [e|a]; intros [H|[H Hr]].
  - left. specialize (Hh e (final (m w))). lia.
  - right. specialize (Hh e (final (m w))). split; [lia|].
    destruct (HQ e Hr (final (m w))) as (b & Hb & Qb). rewrite Hb. exact Qb.
  - left. change (times (deletes_for_good k id) []) with 0. lia.
  - right. change (times (deletes_for_good k id) []) with 0. split; [lia | exact Hr].
Qed.

(** A loop whose turn ends with [break] once a delete call is
    answered for good has one such call at most. *)
Lemma bounded_retry_settles (n : nat) (body : nat -> M World loop_ctl) :
  (forall j, settles (fun c => c = Break) (body j)) ->
  bounded (deletes_for_good k id) 1 (retry_loop n body).
Proof.
  intros H. induction n as [|n IH]; simpl.
  - intros w. unfold times. simpl. lia.
  - intros w. rewrite bind_trace, times_app.
    pose proof (H (S n) w) as Hb. revert Hb.
    destruct (result (body (S n) w)) as [e|c]; intros [Hb|[Hb Hr]].
    + change (times (deletes_for_good k id) []) with 0. lia.
    + change (times (deletes_for_good k id) []) with 0. lia.
    + destruct c.
      * change (times (deletes_for_good k id) (trace (ret tt (final (body (S n) w)))))
          with 0. lia.
      * specialize (IH (final (body (S n) w))). lia.
    + subst c.
      change (times (deletes_for_good k id) (trace (ret tt (final (body (S n) w)))))
        with 0. lia.
Qed.

End Settles.

Arguments settles {World} k id {A} Q m.

(** The rest of a turn after the delete call: it ends with [break]. *)
Ltac breaks :=
  repeat (apply returns_bind with (Q := fun _ => True);
          [apply safe_returns; script | intros ? _]);
  apply returns_ret; reflexivity.

(** [conn.x.delete_y(id)] and what follows it in the [try]. *)
Ltac settles_delete :=
  unfold invoke_;
  apply settles_bind_r;
  [ apply settles_bind_r;
    [apply settles_invoke | intro; quiet | intro; apply safe_returns; script]
  | intro; quiet
  | intro; breaks ].

Section Settled.
Variable World : Type.
Variable be : backend World.
Variable resource_name_re : string -> bool.
Variable id : string.

Lemma security_group_attempt_settles (self : NetworkCleaner) (i name : string)
      (retry_count : nat) :
  settles KSecurityGroup id (fun c => c = Break)
          (security_group_attempt be self i name retry_count).
Proof.
  unfold security_group_attempt. apply settles_try.
  - destruct (ne_dryrun self); [apply settles_quiet; quiet | settles_delete].
  - intro e. quiet.
  - intros e He. cbn [retried] in He.
    destruct (is_not_found_error e); [breaks|].
    destruct (security_group_in_use e); [discriminate He | breaks].
Qed.

Lemma network_attempt_settles (self : NetworkCleaner) (i name : string)
      (retry_count : nat) :
  settles KNetwork id (fun c => c = Break)
          (network_attempt be self i name retry_count).
Proof.
  unfold network_attempt. apply settles_try.
  - destruct (ne_dryrun self); [apply settles_quiet; quiet|].
    apply settles_bind_l; [quiet | intros _; settles_delete].
  - intro e. quiet.
  - intros e He. cbn [retried] in He.
    destruct (is_not_found_error e); [breaks|].
    destruct (network_in_use e); [discriminate He | breaks].
Qed.

Lemma load_balancer_attempt_settles (self : LoadBalancerCleaner) (i name : string)
      (retry_count : nat) :
  settles KLoadBalancer id (fun c => c = Break)
          (load_balancer_attempt be self i name retry_count).
Proof.
  pose proof (harmless_deletes_for_good KLoadBalancer id) as Hh.
  unfold load_balancer_attempt. apply settles_try.
  - destruct (lb_dryrun self); [apply settles_quiet; quiet|].
    apply settles_bind_l; [quiet|].
    intros [c|]; [apply settles_quiet; quiet | settles_delete].
  - intro e. quiet.
  - intros e He. cbn [retried] in He.
    destruct (exc_is_ResourceNotFound e); [breaks|].
    destruct (Str.contains "ConflictException" (exc_type e)
              || Str.contains "409" (exc_str e)); [discriminate He | breaks].
Qed.

Lemma load_balancer_settled (self : LoadBalancerCleaner) :
  distinct_ids (LoadBalancer self) ->
  bounded (deletes_for_good KLoadBalancer id) 1 (LoadBalancerCleaner_clean be self).
Proof.
  intros Hl. simpl in Hl. pose proof (harmless_deletes_for_good KLoadBalancer id) as Hh.
  unfold LoadBalancerCleaner_clean, DEFAULT_RETRY_COUNT.
  repeat bounded_step.
  apply bounded_retry_settles. intro. apply load_balancer_attempt_settles.
Qed.

Lemma networks_settled (self : NetworkCleaner) :
  distinct_ids (Network self) ->
  bounded (deletes_for_good KNetwork id) 1 (NetworkCleaner_clean be resource_name_re self).
Proof.
  intros (Hf & Hg & Hn & Hr). pose proof (harmless_deletes_for_good KNetwork id) as Hh.
  unfold NetworkCleaner_clean, clean_before_security_groups, clean_networks.
  repeat bounded_step.
  apply bounded_retry_settles. intro. apply network_attempt_settles.
Qed.

Lemma security_groups_settled (self : NetworkCleaner) :
  distinct_ids (Network self) ->
  bounded (deletes_for_good KSecurityGroup id) 1
          (NetworkCleaner_clean be resource_name_re self).
Proof.
  intros (Hf & Hg & Hn & Hr).
  pose proof (harmless_deletes_for_good KSecurityGroup id) as Hh.
  unfold NetworkCleaner_clean, clean_security_groups, clean_security_group.
  repeat bounded_step.
  apply bounded_retry_settles. intro. apply security_group_attempt_settles.
Qed.

Lemma clean_settled (k : keyed) (c : cleaner) :
  distinct_ids c ->
  bounded (deletes_for_good k id)
          (if match category_of c, owner k with
              | CatAdvancedServices, CatAdvancedServices
              | CatCompute, CatCompute
              | CatStorage, CatStorage
              | CatLoadBalancer, CatLoadBalancer
              | CatNetwork, CatNetwork => true
              | _, _ => false
              end
           then 1 else 0)
          (clean be resource_name_re c).
Proof.
  intros Hd.
  assert (Hmono : forall n, bounded (deletes k id) n (clean be resource_name_re c) ->
                            bounded (deletes_for_good k id) n (clean be resource_name_re c)).
  { intros n H w. specialize (H w).
    pose proof (times_le (deletes_for_good k id) (deletes k id)
                  (trace (clean be resource_name_re c w))
                  (deletes_for_good_deletes k id)).
    lia. }
  pose proof (clean_bounded be resource_name_re k id c Hd) as H.
  destruct k, c; try (apply Hmono; exact H); simpl.
  - apply load_balancer_settled. exact Hd.
  - apply networks_settled. exact Hd.
  - apply security_groups_settled. exact Hd.
Qed.

End Settled.

(** *** The dictionaries of the cleaners have no key twice *)

Definition keyed_once (resources : dict (dict string)) : Prop :=
  Forall (fun kv => NoDup (Dict.keys (snd kv))) resources.

Lemma get_forall (V : Type) (P : V -> Prop) (key : string) (d : dict V) (v : V) :
  Forall (fun kv => P (snd kv)) d -> Dict.get key d = Some v -> P v.
Proof.
  induction 1 as [|[k0 v0] d H0 Hd IH]; simpl; [discriminate|].
  destruct (k0 =? key); [intros H; inversion H; subst; exact H0 | exact IH].
Qed.

Lemma load_step_keyed_once (restype resname resid : string)
      (resources : dict (dict string)) :
  keyed_once resources ->
  let resources' :=
    if negb (Dict.mem restype resources)
    then Dict.set restype [] resources
    else resources in
  keyed_once
    (Dict.set restype
       (Dict.set resid resname
          (match Dict.get restype resources' with Some d => d | None => [] end))
       resources').
Proof.
  intros Hk resources'.
  assert (Hr : keyed_once resources').
  { unfold resources'. destruct (negb (Dict.mem restype resources)); [|exact Hk].
    apply (values_set (fun d => NoDup (Dict.keys d))); [constructor | exact Hk]. }
  apply (values_set (fun d => NoDup (Dict.keys d))); [|exact Hr].
  apply nodup_set.
  destruct (Dict.get restype resources') as [d|] eqn:Hg; [|constructor].
  exact (get_forall (fun d => NoDup (Dict.keys d)) _ Hr Hg).
Qed.

Lemma load_lines_keyed_once (content : list string) :
  forall (resources loaded : dict (dict string)) (printed : list string),
    keyed_once resources ->
    load_lines content resources = (inr loaded, printed) ->
    keyed_once loaded.
Proof.
  induction content as [|line content IH]; intros resources loaded printed Hk; simpl.
  - intros H. inversion H. subst. exact Hk.
  - destruct (Str.split "|" (Str.strip line)) as [|restype [|resname [|resid rest]]];
      try discriminate.
    destruct (resid =? ""); [destruct (negb (restype =? "keypairs"))|];
      match goal with
      | |- context [load_lines content ?r] =>
          destruct (load_lines content r) as [res out] eqn:Hl;
          intros H; inversion H; subst;
          refine (IH _ _ _ _ Hl); apply load_step_keyed_once; exact Hk
      end.
Qed.

Lemma supplied_keyed_once (resources : dict (dict string)) :
  supplied (Some resources) -> keyed_once resources.
Proof.
  intros H. inversion H as [|content rs printed Hload]; subst.
  exact (load_lines_keyed_once content (Forall_nil _) Hload).
Qed.

Section Distinct.
Variable World : Type.
Variable be : backend World.
Variable resource_name_re : string -> bool.
Variable resources : option (dict (dict string)).
Hypothesis given : supplied resources.

Lemma init_resources_distinct (rtype : string) (fetcher : M World (list resource)) :
  returns (init_resources resource_name_re resources rtype fetcher)
          (fun d => NoDup (Dict.keys d)).
Proof.
  assert (Hdiscover :
    returns (res_list <- fetch_resources fetcher ;;
             ret (build_resource_dict resource_name_re res_list))
            (fun d => NoDup (Dict.keys d))).
  { apply returns_bind with (Q := fun _ => True); [apply safe_returns; script|].
    intros res_list _. apply returns_ret. apply build_nodup. constructor. }
  unfold init_resources. destruct resources as [rs|]; [|exact Hdiscover].
  destruct (nonempty rs); [|exact Hdiscover].
  destruct (Dict.get rtype rs) as [d|] eqn:Hg; [|exact Hdiscover].
  apply returns_ret.
  exact (get_forall (fun d => NoDup (Dict.keys d)) _ (supplied_keyed_once given) Hg).
Qed.

Lemma init_distinct (dryrun : bool) :
  returns (OpenStackCleaners_init be resource_name_re resources dryrun)
          (fun self => Forall distinct_ids (cleaners self)).
Proof.
  unfold OpenStackCleaners_init.
  apply returns_bind with (Q := fun a => distinct_ids (AdvancedServices a)).
  { unfold AdvancedServicesCleaner_init.
    apply returns_bind with (Q := fun _ => True); [apply safe_returns; script|].
    intros dns _.
    apply returns_bind with (Q := fun _ => True); [apply safe_returns; script|].
    intros heat _.
    apply returns_bind with (Q := fun z => NoDup (Dict.keys (get_or_empty z))).
    { destruct dns; [|apply returns_ret; constructor].
      eapply returns_bind; [apply init_resources_distinct|].
      intros d Hd. apply returns_ret. exact Hd. }
    intros zones Hz.
    apply returns_bind with (Q := fun z => NoDup (Dict.keys (get_or_empty z))).
    { destruct heat; [|apply returns_ret; constructor].
      eapply returns_bind; [apply init_resources_distinct|].
      intros d Hd. apply returns_ret. exact Hd. }
    intros stacks Hs. apply returns_ret. split; assumption. }
  intros a Ha.
  apply returns_bind with (Q := fun c => distinct_ids (Compute c)).
  { unfold ComputeCleaner_init.
    repeat (eapply returns_bind; [apply init_resources_distinct | intros ? ?]).
    apply returns_ret. simpl. auto. }
  intros c Hc.
  apply returns_bind with (Q := fun c => distinct_ids (Storage c)).
  { unfold StorageCleaner_init.
    repeat (eapply returns_bind; [apply init_resources_distinct | intros ? ?]).
    apply returns_ret. simpl. auto. }
  intros st Hst.
  apply returns_bind with (Q := fun c => distinct_ids (LoadBalancer c)).
  { unfold LoadBalancerCleaner_init.
    repeat (eapply returns_bind; [apply init_resources_distinct | intros ? ?]).
    apply returns_ret. simpl. auto. }
  intros l Hl.
  apply returns_bind with (Q := fun c => distinct_ids (Network c)).
  { unfold NetworkCleaner_init.
    repeat (eapply returns_bind; [apply init_resources_distinct | intros ? ?]).
    apply returns_ret. simpl. auto. }
  intros n Hn. apply returns_ret. cbn [cleaners].
  repeat (apply Forall_cons; [first [assumption | exact Hl]|]).
  apply Forall_nil.
Qed.

End Distinct.

(** *** Keypairs and Heat stacks *)

Definition named_pair (name : string) (kv : string * string) : bool :=
  snd kv =? name.

Lemma keypairs_named_app (name : string) (r1 r2 : list (string * string * string)) :
  keypairs_named name (r1 ++ r2) = keypairs_named name r1 + keypairs_named name r2.
Proof. unfold keypairs_named. rewrite filter_app, length_app. reflexivity. Qed.

Lemma keypairs_named_rows (name : string) (d : dict string) :
  keypairs_named name (resource_rows "keypairs" d)
  = List.length (filter (named_pair name) d).
Proof.
  unfold keypairs_named, resource_rows, named_pair.
  induction d as [|[k v] d IH]; simpl; [reflexivity|].
  destruct (v =? name); simpl; rewrite IH; reflexivity.
Qed.

Lemma harmless_keeps_keypairs (name : string) :
  harmless (fun ev => negb (deletes_keypair name ev)).
Proof.
  intros [c r| |] H; try reflexivity.
  destruct c; try reflexivity; discriminate H.
Qed.

Definition is_delete_stack (ev : event) : bool :=
  match ev with
  | Call (DeleteStack _) _ => true
  | _ => false
  end.

Lemma harmless_keeps_stacks : harmless (fun ev => negb (is_delete_stack ev)).
Proof.
  intros [c r| |] H; try reflexivity.
  destruct c; try reflexivity; discriminate H.
Qed.

Lemma fetched_none (t : list event) :
  forallb (fun ev => negb (is_delete_stack ev)) t = true ->
  stacks_deleted_as_fetched t.
Proof.
  intros H t1 s r t2 ->.
  rewrite forallb_app in H. apply andb_true_iff in H. destruct H as [_ H].
  simpl in H. discriminate H.
Qed.

Lemma fetched_app (ta tb : list event) :
  stacks_deleted_as_fetched ta -> stacks_deleted_as_fetched tb ->
  stacks_deleted_as_fetched (ta ++ tb).
Proof.
  intros Ha Hb t1 s r t2 Heq.
  apply app_eq_app in Heq. destruct Heq as (l & [[-> Hl] | [-> Hl]]).
  - destruct l as [|ev l]; simpl in Hl.
    + destruct (Hb [] s r t2 (eq_sym Hl)) as (t0 & id & H0).
      destruct t0; discriminate H0.
    + inversion Hl. subst. exact (Ha t1 s r l eq_refl).
  - destruct (Hb l s r t2 Hl) as (t0 & id & ->).
    exists (ta ++ t0), id. rewrite app_assoc. reflexivity.
Qed.

Lemma fetched_pair (id : string) (s : stack) (r : exn + unit) (rest : list event) :
  forallb (fun ev => negb (is_delete_stack ev)) rest = true ->
  stacks_deleted_as_fetched
    (Call (GetStack id) (inr s) :: Call (DeleteStack s) r :: rest).
Proof.
  intros Hrest t1 s' r' t2 Heq.
  destruct t1 as [|x [|y t1]]; simpl in Heq.
  - discriminate Heq.
  - inversion Heq. subst. exists [], id. reflexivity.
  - inversion Heq as [[Hx Hy Hr]]. rewrite Hr in Hrest.
    rewrite forallb_app in Hrest. apply andb_true_iff in Hrest.
    destruct Hrest as [_ H]. simpl in H. discriminate H.
Qed.

Section Named.
Variable World : Type.
Variable be : backend World.
Variable resource_name_re : string -> bool.

Lemma bounded_weaken (p : event -> bool) (n n' : nat) (A : Type) (m : M World A) :
  n <= n' -> bounded p n m -> bounded p n' m.
Proof. intros Hn H w. specialize (H w). lia. Qed.

(** A loop in which the turns of the elements that have [q] have at
    most one event of [p] each, and the other turns none. *)
Lemma bounded_for_each_count (p : event -> bool) (X : Type) (q : X -> bool)
      (l : list X) (body : X -> M World unit) :
  (forall x, q x = true -> bounded p 1 (body x)) ->
  (forall x, q x = false -> bounded p 0 (body x)) ->
  bounded p (List.length (filter q l)) (for_each l body).
Proof.
  intros Hone Hnone. induction l as [|x l IH]; simpl.
  - intros w. unfold times. simpl. lia.
  - destruct (q x) eqn:Hq; simpl.
    + apply bounded_bind with (n1 := 1) (n2 := List.length (filter q l));
        [apply Hone; exact Hq | intros _; exact IH | lia].
    + apply bounded_bind with (n1 := 0) (n2 := List.length (filter q l));
        [apply Hnone; exact Hq | intros _; exact IH | lia].
Qed.

Lemma clean_keypairs_bounded (name : string) (self : ComputeCleaner) :
  bounded (deletes_keypair name)
          (List.length (filter (named_pair name) (co_keypairs self)))
          (_clean_keypairs be self).
Proof.
  unfold _clean_keypairs. apply bounded_for_each_count.
  - intros [keypair_id keypair_name] _.
    apply bounded_try with (n1 := 1) (n2 := 0); [| intros e; quiet | lia].
    destruct (co_dryrun self); [quiet|].
    apply bounded_bind with (n1 := 1) (n2 := 0); [| intros; quiet | lia].
    unfold invoke_.
    apply bounded_bind with (n1 := 1) (n2 := 0);
      [apply bounded_invoke | intros; quiet | lia].
  - intros [keypair_id keypair_name] Hq. unfold named_pair in Hq. simpl in Hq.
    quiet.
Qed.

Lemma clean_deletes_keypairs (name : string) (c : cleaner) :
  bounded (deletes_keypair name) (keypairs_named name (get_resource_list c))
          (clean be resource_name_re c).
Proof.
  pose proof (harmless_keeps_keypairs name) as Hh.
  destruct c as [a|c|s|l|n]; simpl; try quiet.
  rewrite !keypairs_named_app, keypairs_named_rows.
  unfold ComputeCleaner_clean.
  set (N := List.length (filter (named_pair name) (co_keypairs c))).
  apply bounded_weaken with (n := N); [lia|].
  apply bounded_bind with (n1 := 0) (n2 := N); [quiet | intros d | lia].
  apply bounded_bind with (n1 := 0) (n2 := N); [quiet | intros _ | lia].
  apply bounded_bind with (n1 := 0) (n2 := N); [quiet | intros _ | lia].
  apply bounded_bind with (n1 := N) (n2 := 0);
    [apply clean_keypairs_bounded | intros _; quiet | lia].
Qed.

Lemma clean_all_deletes_keypairs (name : string) (l : list cleaner) :
  bounded (deletes_keypair name) (keypairs_named name (flat_map get_resource_list l))
          (for_each l (clean be resource_name_re)).
Proof.
  induction l as [|c l IH]; simpl.
  - intros w. unfold times. simpl. lia.
  - rewrite keypairs_named_app.
    eapply bounded_bind; [apply clean_deletes_keypairs | intros _; exact IH | lia].
Qed.

(** The loops that wait look up servers and load balancers, and no
    stack. *)
Lemma wait_while_fetches_none (id : string) (self : ComputeCleaner) (n : nat)
      (d : dict string) :
  emits (fun ev => negb (fetches_stack id ev)) (wait_while be self n d).
Proof. revert d. induction n as [|n IH]; intros d; simpl; script. apply IH. Qed.

Lemma verify_attempts_fetches_none (id resource_type resource_id : string)
      (n delay : nat) :
  emits (fun ev => negb (fetches_stack id ev))
        (verify_attempts be resource_type resource_id n delay).
Proof. induction n as [|n IH]; simpl; script. exact IH. Qed.

Lemma heat_stacks_fetched_once (id : string) (self : AdvancedServicesCleaner) :
  NoDup (Dict.keys (get_or_empty (ad_heat_stacks self))) ->
  bounded (fetches_stack id) 1 (clean_heat_stacks be self).
Proof.
  intros Hs. unfold clean_heat_stacks.
  apply bounded_try with (n1 := 1) (n2 := 0); [| intros e; quiet | lia].
  apply bounded_for_each_key with (id := id); [exact Hs | |].
  - intros k v Hk. cbv beta iota. quiet.
  - intros v. cbv beta iota.
    apply bounded_try with (n1 := 1) (n2 := 0); [| intros e; quiet | lia].
    destruct (ad_dryrun self); [quiet|].
    apply bounded_bind with (n1 := 1) (n2 := 0);
      [apply bounded_invoke | intros; quiet | lia].
Qed.

Lemma clean_fetches_stack_once (id : string) (c : cleaner) :
  distinct_ids c ->
  bounded (fetches_stack id)
          (match c with AdvancedServices _ => 1 | _ => 0 end)
          (clean be resource_name_re c).
Proof.
  intros Hd. destruct c as [a|c|s|l|n]; simpl.
  - destruct Hd as [_ Hs]. unfold AdvancedServicesCleaner_clean.
    destruct (negb (ad_available_dns a || ad_available_heat a || false)); [quiet|].
    apply bounded_bind with (n1 := 1) (n2 := 0); [| intros; quiet | lia].
    destruct (ad_available_heat a); [|quiet].
    apply heat_stacks_fetched_once. exact Hs.
  - apply bounded_none. script. apply wait_while_fetches_none.
  - quiet.
  - apply bounded_none. script. apply verify_attempts_fetches_none.
  - quiet.
Qed.

(** Every run of [m] deletes only stacks that it has just fetched. *)
Definition fetches (A : Type) (m : M World A) : Prop :=
  forall w, stacks_deleted_as_fetched (trace (m w)).

Lemma fetches_none (A : Type) (m : M World A) :
  emits (fun ev => negb (is_delete_stack ev)) m -> fetches m.
Proof. intros H w. apply fetched_none, H. Qed.

Lemma fetches_bind (A B : Type) (m : M World A) (f : A -> M World B) :
  fetches m -> (forall a, fetches (f a)) -> fetches (bind m f).
Proof.
  intros Hm Hf w. rewrite bind_trace. apply fetched_app; [apply Hm|].
  destruct (result (m w)); [apply fetched_none; reflexivity | apply Hf].
Qed.

Lemma fetches_try (A : Type) (m : M World A) (h : exn -> M World A) :
  fetches m -> (forall e, fetches (h e)) -> fetches (try_catch m h).
Proof.
  intros Hm Hh w. rewrite try_trace. apply fetched_app; [apply Hm|].
  destruct (result (m w)); [apply Hh | apply fetched_none; reflexivity].
Qed.

Lemma fetches_for_each (X : Type) (l : list X) (body : X -> M World unit) :
  (forall x, fetches (body x)) -> fetches (for_each l body).
Proof.
  intros H. induction l as [|x l IH]; simpl.
  - apply fetches_none, emits_ret.
  - apply fetches_bind; auto.
Qed.

(** Lines 1041-1046: the stack is fetched and deleted at once. *)
Lemma heat_stack_turn_fetches (dryrun : bool) (stack_id stack_name : string) :
  fetches (stack <- invoke be (GetStack stack_id) ;;
           invoke_ be (DeleteStack stack) ;;
           invoke_ be (WaitForDelete stack) ;;
           report_deletion dryrun "HEAT STACK" stack_name).
Proof.
  intros w. rewrite bind_trace, invoke_trace, invoke_result.
  destruct (fst (answer be (GetStack stack_id) w)) as [e|s].
  - apply fetched_none. reflexivity.
  - generalize (final (invoke be (GetStack stack_id) w)). intros w1.
    match goal with
    | |- context [bind (invoke_ be (DeleteStack s)) ?f] => set (rest := f)
    end.
    assert (Hrest : forall w', forallb (fun ev => negb (is_delete_stack ev))
                                       (trace (rest tt w')) = true).
    { change (emits (fun ev => negb (is_delete_stack ev)) (rest tt)).
      unfold rest. script. }
    rewrite bind_trace.
    destruct (invoke__cases be (DeleteStack s) w1) as [([] & w2 & Hd) | (e & w2 & Hd)];
      rewrite Hd; cbn [trace result final fst snd app].
    + apply fetched_pair. apply Hrest.
    + apply fetched_pair. reflexivity.
Qed.

Lemma clean_fetches (c : cleaner) : fetches (clean be resource_name_re c).
Proof.
  pose proof harmless_keeps_stacks as Hh.
  destruct c as [a|c|s|l|n]; simpl; try solve [apply fetches_none; script].
  unfold AdvancedServicesCleaner_clean.
  destruct (negb (ad_available_dns a || ad_available_heat a || false));
    [apply fetches_none; script|].
  apply fetches_bind; [| intros _; apply fetches_none; script].
  destruct (ad_available_heat a); [|apply fetches_none; script].
  unfold clean_heat_stacks.
  apply fetches_try; [| intros e; apply fetches_none; script].
  apply fetches_for_each. intros [stack_id stack_name].
  apply fetches_try; [| intros e; apply fetches_none; script].
  destruct (ad_dryrun a); [apply fetches_none; script|].
  apply heat_stack_turn_fetches.
Qed.

End Named.

(** C9 (amended).  In a run over an inventory that was discovered or
    read from a file, the delete call for an id is made at most once
    for instances, flavors, images, volumes, volume snapshots, routers
    and DNS zones.  For load balancers, networks and security groups
    it is made at most three times, and at most one of these calls is
    answered otherwise than with a conflict, after which the loop
    tries again.  A keypair is deleted by its name: [delete_keypair]
    is called for a name at most as often as the inventory has
    keypairs of this name.  A Heat stack is deleted through the object
    that [get_stack] returns: [get_stack] is called at most once for
    an id, and [delete_stack] only right after it, on what it
    returned. *)
Theorem delete_calls_bounded
        (World : Type) (be : backend World) (resource_name_re : string -> bool)
        (resources : option (dict (dict string))) (dryrun : bool)
        (w0 : World) (self : OpenStackCleaners) :
  supplied resources ->
  result (OpenStackCleaners_init be resource_name_re resources dryrun w0) = inr self ->
  forall w : World,
    let T := trace (OpenStackCleaners_clean be resource_name_re self w) in
    (forall (k : keyed) (id : string),
        times (deletes k id) T <= attempts_allowed k
        /\ times (deletes_for_good k id) T <= 1)
    /\ (forall name : string,
           times (deletes_keypair name) T
           <= keypairs_named name (flat_map get_resource_list (cleaners self)))
    /\ (forall id : string, times (fetches_stack id) T <= 1)
    /\ stacks_deleted_as_fetched T.
Proof.
  intros Hgiven Hinit w T. subst T.
  destruct (init_result_built _ _ _ _ _ Hinit) as (a & c & s & l & n & Hcs & _).
  destruct (init_distinct be resource_name_re Hgiven dryrun w0) as (self' & Hr & Hd).
  assert (self' = self) by congruence. subst self'.
  unfold OpenStackCleaners_clean. rewrite Hcs in *.
  inversion Hd as [|? ? Da Hd1]; subst. inversion Hd1 as [|? ? Dc Hd2]; subst.
  inversion Hd2 as [|? ? Ds Hd3]; subst. inversion Hd3 as [|? ? Dl Hd4]; subst.
  inversion Hd4 as [|? ? Dn _]; subst.
  split; [intros k id; split; revert w | split; [|split]].
  - change (bounded (deletes k id) (attempts_allowed k)
      (for_each [AdvancedServices a; Compute c; Storage s; LoadBalancer l; Network n]
                (clean be resource_name_re))).
    cbn [for_each].
    pose proof (clean_bounded be resource_name_re k id _ Da) as Ba.
    pose proof (clean_bounded be resource_name_re k id _ Dc) as Bc.
    pose proof (clean_bounded be resource_name_re k id _ Ds) as Bs.
    pose proof (clean_bounded be resource_name_re k id _ Dl) as Bl.
    pose proof (clean_bounded be resource_name_re k id _ Dn) as Bn.
    eapply bounded_bind; [exact Ba | intros _ |].
    eapply bounded_bind; [exact Bc | intros _ |].
    eapply bounded_bind; [exact Bs | intros _ |].
    eapply bounded_bind; [exact Bl | intros _ |].
    eapply bounded_bind; [exact Bn | intros _ |].
    + intros w'. unfold times. simpl. apply le_n.
    + apply le_n.
    + apply le_n.
    + apply le_n.
    + apply le_n.
    + destruct k; simpl; lia.
  - change (bounded (deletes_for_good k id) 1
      (for_each [AdvancedServices a; Compute c; Storage s; LoadBalancer l; Network n]
                (clean be resource_name_re))).
    cbn [for_each].
    pose proof (clean_settled be resource_name_re id k _ Da) as Ba.
    pose proof (clean_settled be resource_name_re id k _ Dc) as Bc.
    pose proof (clean_settled be resource_name_re id k _ Ds) as Bs.
    pose proof (clean_settled be resource_name_re id k _ Dl) as Bl.
    pose proof (clean_settled be resource_name_re id k _ Dn) as Bn.
    eapply bounded_bind; [exact Ba | intros _ |].
    eapply bounded_bind; [exact Bc | intros _ |].
    eapply bounded_bind; [exact Bs | intros _ |].
    eapply bounded_bind; [exact Bl | intros _ |].
    eapply bounded_bind; [exact Bn | intros _ |].
    + intros w'. unfold times. simpl. apply le_n.
    + apply le_n.
    + apply le_n.
    + apply le_n.
    + apply le_n.
    + destruct k; simpl; lia.
  - intros name. apply clean_all_deletes_keypairs.
  - intros id. revert w.
    change (bounded (fetches_stack id) 1
      (for_each [AdvancedServices a; Compute c; Storage s; LoadBalancer l; Network n]
                (clean be resource_name_re))).
    cbn [for_each].
    pose proof (clean_fetches_stack_once be resource_name_re id _ Da) as Ba.
    pose proof (clean_fetches_stack_once be resource_name_re id _ Dc) as Bc.
    pose proof (clean_fetches_stack_once be resource_name_re id _ Ds) as Bs.
    pose proof (clean_fetches_stack_once be resource_name_re id _ Dl) as Bl.
    pose proof (clean_fetches_stack_once be resource_name_re id _ Dn) as Bn.
    eapply bounded_bind; [exact Ba | intros _ |].
    eapply bounded_bind; [exact Bc | intros _ |].
    eapply bounded_bind; [exact Bs | intros _ |].
    eapply bounded_bind; [exact Bl | intros _ |].
    eapply bounded_bind; [exact Bn | intros _ |].
    + intros w'. unfold times. simpl. apply le_n.
    + apply le_n.
    + apply le_n.
    + apply le_n.
    + apply le_n.
    + apply le_n.
  - revert w. apply fetches_for_each. apply clean_fetches.
Qed.

Lemma delete_calls_bounded_witness :
  times (deletes KSecurityGroup "sg1")
        (trace (OpenStackCleaners_clean small_cloud (Re.search Re.default_filter)
                                        cleaners_of_instance_and_group []))
  <= 3
  /\ times (deletes_for_good KSecurityGroup "sg1")
           (trace (OpenStackCleaners_clean small_cloud (Re.search Re.default_filter)
                                           cleaners_of_instance_and_group []))
     <= 1.
Proof.
  refine (proj1 (@delete_calls_bounded
                   (list string) small_cloud (Re.search Re.default_filter)
                   instance_and_group false [] cleaners_of_instance_and_group
                   (@supplied_file ["instances|vm|i1"; "sec_groups|web|sg1"] _ [] eq_refl)
                   eq_refl [])
                KSecurityGroup "sg1").
Defined.

(** C9, as stated, fails: a security group that is in use is deleted
    three times in one run; and a floating IP of the inventory that is
    on an instance of the inventory is deleted with the instance, and
    once more with the floating IPs of the inventory. *)
Lemma security_group_deleted_three_times :
  (result (OpenStackCleaners_init (busy_group_cloud 2) (Re.search Re.default_filter)
                                  one_group false 0)
   = inr cleaners_of_one_group
   /\ filter (deletes KSecurityGroup "sg1")
             (trace (OpenStackCleaners_clean (busy_group_cloud 2)
                       (Re.search Re.default_filter) cleaners_of_one_group 0))
      = [Call (DeleteSecurityGroup "sg1")
              (inl (ConflictException "409: Security Group sg1 in use"));
         Call (DeleteSecurityGroup "sg1")
              (inl (ConflictException "409: Security Group sg1 in use"));
         Call (DeleteSecurityGroup "sg1") (inr tt)])
  /\ (result (OpenStackCleaners_init floating_cloud (Re.search Re.default_filter)
                                     instance_and_ip false [])
      = inr cleaners_of_instance_and_ip
      /\ filter (deletes_ip "f1")
                (trace (OpenStackCleaners_clean floating_cloud
                          (Re.search Re.default_filter) cleaners_of_instance_and_ip []))
         = [Call (DeleteIp "f1") (inr tt); Call (DeleteIp "f1") (inr tt)]).
Proof. repeat split. Qed.

(** ** The teardown of a router *)


Lemma nondecreasing_app (mid : nat) (l1 l2 : list nat) :
  nondecreasing l1 = true -> nondecreasing l2 = true ->
  Forall (fun s => s <= mid) l1 -> Forall (fun s => mid <= s) l2 ->
  nondecreasing (l1 ++ l2) = true.
Proof.
  intros H1 H2 F1 F2. induction l1 as [|a l1 IH]; [exact H2|].
  inversion F1 as [|? ? Ha F1']; subst.
  destruct l1 as [|b l1].
  - simpl. destruct l2 as [|c l2]; [reflexivity|].
    inversion F2; subst. simpl in H2.
    apply andb_true_iff. split; [apply Nat.leb_le; lia | exact H2].
  - simpl in H1. apply andb_true_iff in H1. destruct H1 as [Hab H1].
    change (((a <=? b)%nat && nondecreasing ((b :: l1) ++ l2)) = true).
    rewrite Hab. simpl. apply IH; assumption.
Qed.


Lemma within_nil (lo hi : nat) : within lo hi [].
Proof. split; [reflexivity | constructor]. Qed.

Lemma within_at_stage (lo k hi : nat) (t : list event) :
  lo <= k -> k <= hi -> forallb (at_stage k) t = true -> within lo hi t.
Proof.
  intros Hlo Hhi. induction t as [|ev t IH]; simpl; [intros; apply within_nil|].
  intros H. apply andb_true_iff in H. destruct H as [Hev Ht].
  specialize (IH Ht). destruct IH as [N F]. unfold within, at_stage in *. simpl.
  destruct (stage ev) as [s|]; [|auto].
  apply Nat.eqb_eq in Hev. subst s. split.
  - simpl. destruct (stages t) as [|b l] eqn:Hs; [reflexivity|].
    apply andb_true_iff. split; [|exact N].
    apply Nat.leb_le.
    assert (Hb : forallb (at_stage k) t = true -> In b (stages t) -> b = k).
    { clear. induction t as [|ev t IH]; simpl; [intros _ []|].
      intros H. apply andb_true_iff in H. destruct H as [Hev Ht].
      unfold at_stage in Hev. destruct (stage ev) as [s|]; [|auto].
      apply Nat.eqb_eq in Hev. subst s. intros [<-|Hin]; auto. }
    rewrite (Hb Ht); [lia|]. rewrite Hs. left. reflexivity.
  - constructor; [lia | exact F].
Qed.

Section Staged.
Variable World : Type.
Variable be : backend World.

(** Every run of [m] goes through the stages between [lo] and [hi],
    in order. *)
Definition staged (lo hi : nat) (A : Type) (m : M World A) : Prop :=
  forall w, within lo hi (trace (m w)).

Lemma staged_at (lo k hi : nat) (A : Type) (m : M World A) :
  lo <= k -> k <= hi -> emits (at_stage k) m -> staged lo hi m.
Proof.
  intros Hlo Hhi H w.
  apply within_at_stage with (k := k); [assumption | assumption | apply H].
Qed.



End Staged.

Arguments staged {World} lo hi {A} m.

(** A part of the script all of whose calls are of stage [k], or of none. *)
Ltac stage n := apply staged_at with (k := n); [lia | lia | script].

Section Routers.
Variable World : Type.
Variable be : backend World.
Variable self : NetworkCleaner.
Variables id name : string.
Hypothesis live : ne_dryrun self = false.













End Routers.


(** *** What the teardown does *)

Section Teardown.
Variable World : Type.
Variable be : backend World.
Variable self : NetworkCleaner.
Variables id name : string.
Hypothesis live : ne_dryrun self = false.






End Teardown.




(** * Further properties *)

(** ** The resource list file *)

Lemma get_set_same (V : Type) (k : string) (v : V) (d : dict V) :
  Dict.get k (Dict.set k v d) = Some v.
Proof.
  induction d as [|[k0 v0] d IH]; simpl.
  - rewrite String.eqb_refl. reflexivity.
  - destruct (k0 =? k) eqn:E; simpl; rewrite E; [reflexivity | exact IH].
Qed.

Lemma get_set_other (V : Type) (k k' : string) (v : V) (d : dict V) :
  k' <> k -> Dict.get k' (Dict.set k v d) = Dict.get k' d.
Proof.
  intros Hne. induction d as [|[k0 v0] d IH]; simpl.
  - destruct (String.eqb_spec k k'); [congruence | reflexivity].
  - destruct (String.eqb_spec k0 k); simpl.
    + subst k0. destruct (String.eqb_spec k k'); [congruence | reflexivity].
    + destruct (k0 =? k'); [reflexivity | exact IH].
Qed.

Lemma split_length (sep : ascii) (s : string) :
  List.length (Str.split sep s) = S (occurrences sep s).
Proof.
  induction s as [|c s IH]; simpl; [reflexivity|].
  destruct (Ascii.eqb c sep); simpl; [rewrite IH; reflexivity|].
  destruct (Str.split sep s) as [|x l]; simpl in *; [discriminate | exact IH].
Qed.

Lemma fst_let (A : Type) (x : A * list string) (out : list string) :
  fst (let '(r, out') := x in (r, out ++ out')) = fst x.
Proof. destruct x. reflexivity. Qed.

Lemma load_lines_cons (line : string) (rest : list string)
      (resources : dict (dict string)) :
  fst (load_lines (line :: rest) resources)
  = match Str.split "|" (Str.strip line) with
    | restype :: resname :: resid :: _ =>
        fst (load_lines rest (load_line restype resname resid resources))
    | _ => inl IndexError
    end.
Proof.
  cbn [load_lines].
  destruct (Str.split "|" (Str.strip line)) as [|restype [|resname [|resid extra]]];
    try reflexivity.
  unfold load_line, stored_id.
  destruct (String.eqb_spec resid "") as [->|_]; [destruct (restype =? "keypairs")|];
    cbv beta iota zeta delta [negb]; rewrite fst_let; reflexivity.
Qed.

Lemma load_lines_app (l1 l2 : list string) (resources : dict (dict string)) :
  fst (load_lines (l1 ++ l2) resources)
  = match fst (load_lines l1 resources) with
    | inr resources' => fst (load_lines l2 resources')
    | inl e => inl e
    end.
Proof.
  revert resources. induction l1 as [|line l1 IH]; intros resources; [reflexivity|].
  rewrite <- app_comm_cons, !load_lines_cons.
  destruct (Str.split "|" (Str.strip line)) as [|restype [|resname [|resid extra]]];
    try reflexivity.
  apply IH.
Qed.

Lemma lookup_load_line (restype resname resid t i : string)
      (resources : dict (dict string)) :
  lookup t i (load_line restype resname resid resources)
  = if (t =? restype) && (i =? stored_id restype resid)
    then Some resname
    else lookup t i resources.
Proof.
  unfold load_line, lookup, Dict.mem, dict in *.
  destruct (Dict.get restype resources) as [d|] eqn:Hd; simpl.
  - rewrite Hd.
    destruct (String.eqb_spec t restype) as [->|Ht]; simpl.
    + rewrite get_set_same.
      destruct (String.eqb_spec i (stored_id restype resid)) as [->|Hi].
      * apply get_set_same.
      * rewrite get_set_other by exact Hi. rewrite Hd. reflexivity.
    + rewrite get_set_other by exact Ht. reflexivity.
  - rewrite get_set_same.
    destruct (String.eqb_spec t restype) as [->|Ht]; simpl.
    + rewrite get_set_same.
      destruct (String.eqb_spec i (stored_id restype resid)) as [->|Hi].
      * apply (get_set_same (stored_id restype resid) resname []).
      * rewrite Hd. simpl.
        destruct (String.eqb_spec (stored_id restype resid) i); [congruence | reflexivity].
    + rewrite !get_set_other by exact Ht. reflexivity.
Qed.

Lemma load_lines_untouched (restype resid : string) (content : list string) :
  forall resources loaded,
    untouched restype resid content ->
    fst (load_lines content resources) = inr loaded ->
    lookup restype resid loaded = lookup restype resid resources.
Proof.
  induction content as [|line content IH]; intros resources loaded Hun.
  - simpl. intros H. inversion H. reflexivity.
  - rewrite load_lines_cons.
    destruct (Str.split "|" (Str.strip line)) as [|t [|n [|i extra]]] eqn:Hs;
      try discriminate.
    intros H. rewrite (IH _ _ (fun l t' n' i' e Hin => Hun l t' n' i' e (or_intror Hin)) H).
    rewrite lookup_load_line.
    destruct (String.eqb_spec restype t) as [->|Ht]; [|reflexivity].
    destruct (String.eqb_spec resid (stored_id t i)) as [->|Hi]; [|reflexivity].
    exfalso. exact (Hun line t n i extra (or_introl eq_refl) Hs eq_refl eq_refl).
Qed.

(** X1.  [get_resources_from_cleanup_log] raises [IndexError] iff some
    line of the file, stripped, has fewer than two [|]; a blank line is
    enough. *)
Theorem load_fails_iff_short_line (content : list string) :
  fst (get_resources_from_cleanup_log content) = inl IndexError
  <-> exists line, In line content /\ occurrences "|" (Str.strip line) < 2.
Proof.
  unfold get_resources_from_cleanup_log. generalize (@nil (string * dict string)).
  induction content as [|line content IH]; intros resources.
  - simpl. split; [discriminate | intros (l & [] & _)].
  - rewrite load_lines_cons.
    pose proof (split_length "|" (Str.strip line)) as Hlen.
    destruct (Str.split "|" (Str.strip line)) as [|t [|n [|i extra]]]; simpl in Hlen.
    + discriminate.
    + split; [intros _ | reflexivity]. exists line. split; [left; reflexivity | lia].
    + split; [intros _ | reflexivity]. exists line. split; [left; reflexivity | lia].
    + rewrite IH. split.
      * intros (l & Hin & Hl). exists l. split; [right; exact Hin | exact Hl].
      * intros (l & [<-|Hin] & Hl); [lia | exists l; auto].
Qed.

(** X2.  The name loaded for a type and an id is the name of the last
    line of the file with this type and id, where a line with an empty
    id counts as id [0] for keypairs and as the empty id otherwise: so
    of several keypairs without id only the last one is loaded. *)
Theorem load_last_line_wins
        (before after : list string) (line restype resname resid : string)
        (extra : list string) (loaded : dict (dict string)) :
  fst (get_resources_from_cleanup_log (before ++ line :: after)) = inr loaded ->
  Str.split "|" (Str.strip line) = restype :: resname :: resid :: extra ->
  untouched restype (stored_id restype resid) after ->
  lookup restype (stored_id restype resid) loaded = Some resname.
Proof.
  unfold get_resources_from_cleanup_log. intros Hload Hline Hafter.
  rewrite load_lines_app in Hload.
  destruct (fst (load_lines before [])) as [e|resources]; [discriminate|].
  rewrite load_lines_cons, Hline in Hload.
  rewrite (load_lines_untouched _ Hafter Hload), lookup_load_line.
  rewrite !String.eqb_refl. reflexivity.
Qed.

Lemma load_last_line_wins_witness :
  lookup "keypairs" "0"
         [("keypairs", [("0", "kp2")]); ("volumes", [("v1", "data")])]
  = Some "kp2".
Proof.
  refine (@load_last_line_wins
            ["keypairs|kp1|" +++ nl] ["volumes|data|v1" +++ nl]
            ("keypairs|kp2|" +++ nl) "keypairs" "kp2" "" [] _ eq_refl eq_refl _).
  intros line t n i extra [<-|[]] Hs Ht. inversion Hs. subst. discriminate.
Defined.

(** ** [build_resource_dict] as a dictionary *)

Lemma build_from_get (resource_name_re : string -> bool) (id : string)
      (l : list resource) :
  forall acc,
    (forall res, In res l -> retained resource_name_re res = true ->
                 f_id (fields_of res) <> id) ->
    Dict.get id (build_resource_dict_from resource_name_re l acc) = Dict.get id acc.
Proof.
  induction l as [|res l IH]; intros acc H; simpl; [reflexivity|].
  destruct (retained resource_name_re res) eqn:Hr.
  - rewrite IH by (intros r Hin; apply H; right; exact Hin).
    apply get_set_other. intros Heq. apply (H res (or_introl eq_refl) Hr).
    symmetry. exact Heq.
  - apply IH. intros r Hin. apply H. right. exact Hin.
Qed.

(** X3.  When the cloud lists an id more than once, the inventory
    holds the name of the last resource with this id that the filter
    retains. *)
Theorem build_last_resource_wins
        (resource_name_re : string -> bool) (before after : list resource)
        (res : resource) :
  retained resource_name_re res = true ->
  (forall res', In res' after -> retained resource_name_re res' = true ->
                f_id (fields_of res') <> f_id (fields_of res)) ->
  Dict.get (f_id (fields_of res))
           (build_resource_dict resource_name_re (before ++ res :: after))
  = Some (text (fst (name_and_description res))).
Proof.
  intros Hr Hafter. unfold build_resource_dict.
  rewrite build_from_app. simpl. rewrite Hr.
  rewrite build_from_get by exact Hafter. apply get_set_same.
Qed.

Lemma build_last_resource_wins_witness :
  Dict.get "1" (build_resource_dict (Re.search Re.test_prefix)
                  ([named "1" "test-a"] ++ named "1" "test-b" :: [named "2" "test-c"]))
  = Some "test-b".
Proof.
  refine (@build_last_resource_wins (Re.search Re.test_prefix)
            [named "1" "test-a"] [named "2" "test-c"] (named "1" "test-b") eq_refl _).
  intros res' [<-|[]] _. discriminate.
Defined.

(** ** What a run deletes *)

Lemma forallb_in (X : Type) (p : X -> bool) (l : list X) (x : X) :
  forallb p l = true -> In x l -> p x = true.
Proof. intros H Hin. rewrite forallb_forall in H. exact (H x Hin). Qed.

Lemma emits_for_each_in (World : Type) (p : event -> bool) (X : Type) (l : list X)
      (body : X -> M World unit) :
  (forall x, In x l -> emits p (body x)) -> emits p (for_each l body).
Proof.
  induction l as [|x l IH]; intros H; simpl.
  - apply emits_ret.
  - apply emits_bind; [apply H; left; reflexivity|].
    intros _. apply IH. intros y Hy. apply H. right. exact Hy.
Qed.

Lemma emits_fold_each_in (World : Type) (p : event -> bool) (X S : Type) (l : list X)
      (s : S) (body : X -> S -> M World S) :
  (forall x s', In x l -> emits p (body x s')) -> emits p (fold_each l s body).
Proof.
  revert s. induction l as [|x l IH]; intros s H; simpl.
  - apply emits_ret.
  - apply emits_bind; [apply H; left; reflexivity|].
    intros s'. apply IH. intros y s'' Hy. apply H. right. exact Hy.
Qed.

Lemma in_for_each_trace (World : Type) (X : Type) (l : list X)
      (body : X -> M World unit) (ev : event) :
  forall w, In ev (trace (for_each l body w)) ->
            exists x w', In x l /\ In ev (trace (body x w')).
Proof.
  induction l as [|x l IH]; intros w; simpl; [intros []|].
  rewrite bind_trace. intros Hin. apply in_app_or in Hin. destruct Hin as [Hin|Hin].
  - exists x, w. auto.
  - destruct (result (body x w)) as [e|[]]; [destruct Hin|].
    destruct (IH _ Hin) as (y & w' & Hy & Hev). exists y, w'. auto.
Qed.

Lemma rows_in (rtype resname resid : string) (d : dict string) :
  In (resid, resname) d -> In (rtype, resname, resid) (resource_rows rtype d).
Proof.
  intros H. unfold resource_rows. apply in_map_iff.
  exists (resid, resname). auto.
Qed.

(** A step of [script] that knows the key of the turn is not [id]. *)
Ltac unlisted_step id :=
  match goal with
  | H : forall name, ~ In (id, name) ?d |- emits _ (for_each ?d _) =>
      apply emits_for_each_in;
      let k0 := fresh "k" in
      let v := fresh "v" in
      let Hin := fresh "Hin" in
      intros [k0 v] Hin;
      assert ((k0 =? id) = false)
        by (apply String.eqb_neq; intros ->; exact (H v Hin))
  | H : forall name, ~ In (id, name) ?d |- emits _ (fold_each ?d _ _) =>
      apply emits_fold_each_in;
      let k0 := fresh "k" in
      let v := fresh "v" in
      let Hin := fresh "Hin" in
      intros [k0 v] ? Hin;
      assert ((k0 =? id) = false)
        by (apply String.eqb_neq; intros ->; exact (H v Hin))
  | _ => script_step
  end.

Section Listed.
Variable World : Type.
Variable be : backend World.
Variable resource_name_re : string -> bool.
Variable k : keyed.
Variable id : string.

(** The dictionary of [c] in which [clean] finds the ids of [k]. *)
Definition ids_of (c : cleaner) : dict string :=
  match k, c with
  | KInstance, Compute self => co_instances self
  | KFlavor, Compute self => co_flavors self
  | KImage, Compute self => co_images self
  | KVolume, Storage self => st_volumes self
  | KSnapshot, Storage self => st_volume_snapshots self
  | KLoadBalancer, LoadBalancer self => lb_loadbalancers self
  | KNetwork, Network self => ne_networks self
  | KRouter, Network self => ne_routers self
  | KSecurityGroup, Network self => ne_sec_groups self
  | KZone, AdvancedServices self => get_or_empty (ad_dns_zones self)
  | _, _ => []
  end.

Lemma ids_of_rows (c : cleaner) (name : string) :
  In (id, name) (ids_of c) -> In (rtype_of k, name, id) (get_resource_list c).
Proof.
  unfold ids_of.
  destruct k, c as [a|c|s|l|n]; simpl; try (intros []);
    try destruct (ad_dns_zones a); simpl; try (intros []);
    intros H; rewrite ?in_app_iff; auto 10 using rows_in.
Qed.

Lemma clean_keeps_unlisted (c : cleaner) :
  (forall name, ~ In (id, name) (ids_of c)) ->
  emits (fun ev => negb (deletes k id ev)) (clean be resource_name_re c).
Proof.
  intros Hno. pose proof (harmless_deletes k id) as Hh.
  unfold ids_of in Hno.
  destruct k, c as [a|c|s|l|n]; simpl in Hno |- *;
    autounfold with script; repeat (unlisted_step id).
Qed.

End Listed.

(** X4.  A run deletes an instance, flavor, image, volume, volume
    snapshot, load balancer, network, router, security group or DNS
    zone only if its id is a row of the inventory that
    [show_resources] displays. *)
Theorem only_listed_resources_deleted
        (World : Type) (be : backend World) (resource_name_re : string -> bool)
        (self : OpenStackCleaners) (w : World) (k : keyed) (id : string) (ev : event) :
  In ev (trace (OpenStackCleaners_clean be resource_name_re self w)) ->
  deletes k id ev = true ->
  exists name, In (rtype_of k, name, id) (flat_map get_resource_list (cleaners self)).
Proof.
  unfold OpenStackCleaners_clean. intros Hin Hdel.
  destruct (in_for_each_trace _ _ _ _ Hin) as (c & w' & Hc & Hev).
  assert (Hex : exists name, In (id, name) (ids_of k c)).
  { destruct (existsb (fun kv => fst kv =? id) (ids_of k c)) eqn:E.
    - apply existsb_exists in E. destruct E as ([i name] & Hi & Heq).
      simpl in Heq. apply String.eqb_eq in Heq. subst i. eauto.
    - exfalso.
      assert (Hno : forall name, ~ In (id, name) (ids_of k c)).
      { intros name Hn.
        assert (existsb (fun kv => fst kv =? id) (ids_of k c) = true).
        { apply existsb_exists. exists (id, name). split; [exact Hn|].
          apply String.eqb_refl. }
        congruence. }
      pose proof (clean_keeps_unlisted be resource_name_re k id c Hno w') as Hk.
      pose proof (forallb_in _ _ ev Hk Hev) as H. simpl in H.
      rewrite Hdel in H. discriminate. }
  destruct Hex as [name Hn]. exists name.
  apply in_flat_map. exists c. split; [exact Hc | apply ids_of_rows, Hn].
Qed.

Lemma only_listed_resources_deleted_witness :
  exists name,
    In ("instances", name, "i1")
       (flat_map get_resource_list (cleaners cleaners_of_instance_and_group)).
Proof.
  refine (@only_listed_resources_deleted
            (list string) small_cloud (Re.search Re.default_filter)
            cleaners_of_instance_and_group [] KInstance "i1"
            (Call (DeleteServer "i1") (inr tt)) _ eq_refl).
  simpl. auto.
Defined.

(** ** [main] *)

Lemma emits_bind_ensures (World : Type) (p : event -> bool) (A B : Type)
      (m : M World A) (f : A -> M World B) (Q : A -> Prop) :
  ensures m Q -> emits p m -> (forall a, Q a -> emits p (f a)) ->
  emits p (bind m f).
Proof.
  intros HQ Hm Hf w. rewrite bind_trace, forallb_app, (Hm w). simpl.
  destruct (result (m w)) as [e|a] eqn:Hr; [reflexivity|].
  apply Hf. exact (HQ w a Hr).
Qed.

Lemma returns_ensures (World : Type) (A : Type) (m : M World A) (Q : A -> Prop) :
  returns m Q -> ensures m Q.
Proof.
  intros H w a Ha. destruct (H w) as (a' & Ha' & HQ). congruence.
Qed.

Lemma bind_ret (World : Type) (A B : Type) (a : A) (f : A -> M World B) (w : World) :
  bind (ret a) f w = f a w.
Proof. unfold bind, ret. destruct (f a w) as [[r w2] t2]. reflexivity. Qed.

Section MainFacts.
Variable World : Type.
Variable be : backend World.
Variable h : host.

Lemma init_reads_only (resource_name_re : string -> bool)
      (resources : option (dict (dict string))) (dryrun : bool) :
  emits read_only (OpenStackCleaners_init be resource_name_re resources dryrun).
Proof.
  script;
    match goal with
    | |- emits _ (invoke _ ?c) => apply (@emits_invoke World be read_only c)
    end;
    intro; reflexivity.
Qed.

Lemma clean_all_dry (resource_name_re : string -> bool) (self : OpenStackCleaners) :
  built true self ->
  emits read_only (OpenStackCleaners_clean be resource_name_re self).
Proof.
  intros (a & c & s & l & n & Hcs & Ha & Hc & Hs & Hl & Hn & _).
  unfold OpenStackCleaners_clean. rewrite Hcs. cbn [for_each].
  repeat (apply emits_bind; [apply clean_dry; assumption | intros _]).
  apply emits_ret.
Qed.

Lemma load_resources_quiet (opts : options) :
  emits read_only (load_resources (World := World) h opts).
Proof. unfold load_resources. script. Qed.

End MainFacts.

(** X5.  [main] changes nothing in the cloud in a dry run; and with no
    resource file and no [--yes] it changes nothing unless the answer
    at the prompt is [y] or [Y]. *)
Theorem main_changes_nothing_unconfirmed
        (World : Type) (be : backend World) (h : host) (opts : options) (w : World) :
  opt_dryrun opts = true
  \/ (truthy (opt_file opts) = false
      /\ opt_auto_approve opts = false
      /\ forall answer, input h = inr answer -> Str.lower answer <> "y") ->
  forallb read_only (trace (main be h opts w)) = true.
Proof.
  intros Hsafe. revert w. change (emits read_only (main be h opts)).
  unfold main, OpenStackCleaners_new.
  destruct (truthy (opt_rc opts) && truthy (opt_cloud opts)); [script|].
  destruct (Credentials_init h (opt_rc opts) (opt_cloud opts)) as [cred env].
  destruct (negb (truthy (opt_cloud opts)) && negb (truthy (rc_auth_url cred)));
    [script|].
  apply emits_bind; [apply load_resources_quiet | intros resources].
  destruct (compile_filter h opts) as [e|resource_name_re]; [script|].
  apply emits_bind_ensures with (Q := built (opt_dryrun opts)).
  - destruct (get_session h cred env) as [e|].
    + intros w' a Ha. discriminate Ha.
    + apply returns_ensures, init_built.
  - destruct (get_session h cred env) as [e|]; [script | apply init_reads_only].
  - intros cleaners Hbuilt.
    destruct (show_resources cleaners =? 0)%nat; [script|].
    destruct (opt_dryrun opts) eqn:Hdry.
    + rewrite andb_false_r.
      apply emits_bind; [script | intros _].
      apply emits_bind; [apply clean_all_dry, Hbuilt | intros _; script].
    + destruct Hsafe as [Hd | (Hfile & Hyes & Hanswer)]; [discriminate Hd|].
      rewrite Hfile, Hyes. simpl. unfold prompt_to_run.
      destruct (input h) as [e|answer] eqn:Hin.
      * intros w'. reflexivity.
      * destruct (String.eqb_spec (Str.lower answer) "y") as [Hy|Hn].
        -- destruct (Hanswer answer eq_refl Hy).
        -- intros w'. reflexivity.
Qed.

Lemma main_changes_nothing_unconfirmed_witness :
  forallb read_only (trace (main volume_cloud (desk [] "n") no_options tt)) = true.
Proof.
  refine (@main_changes_nothing_unconfirmed
            unit volume_cloud (desk [] "n") no_options tt (or_intror _)).
  split; [reflexivity | split; [reflexivity|]].
  intros answer H. inversion H. discriminate.
Defined.

(** X6.  [main] returns 1 and makes no call to the cloud when [--rc]
    and [--cloud] are both given; when [--rc] names a file that does
    not exist, whatever the environment holds; and when no cloud is
    named and [OS_AUTH_URL] is missing or empty after the openrc file,
    if any, has been read. *)
Theorem main_refuses_missing_credentials
        (World : Type) (be : backend World) (h : host) (opts : options) (w : World) :
  (truthy (opt_rc opts) = true /\ truthy (opt_cloud opts) = true)
  \/ (truthy (opt_cloud opts) = false
      /\ truthy (opt_rc opts) = true
      /\ (path_exists h (text (opt_rc opts)) = false
          \/ truthy (environ_get "OS_AUTH_URL"
                       (_load_openrc_file (openrc_lines h (text (opt_rc opts)))
                                          (environ h))) = false))
  \/ (truthy (opt_cloud opts) = false
      /\ truthy (opt_rc opts) = false
      /\ truthy (environ_get "OS_AUTH_URL" (environ h)) = false) ->
  main be h opts w = (inr 1, w, []).
Proof.
  unfold main, OpenStackCleaners_new, Credentials_init, _validate_auth.
  intros [[Hrc Hcloud] | [(Hcloud & Hrc & Hfile) | (Hcloud & Hrc & Hurl)]].
  - rewrite Hrc, Hcloud. reflexivity.
  - rewrite Hrc, Hcloud. simpl.
    destruct (path_exists h (text (opt_rc opts))); simpl.
    + destruct Hfile as [Hfile|Hurl]; [discriminate Hfile|].
      repeat (first [rewrite Hcloud | rewrite Hurl]; simpl). reflexivity.
    + reflexivity.
  - rewrite Hrc, Hcloud. simpl.
    repeat (first [rewrite Hcloud | rewrite Hurl]; simpl). reflexivity.
Qed.

Lemma main_refuses_missing_credentials_witness :
  main volume_cloud (desk [] "y")
       (mk_options (PyStr "openrc.sh") PyNone PyNone false PyNone true) tt
  = (inr 1, tt, []).
Proof.
  refine (@main_refuses_missing_credentials
            unit volume_cloud (desk [] "y")
            (mk_options (PyStr "openrc.sh") PyNone PyNone false PyNone true) tt
            (or_intror (or_introl _))).
  split; [reflexivity | split; [reflexivity | left; reflexivity]].
Defined.

(** X7.  When the pattern of [--filter] does not compile, [main] makes
    no call to the cloud and does not return 0. *)
Theorem main_refuses_invalid_filter
        (World : Type) (be : backend World) (h : host) (opts : options) (w : World)
        (e : exn) :
  truthy (opt_filter opts) = true ->
  re_compile h (text (opt_filter opts)) = inl e ->
  trace (main be h opts w) = []
  /\ final (main be h opts w) = w
  /\ result (main be h opts w) <> inr 0.
Proof.
  intros Hfilter Hcompile. unfold main, OpenStackCleaners_new, compile_filter.
  rewrite Hfilter, Hcompile.
  destruct (truthy (opt_rc opts) && truthy (opt_cloud opts));
    [repeat split; discriminate|].
  destruct (Credentials_init h (opt_rc opts) (opt_cloud opts)) as [cred env].
  destruct (negb (truthy (opt_cloud opts)) && negb (truthy (rc_auth_url cred)));
    [repeat split; discriminate|].
  unfold load_resources.
  destruct (truthy (opt_file opts)); [|repeat split; discriminate].
  destruct (readlines h (text (opt_file opts))) as [e1|content];
    [repeat split; discriminate|].
  destruct (fst (get_resources_from_cleanup_log content)) as [e2|resources];
    repeat split; discriminate.
Qed.

Lemma main_refuses_invalid_filter_witness :
  trace (main volume_cloud (desk [] "y")
              (mk_options PyNone PyNone PyNone false (PyStr "(") true) tt) = []
  /\ final (main volume_cloud (desk [] "y")
                 (mk_options PyNone PyNone PyNone false (PyStr "(") true) tt) = tt
  /\ result (main volume_cloud (desk [] "y")
                  (mk_options PyNone PyNone PyNone false (PyStr "(") true) tt)
     <> inr 0.
Proof.
  exact (@main_refuses_invalid_filter
           unit volume_cloud (desk [] "y")
           (mk_options PyNone PyNone PyNone false (PyStr "(") true) tt
           (re_error "missing ), unterminated subpattern at position 0")
           eq_refl eq_refl).
Defined.

(** X8.  A resource file with no line makes the run a discovery that
    asks nothing: [main] does what it does with no [--file] and with
    [--yes]. *)
Theorem main_empty_file_is_unattended_discovery
        (World : Type) (be : backend World) (h : host) (w : World)
        (rc cloud filter : pyval) (file : string) (dryrun auto_approve : bool) :
  file <> "" ->
  readlines h file = inr [] ->
  main be h (mk_options rc cloud (PyStr file) dryrun filter auto_approve) w
  = main be h (mk_options rc cloud PyNone dryrun filter true) w.
Proof.
  intros Hfile Hlines.
  unfold main, OpenStackCleaners_new, load_resources, compile_filter. simpl.
  apply String.eqb_neq in Hfile. rewrite Hfile, Hlines. simpl.
  destruct (truthy rc && truthy cloud); [reflexivity|].
  destruct (Credentials_init h rc cloud) as [cred env].
  destruct (negb (truthy cloud) && negb (truthy (rc_auth_url cred))); [reflexivity|].
  rewrite !bind_ret.
  destruct (if truthy filter then re_compile h (text filter)
            else inr (Re.search Re.default_filter)) as [e|resource_name_re];
    [reflexivity|].
  destruct (get_session h cred env) as [e|]; [reflexivity|].
  change (OpenStackCleaners_init be resource_name_re (Some []) dryrun)
    with (OpenStackCleaners_init be resource_name_re None dryrun).
  destruct dryrun; reflexivity.
Qed.

Lemma main_empty_file_is_unattended_discovery_witness :
  main volume_cloud (desk [("list.log", [])] "n")
       (mk_options PyNone PyNone (PyStr "list.log") false PyNone false) tt
  = main volume_cloud (desk [("list.log", [])] "n")
         (mk_options PyNone PyNone PyNone false PyNone true) tt.
Proof.
  refine (@main_empty_file_is_unattended_discovery
            unit volume_cloud (desk [("list.log", [])] "n") tt
            PyNone PyNone PyNone "list.log" false false _ eq_refl).
  discriminate.
Defined.

(** ** The order of the deletions *)

Section Ranked.
Variable rank : event -> option nat.

Lemma ranks_app (t1 t2 : list event) :
  ranks rank (t1 ++ t2) = ranks rank t1 ++ ranks rank t2.
Proof.
  induction t1 as [|ev t1 IH]; simpl; [reflexivity|].
  destruct (rank ev); simpl; rewrite IH; reflexivity.
Qed.

(** The places of [t] do not decrease and lie between [lo] and [hi]. *)
Definition ranked (lo hi : nat) (t : list event) : Prop :=
  nondecreasing (ranks rank t) = true
  /\ Forall (fun s => lo <= s <= hi) (ranks rank t).

Definition at_rank (k : nat) (ev : event) : bool :=
  match rank ev with
  | Some s => (s =? k)%nat
  | None => true
  end.

Lemma ranked_app (lo mid hi : nat) (t1 t2 : list event) :
  lo <= mid -> mid <= hi ->
  ranked lo mid t1 -> ranked mid hi t2 -> ranked lo hi (t1 ++ t2).
Proof.
  intros Hlo Hhi [N1 F1] [N2 F2]. unfold ranked. rewrite ranks_app. split.
  - apply nondecreasing_app with (mid := mid); try assumption.
    + eapply Forall_impl; [|exact F1]. simpl. intros; lia.
    + eapply Forall_impl; [|exact F2]. simpl. intros; lia.
  - apply Forall_app. split.
    + eapply Forall_impl; [|exact F1]. simpl. intros; lia.
    + eapply Forall_impl; [|exact F2]. simpl. intros; lia.
Qed.

Lemma ranked_nil (lo hi : nat) : ranked lo hi [].
Proof. split; [reflexivity | constructor]. Qed.

Lemma ranks_at (k : nat) (t : list event) :
  forallb (at_rank k) t = true -> Forall (fun s => s = k) (ranks rank t).
Proof.
  induction t as [|ev t IH]; simpl; [constructor|].
  intros H. apply andb_true_iff in H. destruct H as [Hev Ht].
  unfold at_rank in Hev. destruct (rank ev) as [s|]; [|auto].
  apply Nat.eqb_eq in Hev. constructor; auto.
Qed.

Lemma nondecreasing_constant (k : nat) (l : list nat) :
  Forall (fun s => s = k) l -> nondecreasing l = true.
Proof.
  induction 1 as [|a l Ha Hl IH]; [reflexivity|].
  destruct l as [|b l]; [reflexivity|].
  inversion Hl as [|? ? Hb Hl']. subst a b.
  change ((k <=? k)%nat && nondecreasing (k :: l) = true).
  rewrite Nat.leb_refl. exact IH.
Qed.

Lemma ranked_at (lo k hi : nat) (t : list event) :
  lo <= k -> k <= hi -> forallb (at_rank k) t = true -> ranked lo hi t.
Proof.
  intros Hlo Hhi H. apply ranks_at in H. split.
  - exact (nondecreasing_constant H).
  - eapply Forall_impl; [|exact H]. simpl. intros; lia.
Qed.

Section Phased.
Variable World : Type.

(** Every run of [m] goes through the places between [lo] and [hi],
    in order. *)
Definition phased (lo hi : nat) (A : Type) (m : M World A) : Prop :=
  forall w, ranked lo hi (trace (m w)).

Lemma phased_at (lo k hi : nat) (A : Type) (m : M World A) :
  lo <= k -> k <= hi -> emits (at_rank k) m -> phased lo hi m.
Proof.
  intros Hlo Hhi H w.
  apply ranked_at with (k := k); [assumption | assumption | apply H].
Qed.

Lemma phased_bind (lo mid hi : nat) (A B : Type) (m : M World A) (f : A -> M World B) :
  lo <= mid -> mid <= hi ->
  phased lo mid m -> (forall a, phased mid hi (f a)) -> phased lo hi (bind m f).
Proof.
  intros Hlo Hhi Hm Hf w. rewrite bind_trace.
  apply ranked_app with (mid := mid); [assumption | assumption | apply Hm |].
  destruct (result (m w)); [apply ranked_nil | apply Hf].
Qed.

Lemma phased_weaken (lo lo' hi hi' : nat) (A : Type) (m : M World A) :
  lo' <= lo -> hi <= hi' -> phased lo hi m -> phased lo' hi' m.
Proof.
  intros Hlo Hhi H w. destruct (H w) as [N F]. split; [exact N|].
  eapply Forall_impl; [|exact F]. simpl. intros; lia.
Qed.

End Phased.
End Ranked.

Arguments phased rank {World} lo hi {A} m.

Lemma harmless_at_phase (k : nat) : harmless (at_rank phase k).
Proof.
  intros [c r| |] H; try reflexivity.
  destruct c; try reflexivity; discriminate H.
Qed.

(** A part of the script all of whose deletions have the place [n],
    or none. *)
Ltac place n :=
  apply phased_at with (k := n);
  [lia | lia | pose proof (harmless_at_phase n); script].

Ltac then_place n :=
  apply phased_bind with (mid := n); [lia | lia | | intro].

Section Order.
Variable World : Type.
Variable be : backend World.
Variable resource_name_re : string -> bool.

Lemma advanced_phased (self : AdvancedServicesCleaner) :
  phased phase 0 1 (AdvancedServicesCleaner_clean be self).
Proof.
  unfold AdvancedServicesCleaner_clean.
  destruct (negb (ad_available_dns self || ad_available_heat self || false));
    [place 0|].
  then_place 0; [place 0 | place 1].
Qed.

Lemma compute_phased (self : ComputeCleaner) :
  phased phase 2 5 (ComputeCleaner_clean be self).
Proof.
  unfold ComputeCleaner_clean.
  then_place 2; [place 2|].
  then_place 2; [place 2|].
  then_place 3; [place 3|].
  then_place 4; [place 4 | place 5].
Qed.

Lemma storage_phased (self : StorageCleaner) :
  phased phase 6 7 (StorageCleaner_clean be self).
Proof.
  unfold StorageCleaner_clean.
  then_place 6; [place 6 | place 7].
Qed.

Lemma load_balancer_phased (self : LoadBalancerCleaner) :
  phased phase 8 8 (LoadBalancerCleaner_clean be self).
Proof. place 8. Qed.

Lemma network_phased (self : NetworkCleaner) :
  phased phase 9 11 (NetworkCleaner_clean be resource_name_re self).
Proof.
  unfold NetworkCleaner_clean, clean_before_security_groups.
  then_place 10; [|place 11].
  then_place 9; [place 9|].
  then_place 9; [place 9|].
  then_place 9; [place 9|].
  then_place 9; [place 9 | place 10].
Qed.

End Order.

(** X9.  The deletions of a run come in the order of the resource
    types: Heat stacks, DNS zones, instances, flavors, keypairs,
    images, volumes, volume snapshots, load balancers, routers (with
    their gateways and interfaces), networks, security groups.  (The
    deletions of floating IPs and of ports have no place in this
    order.) *)
Theorem deletions_follow_dependencies
        (World : Type) (be : backend World) (resource_name_re : string -> bool)
        (resources : option (dict (dict string))) (dryrun : bool)
        (w0 : World) (self : OpenStackCleaners) :
  result (OpenStackCleaners_init be resource_name_re resources dryrun w0) = inr self ->
  forall w : World,
    nondecreasing
      (ranks phase (trace (OpenStackCleaners_clean be resource_name_re self w)))
    = true.
Proof.
  intros Hinit.
  destruct (init_result_built _ _ _ _ _ Hinit) as (a & c & s & l & n & Hcs & _).
  unfold OpenStackCleaners_clean. rewrite Hcs.
  assert (H : phased phase 0 11
                (for_each [AdvancedServices a; Compute c; Storage s;
                           LoadBalancer l; Network n]
                          (clean be resource_name_re))).
  { cbn [for_each clean].
    then_place 2;
      [apply phased_weaken with (lo := 0) (hi := 1);
       [lia | lia | apply advanced_phased] |].
    then_place 6;
      [apply phased_weaken with (lo := 2) (hi := 5);
       [lia | lia | apply compute_phased] |].
    then_place 8;
      [apply phased_weaken with (lo := 6) (hi := 7);
       [lia | lia | apply storage_phased] |].
    then_place 9;
      [apply phased_weaken with (lo := 8) (hi := 8);
       [lia | lia | apply load_balancer_phased] |].
    then_place 11; [apply network_phased | place 11]. }
  intros w. exact (proj1 (H w)).
Qed.

Lemma deletions_follow_dependencies_witness :
  nondecreasing
    (ranks phase (trace (OpenStackCleaners_clean small_cloud
                           (Re.search Re.default_filter)
                           cleaners_of_instance_and_group [])))
  = true.
Proof.
  exact (@deletions_follow_dependencies
           (list string) small_cloud (Re.search Re.default_filter)
           instance_and_group false [] cleaners_of_instance_and_group eq_refl []).
Defined.

(** ** A cloud with nothing to clean *)

Lemma ensures_bind_with (World : Type) (A B : Type) (m : M World A)
      (f : A -> M World B) (Q1 : A -> Prop) (Q : B -> Prop) :
  ensures m Q1 -> (forall a, Q1 a -> ensures (f a) Q) -> ensures (bind m f) Q.
Proof.
  intros Hm Hf w b. rewrite bind_result.
  destruct (result (m w)) as [e|a] eqn:Hr; [discriminate|].
  apply Hf. exact (Hm w a Hr).
Qed.

Lemma ensures_try (World : Type) (A : Type) (m : M World A) (h : exn -> M World A)
      (Q : A -> Prop) :
  ensures m Q -> (forall e, ensures (h e) Q) -> ensures (try_catch m h) Q.
Proof.
  intros Hm Hh w a. rewrite try_result.
  destruct (result (m w)) as [e|a'] eqn:Hr.
  - apply Hh.
  - intros H. inversion H. subst. exact (Hm w a Hr).
Qed.

Lemma ensures_invoke (World : Type) (be : backend World) (c : call)
      (Q : resp c -> Prop) :
  (forall w r, fst (answer be c w) = inr r -> Q r) -> ensures (invoke be c) Q.
Proof. intros H w r. rewrite invoke_result. apply H. Qed.

Lemma build_nothing (resource_name_re : string -> bool) (l : list resource) :
  Forall (fun res => retained resource_name_re res = false) l ->
  build_resource_dict resource_name_re l = [].
Proof.
  unfold build_resource_dict.
  induction 1 as [|res l Hres Hl IH]; simpl; [reflexivity|].
  rewrite Hres. exact IH.
Qed.

Lemma unique_by_id_forall (P : resource -> Prop) (l : list resource) :
  Forall P l -> Forall P (unique_by_id l).
Proof.
  unfold unique_by_id. intros H.
  assert (Hacc : forall acc : dict resource,
             Forall (fun kv => P (snd kv)) acc ->
             Forall (fun kv => P (snd kv))
                    (fold_left (fun unique_stacks stack =>
                                  Dict.set (f_id (fields_of stack)) stack unique_stacks)
                               l acc)).
  { induction H as [|res l Hres Hl IH]; intros acc Hacc; simpl; [exact Hacc|].
    apply IH. apply (values_set P); assumption. }
  apply Forall_map. apply Hacc. constructor.
Qed.

Section Nothing.
Variable World : Type.
Variable be : backend World.
Variable resource_name_re : string -> bool.
Hypothesis nothing : nothing_matches be resource_name_re.

Lemma discovers_nothing (rtype : string) (fetcher : M World (list resource)) :
  ensures fetcher (Forall (fun res => retained resource_name_re res = false)) ->
  ensures (init_resources resource_name_re None rtype fetcher) (fun d => d = []).
Proof.
  intros Hf. unfold init_resources, fetch_resources.
  apply ensures_bind_with
    with (Q1 := Forall (fun res => retained resource_name_re res = false)).
  - apply ensures_try; [exact Hf|]. intros e. apply ensures_ret. constructor.
  - intros l Hl. apply ensures_ret. apply build_nothing, Hl.
Qed.

Lemma lists_nothing (what : listing) :
  ensures (invoke be (List_ what))
          (Forall (fun res => retained resource_name_re res = false)).
Proof. apply ensures_invoke. intros w l. apply (proj1 nothing). Qed.

Lemma init_selects_nothing (dryrun : bool) :
  ensures (OpenStackCleaners_init be resource_name_re None dryrun)
          (fun self => show_resources self = 0).
Proof.
  unfold OpenStackCleaners_init.
  apply ensures_bind_with
    with (Q1 := fun a => get_resource_list (AdvancedServices a) = []).
  { unfold AdvancedServicesCleaner_init.
    apply ensures_bind. intros dns. apply ensures_bind. intros heat.
    apply ensures_bind_with with (Q1 := fun z => z = None \/ z = Some []).
    { destruct dns; [|apply ensures_ret; auto].
      eapply ensures_bind_with; [apply discovers_nothing, lists_nothing|].
      intros d ->. apply ensures_ret. auto. }
    intros zones Hz.
    apply ensures_bind_with with (Q1 := fun z => z = None \/ z = Some []).
    { destruct heat; [|apply ensures_ret; auto].
      eapply ensures_bind_with.
      - apply discovers_nothing.
        eapply ensures_bind_with; [apply lists_nothing|].
        intros l Hl. apply ensures_ret. apply unique_by_id_forall, Hl.
      - intros d ->. apply ensures_ret. auto. }
    intros stacks Hs. apply ensures_ret. simpl.
    destruct Hz as [-> | ->], Hs as [-> | ->]; reflexivity. }
  intros a Ha.
  apply ensures_bind_with with (Q1 := fun c => get_resource_list (Compute c) = []).
  { unfold ComputeCleaner_init.
    eapply ensures_bind_with; [apply discovers_nothing, lists_nothing | intros ? ->].
    eapply ensures_bind_with; [apply discovers_nothing, lists_nothing | intros ? ->].
    eapply ensures_bind_with; [apply discovers_nothing, lists_nothing | intros ? ->].
    eapply ensures_bind_with.
    - apply discovers_nothing. apply ensures_try; [apply lists_nothing|].
      intros e. apply ensures_ret. constructor.
    - intros ? ->. apply ensures_ret. reflexivity. }
  intros c Hc.
  apply ensures_bind_with with (Q1 := fun c => get_resource_list (Storage c) = []).
  { unfold StorageCleaner_init.
    eapply ensures_bind_with; [apply discovers_nothing, lists_nothing | intros ? ->].
    eapply ensures_bind_with; [apply discovers_nothing, lists_nothing | intros ? ->].
    apply ensures_ret. reflexivity. }
  intros st Hst.
  apply ensures_bind_with with (Q1 := fun c => lb_loadbalancers c = []).
  { unfold LoadBalancerCleaner_init.
    eapply ensures_bind_with; [apply discovers_nothing, lists_nothing | intros ? ->].
    apply ensures_ret. reflexivity. }
  intros l Hl.
  apply ensures_bind_with with (Q1 := fun c => get_resource_list (Network c) = []).
  { unfold NetworkCleaner_init.
    eapply ensures_bind_with.
    - apply discovers_nothing.
      eapply ensures_bind_with.
      + apply ensures_invoke. intros w fips. apply (proj2 nothing).
      + intros fips Hf. apply ensures_ret. apply Forall_map. exact Hf.
    - intros ? ->.
      eapply ensures_bind_with; [apply discovers_nothing, lists_nothing | intros ? ->].
      eapply ensures_bind_with; [apply discovers_nothing, lists_nothing | intros ? ->].
      eapply ensures_bind_with; [apply discovers_nothing, lists_nothing | intros ? ->].
      apply ensures_ret. reflexivity. }
  intros n Hn. apply ensures_ret.
  unfold show_resources. cbn [cleaners flat_map].
  rewrite Ha, Hc, Hst, Hn. simpl. rewrite Hl. reflexivity.
Qed.

End Nothing.

(** X10.  When the filter retains nothing of what the cloud lists, a
    run without a resource file changes nothing in the cloud, with or
    without [--dryrun] and [--yes]: [main] returns before [clean], and
    the sweeps over floating IPs and ports are not made. *)
Theorem main_changes_nothing_when_nothing_matches
        (World : Type) (be : backend World) (h : host) (opts : options) (w : World)
        (resource_name_re : string -> bool) :
  truthy (opt_file opts) = false ->
  compile_filter h opts = inr resource_name_re ->
  nothing_matches be resource_name_re ->
  forallb read_only (trace (main be h opts w)) = true
  /\ forall status, result (main be h opts w) = inr status -> status <= 1.
Proof.
  intros Hfile Hfilter Hnothing. unfold main, OpenStackCleaners_new, load_resources.
  rewrite Hfile, Hfilter.
  destruct (truthy (opt_rc opts) && truthy (opt_cloud opts)).
  { split; [reflexivity|]. intros status H. inversion H. lia. }
  destruct (Credentials_init h (opt_rc opts) (opt_cloud opts)) as [cred env].
  destruct (negb (truthy (opt_cloud opts)) && negb (truthy (rc_auth_url cred))).
  { split; [reflexivity|]. intros status H. inversion H. lia. }
  rewrite bind_ret.
  destruct (get_session h cred env) as [e|].
  { split; [reflexivity|]. intros status H. discriminate H. }
  rewrite bind_trace, bind_result.
  pose proof (init_reads_only be resource_name_re None (opt_dryrun opts) w) as Hread.
  pose proof (@init_selects_nothing World be resource_name_re Hnothing
                (opt_dryrun opts) w) as Hzero.
  destruct (result (OpenStackCleaners_init be resource_name_re None
                      (opt_dryrun opts) w)) as [e|cleaners].
  { rewrite app_nil_r. split; [exact Hread|]. intros status H. discriminate H. }
  rewrite (Hzero cleaners eq_refl). simpl. rewrite app_nil_r.
  split; [exact Hread|]. intros status H. inversion H. lia.
Qed.

Lemma main_changes_nothing_when_nothing_matches_witness :
  nothing_matches unmatched_cloud (Re.search Re.default_filter)
  /\ trace (main unmatched_cloud (desk [] "y")
                 (mk_options PyNone PyNone PyNone false PyNone true) tt)
     <> []
  /\ forallb read_only
             (trace (main unmatched_cloud (desk [] "y")
                          (mk_options PyNone PyNone PyNone false PyNone true) tt))
     = true.
Proof.
  assert (H : nothing_matches unmatched_cloud (Re.search Re.default_filter)).
  { split.
    - intros what w l Hl. destruct what as [| | | | | | | | | |limit1|limit1];
        simpl in Hl; inversion Hl; subst; repeat constructor.
    - intros w fips Hl. simpl in Hl. inversion Hl. constructor. }
  split; [exact H|]. split; [discriminate|].
  exact (proj1 (@main_changes_nothing_when_nothing_matches
                  unit unmatched_cloud (desk [] "y")
                  (mk_options PyNone PyNone PyNone false PyNone true) tt
                  (Re.search Re.default_filter) eq_refl eq_refl H)).
Defined.

(** ** Exceptions *)

(** X11.  No exception leaves [OpenStackCleaners.clean], whatever the
    cloud answers and whatever the inventory holds: an exception of a
    call, the [KeyError] of [_wait_for_instance_deletion] and the
    unbound [router_fips] of the router loop are all caught on the
    way.  The only exception that leaves [OpenStackCleaners.__init__]
    is the one that [get_session] raises again when
    [openstack.connect] fails, before any call to the cloud; with a
    session, [__init__] returns. *)
Theorem cleaners_never_raise
        (World : Type) (be : backend World) (h : host)
        (creds_obj : Credentials) (environ : dict string)
        (resource_name_re : string -> bool)
        (resources : option (dict (dict string))) (dryrun : bool)
        (self : OpenStackCleaners) (w : World) :
  match get_session h creds_obj environ with
  | Some e =>
      OpenStackCleaners_new be h creds_obj environ resource_name_re resources dryrun w
      = (inl e, w, [])
  | None =>
      exists created,
        result (OpenStackCleaners_new be h creds_obj environ resource_name_re
                                      resources dryrun w)
        = inr created
  end
  /\ result (OpenStackCleaners_clean be resource_name_re self w) = inr tt.
Proof.
  split.
  - unfold OpenStackCleaners_new.
    destruct (get_session h creds_obj environ) as [e|]; [reflexivity|].
    destruct (init_built be resource_name_re resources dryrun w) as (b & Hb & _).
    eauto.
  - assert (H : safe (OpenStackCleaners_clean be resource_name_re self)).
    { unfold OpenStackCleaners_clean. apply safe_for_each. intros c.
      apply clean_safe. }
    destruct (H w) as [[] Hr]. exact Hr.
Qed.

(** ** What a run that is no dry run reports *)

Section Ends.
Variable World : Type.
Variable be : backend World.
Variable P : list event -> Prop.
Hypothesis P_grows : grows P.

(** The trace of a run of [m] has [P]; or the run returns something of
    [Q]; or it raises something of [R]. *)
Definition ends (A : Type) (Q : A -> Prop) (R : exn -> Prop) (m : M World A) : Prop :=
  forall w,
    P (trace (m w))
    \/ match result (m w) with
       | inl e => R e
       | inr a => Q a
       end.

Lemma ends_weaken (A : Type) (Q Q' : A -> Prop) (R R' : exn -> Prop) (m : M World A) :
  (forall a, Q a -> Q' a) -> (forall e, R e -> R' e) -> ends Q R m -> ends Q' R' m.
Proof.
  intros HQ HR H w. destruct (H w) as [HP|Hres]; [left; exact HP | right].
  destruct (result (m w)); auto.
Qed.

Lemma ends_any (A : Type) (m : M World A) : ends (fun _ => True) (fun _ => True) m.
Proof. intros w. right. destruct (result (m w)); exact I. Qed.

Lemma ends_safe (A : Type) (R : exn -> Prop) (m : M World A) :
  safe m -> ends (fun _ => True) R m.
Proof. intros H w. right. destruct (H w) as [a ->]. exact I. Qed.

Lemma ends_ret (A : Type) (Q : A -> Prop) (R : exn -> Prop) (a : A) :
  Q a -> ends Q R (ret a).
Proof. intros H w. right. exact H. Qed.

Lemma ends_raise (A : Type) (Q : A -> Prop) (R : exn -> Prop) (e : exn) :
  R e -> ends Q R (raise (A := A) e).
Proof. intros H w. right. exact H. Qed.

Lemma ends_emit (Q : unit -> Prop) (R : exn -> Prop) (ev : event) :
  P [ev] -> ends Q R (emit ev).
Proof. intros H w. left. exact H. Qed.

Lemma ends_bind (A B : Type) (Q1 : A -> Prop) (Q : B -> Prop) (R : exn -> Prop)
      (m : M World A) (f : A -> M World B) :
  ends Q1 R m -> (forall a, Q1 a -> ends Q R (f a)) -> ends Q R (bind m f).
Proof.
  intros Hm Hf w. rewrite bind_trace, bind_result.
  destruct (Hm w) as [HP|Hres]; [left; apply (@P_grows [] _ _ HP)|].
  destruct (result (m w)) as [e|a]; [right; exact Hres|].
  destruct (Hf a Hres (final (m w))) as [HP|Hres']; [left | right; exact Hres'].
  pose proof (@P_grows (trace (m w)) _ [] HP) as H. rewrite app_nil_r in H. exact H.
Qed.

Lemma ends_try (A : Type) (Q : A -> Prop) (R1 R : exn -> Prop)
      (m : M World A) (h : exn -> M World A) :
  ends Q R1 m -> (forall e, R1 e -> ends Q R (h e)) -> ends Q R (try_catch m h).
Proof.
  intros Hm Hh w. rewrite try_trace, try_result.
  destruct (Hm w) as [HP|Hres]; [left; apply (@P_grows [] _ _ HP)|].
  destruct (result (m w)) as [e|a]; [|right; exact Hres].
  destruct (Hh e Hres (final (m w))) as [HP|Hres']; [left | right; exact Hres'].
  pose proof (@P_grows (trace (m w)) _ [] HP) as H. rewrite app_nil_r in H. exact H.
Qed.

(** The trace has [P] already. *)
Lemma ends_here (A B : Type) (Q : B -> Prop) (R : exn -> Prop)
      (m : M World A) (f : A -> M World B) :
  ends (fun _ => False) R m -> ends Q R (bind m f).
Proof. intros H. apply ends_bind with (Q1 := fun _ => False); [exact H | intros a []]. Qed.

(** [P] comes later, if [m] does not raise. *)
Lemma ends_later (A B : Type) (Q : B -> Prop) (m : M World A) (f : A -> M World B) :
  (forall a, ends Q (fun _ => True) (f a)) -> ends Q (fun _ => True) (bind m f).
Proof.
  intros H. apply ends_bind with (Q1 := fun _ => True); [apply ends_any | auto].
Qed.

Lemma ends_after (A B : Type) (Q : B -> Prop) (R : exn -> Prop)
      (m : M World A) (f : A -> M World B) :
  safe m -> (forall a, ends Q R (f a)) -> ends Q R (bind m f).
Proof.
  intros Hs H. apply ends_bind with (Q1 := fun _ => True); [apply ends_safe, Hs | auto].
Qed.

(** A call whose answer is in [P]. *)
Lemma ends_invoke_ (Q : unit -> Prop) (c : call) :
  (forall r, P [Call c (inr r)]) -> ends Q (fun _ => True) (invoke_ be c).
Proof.
  intros H w.
  destruct (invoke__cases be c w) as [(r & w' & ->) | (e & w' & ->)].
  - left. apply H.
  - right. exact I.
Qed.

Lemma ends_for_each (X : Type) (x : X) (l : list X) (body : X -> M World unit) :
  In x l -> (forall y, safe (body y)) ->
  ends (fun _ => False) (fun _ => False) (body x) ->
  ends (fun _ => False) (fun _ => False) (for_each l body).
Proof.
  intros Hin Hs Hx. induction l as [|y l IH]; [destruct Hin|].
  simpl. destruct Hin as [->|Hin].
  - apply ends_here, Hx.
  - apply ends_after; [apply Hs | intros _; apply IH, Hin].
Qed.

Lemma ends_fold_each (X S : Type) (x : X) (l : list X) (s : S)
      (body : X -> S -> M World S) :
  In x l -> (forall y s', safe (body y s')) ->
  (forall s', ends (fun _ => False) (fun _ => False) (body x s')) ->
  ends (fun _ => False) (fun _ => False) (fold_each l s body).
Proof.
  intros Hin Hs Hx. revert s. induction l as [|y l IH]; intros s; [destruct Hin|].
  simpl. destruct Hin as [->|Hin].
  - apply ends_here, Hx.
  - apply ends_after; [apply Hs | intros s'; apply IH, Hin].
Qed.

(** A loop each of whose turns has [P] or goes on, and that cannot go
    on after the last one. *)
Lemma ends_retry_loop (n : nat) (body : nat -> M World loop_ctl) :
  (forall j, ends (fun c => c = Retry /\ 1 < j) (fun _ => False) (body j)) ->
  ends (fun _ => False) (fun _ => False) (retry_loop (S n) body).
Proof.
  intros H. induction n as [|n IH].
  - simpl. apply ends_bind with (Q1 := fun c => c = Retry /\ 1 < 1); [apply H|].
    intros c [_ Hlt]. lia.
  - change (retry_loop (S (S n)) body)
      with (c <- body (S (S n)) ;;
            match c with Break => ret tt | Retry => retry_loop (S n) body end).
    apply ends_bind with (Q1 := fun c => c = Retry /\ 1 < S (S n)); [apply H|].
    intros c [-> _]. exact IH.
Qed.

End Ends.

Arguments ends {World} P {A} Q R m.

(** [m] always leaves a trace of [P]. *)
Abbreviation always P m := (ends P (fun _ => False) (fun _ => False) m).

Lemma grows_reported (rtype name : string) : grows (reported rtype name).
Proof.
  intros t1 t t2 (o & Ho & Hin). exists o. split; [exact Ho|].
  apply in_or_app. right. apply in_or_app. left. exact Hin.
Qed.

Lemma grows_or (P1 P2 : list event -> Prop) :
  grows P1 -> grows P2 -> grows (fun t => P1 t \/ P2 t).
Proof. intros H1 H2 t1 t t2 [H|H]; [left; apply H1, H | right; apply H2, H]. Qed.

Lemma grows_accounted (rtype resname resid : string) :
  grows (accounted rtype resname resid).
Proof.
  unfold accounted. destruct (rtype =? "instances").
  - apply grows_or; [apply grows_reported | apply grows_in].
  - destruct (rtype =? "floating_ips"); [|apply grows_reported].
    apply grows_or; [apply grows_reported|].
    intros t1 t t2 (fip & Hcall & Hrep). exists fip. split.
    + apply (grows_in _ t1 t t2 Hcall).
    + destruct Hrep as [H|H]; [left | right]; apply grows_reported, H.
Qed.

(** The report under which a resource is accounted for. *)
Ltac told :=
  unfold accounted, reported; simpl;
  first
    [ eexists; split; [|left; reflexivity]; discriminate
    | left; eexists; split; [|left; reflexivity]; discriminate ].

Ltac tell :=
  unfold report_deletion, report_not_found, report_error;
  first [apply ends_emit | apply ends_here; [assumption|]; apply ends_emit]; told.

(** A turn [try: call; ...; report  except: report]. *)
Ltac turn G :=
  cbv beta iota;
  eapply ends_try with (R1 := fun _ => True); [exact G | | intros ? _];
  [ repeat (apply ends_later; [exact G|]; intros ?); tell
  | cbv zeta;
    repeat match goal with
           | |- ends _ _ _ (if ?b then _ else _) => destruct b
           end;
    tell ].

(** The handler of a retry loop: it reports, or sleeps and goes on
    while turns are left. *)
Ltac retry_handler G :=
  cbv zeta;
  repeat match goal with
         | |- ends _ _ _ (if ?b then _ else _) => destruct b eqn:?
         | |- ends _ _ _ (bind (if ?b then _ else _) _) => destruct b eqn:?
         end;
  first
    [ tell
    | apply ends_after; [exact G | script | intros _];
      apply ends_ret; split; [reflexivity|];
      match goal with
      | H : (0 <? _)%nat = true |- _ => apply Nat.ltb_lt in H; lia
      end ].

Section Accounts.
Variable World : Type.
Variable be : backend World.
Variable resource_name_re : string -> bool.

Lemma storage_accounts (self : StorageCleaner) (rtype resname resid : string) :
  st_dryrun self = false ->
  In (rtype, resname, resid) (get_resource_list (Storage self)) ->
  always (accounted rtype resname resid) (StorageCleaner_clean be self).
Proof.
  intros Hlive Hin. simpl in Hin.
  pose proof (grows_accounted rtype resname resid) as G.
  unfold StorageCleaner_clean. rewrite Hlive.
  apply in_app_or in Hin.
  destruct Hin as [Hin|Hin]; apply in_resource_rows in Hin; destruct Hin as [-> Hin].
  - apply ends_here; [exact G|].
    eapply ends_for_each; [exact G | exact Hin | intros [? ?]; script | turn G].
  - apply ends_after; [exact G | script | intros _].
    eapply ends_for_each; [exact G | exact Hin | intros [? ?]; script | turn G].
Qed.

Lemma compute_accounts (self : ComputeCleaner) (rtype resname resid : string) :
  co_dryrun self = false ->
  In (rtype, resname, resid) (get_resource_list (Compute self)) ->
  always (accounted rtype resname resid) (ComputeCleaner_clean be self).
Proof.
  intros Hlive Hin. simpl in Hin.
  pose proof (grows_accounted rtype resname resid) as G.
  assert (Hs1 : safe (clean_instances be self)) by script.
  assert (Hs2 : forall d, safe (if negb (co_dryrun self) && nonempty d
                                then _wait_for_instance_deletion be self d
                                else ret tt)).
  { intros d. destruct (negb (co_dryrun self) && nonempty d);
      [apply wait_while_safe | apply safe_ret]. }
  unfold ComputeCleaner_clean.
  repeat (apply in_app_or in Hin; destruct Hin as [Hin|Hin]);
    apply in_resource_rows in Hin; destruct Hin as [-> Hin].
  - (* instances *)
    apply ends_here; [exact G|]. unfold clean_instances. rewrite Hlive.
    eapply ends_fold_each; [exact G | exact Hin | intros [? ?] ?; script |].
    intros d. cbv beta iota.
    eapply ends_try with (R1 := fun _ => True); [exact G | | intros e _].
    + apply ends_later; [exact G|]. intros instance.
      apply ends_here; [exact G|].
      apply ends_later; [exact G|]. intros _.
      apply ends_invoke_. intros []. right. left. reflexivity.
    + destruct (is_not_found_error e); tell.
  - (* flavors *)
    apply ends_after; [exact G | exact Hs1 | intros d].
    apply ends_after; [exact G | apply Hs2 | intros _].
    apply ends_here; [exact G|]. unfold _clean_flavors. rewrite Hlive.
    eapply ends_for_each; [exact G | exact Hin | intros [? ?]; script | turn G].
  - (* keypairs *)
    apply ends_after; [exact G | exact Hs1 | intros d].
    apply ends_after; [exact G | apply Hs2 | intros _].
    apply ends_after; [exact G | script | intros _].
    apply ends_here; [exact G|]. unfold _clean_keypairs. rewrite Hlive.
    eapply ends_for_each; [exact G | exact Hin | intros [? ?]; script | turn G].
  - (* images *)
    apply ends_after; [exact G | exact Hs1 | intros d].
    apply ends_after; [exact G | apply Hs2 | intros _].
    apply ends_after; [exact G | script | intros _].
    apply ends_after; [exact G | script | intros _].
    unfold _clean_images. rewrite Hlive.
    eapply ends_for_each; [exact G | exact Hin | intros [? ?]; script | turn G].
Qed.

Lemma load_balancer_accounts (self : LoadBalancerCleaner)
      (rtype resname resid : string) :
  lb_dryrun self = false ->
  In (rtype, resname, resid) (get_resource_list (LoadBalancer self)) ->
  always (accounted rtype resname resid) (LoadBalancerCleaner_clean be self).
Proof.
  intros Hlive Hin. simpl in Hin.
  pose proof (grows_accounted rtype resname resid) as G.
  apply in_resource_rows in Hin. destruct Hin as [-> Hin].
  unfold LoadBalancerCleaner_clean, DEFAULT_RETRY_COUNT.
  eapply ends_for_each; [exact G | exact Hin | intros [? ?]; script |].
  cbv beta iota. apply ends_retry_loop; [exact G|]. intros j.
  unfold load_balancer_attempt. rewrite Hlive.
  eapply ends_try with (R1 := fun _ => True); [exact G | | intros e _].
  - apply ends_bind
      with (Q1 := fun ended => ended = None \/ (ended = Some Retry /\ 1 < j));
      [exact G | |].
    + unfold check_provisioning.
      eapply ends_try with (R1 := fun _ => True); [exact G | | intros e _].
      * apply ends_later; [exact G|]. intros lb.
        destruct (in_list (provisioning_status lb) pending_states);
          [|apply ends_ret; auto].
        cbv zeta. destruct (0 <? j - 1)%nat eqn:Hj.
        -- apply ends_later; [exact G|]. intros _. apply ends_ret.
           right. split; [reflexivity|]. apply Nat.ltb_lt in Hj. lia.
        -- tell.
      * destruct (exc_is_ResourceNotFound e); [tell | apply ends_raise; exact I].
    + intros ended [-> | [-> Hj]]; [|apply ends_ret; auto].
      apply ends_later; [exact G|]. intros _. tell.
  - retry_handler G.
Qed.

Lemma advanced_accounts (self : AdvancedServicesCleaner)
      (rtype resname resid : string) :
  ad_dryrun self = false ->
  (ad_available_dns self = false -> ad_dns_zones self = None) ->
  (ad_available_heat self = false -> ad_heat_stacks self = None) ->
  In (rtype, resname, resid) (get_resource_list (AdvancedServices self)) ->
  always (accounted rtype resname resid) (AdvancedServicesCleaner_clean be self).
Proof.
  intros Hlive Hdns Hheat Hin. simpl in Hin.
  pose proof (grows_accounted rtype resname resid) as G.
  unfold AdvancedServicesCleaner_clean.
  apply in_app_or in Hin. destruct Hin as [Hin|Hin].
  - destruct (ad_dns_zones self) as [d|] eqn:Hd; [|destruct Hin].
    destruct (ad_available_dns self); [|discriminate (Hdns eq_refl)].
    apply in_resource_rows in Hin. destruct Hin as [-> Hin]. simpl.
    apply ends_after; [exact G | script | intros _].
    unfold clean_dns_zones. rewrite Hd, Hlive. simpl.
    eapply ends_try with (R1 := fun _ => False); [exact G | | intros e []].
    eapply ends_for_each; [exact G | exact Hin | intros [? ?]; script | turn G].
  - destruct (ad_heat_stacks self) as [d|] eqn:Hd; [|destruct Hin].
    destruct (ad_available_heat self); [|discriminate (Hheat eq_refl)].
    apply in_resource_rows in Hin. destruct Hin as [-> Hin].
    rewrite orb_true_r. simpl.
    apply ends_here; [exact G|].
    unfold clean_heat_stacks. rewrite Hd, Hlive. simpl.
    eapply ends_try with (R1 := fun _ => False); [exact G | | intros e []].
    eapply ends_for_each; [exact G | exact Hin | intros [? ?]; script | turn G].
Qed.

Lemma router_failed_accounts (rtype resname resid name : string) (e : exn) :
  rtype = "routers" -> name = resname ->
  always (accounted rtype resname resid) (router_failed (World := World) name e).
Proof.
  intros -> ->. unfold router_failed.
  destruct (is_not_found_error e); [tell|].
  destruct (Str.contains "Conflict" (exc_type e) || Str.contains "409" (exc_str e));
    tell.
Qed.

Lemma network_accounts (self : NetworkCleaner) (rtype resname resid : string) :
  ne_dryrun self = false ->
  In (rtype, resname, resid) (get_resource_list (Network self)) ->
  always (accounted rtype resname resid)
         (NetworkCleaner_clean be resource_name_re self).
Proof.
  intros Hlive Hin. simpl in Hin.
  pose proof (grows_accounted rtype resname resid) as G.
  unfold NetworkCleaner_clean.
  repeat (apply in_app_or in Hin; destruct Hin as [Hin|Hin]);
    apply in_resource_rows in Hin; destruct Hin as [-> Hin].
  - (* floating IPs *)
    apply ends_here; [exact G|]. unfold clean_before_security_groups.
    apply ends_here; [exact G|]. unfold clean_discovered_floating_ips.
    eapply ends_for_each; [exact G | exact Hin | intros [? ?]; script |].
    cbv beta iota. intros w. left.
    unfold accounted, reported. simpl.
    unfold _delete_floating_ip. rewrite Hlive.
    unfold try_catch, bind, invoke_, bind, invoke, report_deletion, report_not_found,
      report_error, emit, ret.
    destruct (answer be (GetIp resid) w) as [[e|fip] w1]; simpl.
    + destruct (is_not_found_error e); simpl; left;
        eexists; (split; [|right; left; reflexivity]); discriminate.
    + destruct (answer be (DeleteIp (fip_id fip)) w1) as [[e|[]] w2]; simpl.
      * destruct (is_not_found_error e); simpl; right; exists fip;
          (split; [left; reflexivity|]); left;
          eexists; (split; [|right; right; left; reflexivity]); discriminate.
      * right. exists fip. split; [left; reflexivity|]. right.
        eexists. split; [|right; right; left; reflexivity]. discriminate.
  - (* security groups *)
    apply ends_after; [exact G | apply before_security_groups_safe | intros _].
    unfold clean_security_groups.
    destruct (ne_sec_groups self) as [|kv l] eqn:Hl; [destruct Hin|].
    simpl nonempty. cbv iota. rewrite <- Hl in *.
    apply ends_after; [exact G | script | intros _].
    eapply ends_for_each; [exact G | exact Hin | intros [? ?]; script |].
    cbv beta iota. unfold clean_security_group.
    apply ends_retry_loop; [exact G|]. intros j.
    unfold security_group_attempt. rewrite Hlive.
    eapply ends_try with (R1 := fun _ => True); [exact G | | intros e _].
    + apply ends_later; [exact G|]. intros _. tell.
    + retry_handler G.
  - (* networks *)
    apply ends_here; [exact G|]. unfold clean_before_security_groups.
    do 4 (apply ends_after; [exact G | script | intros _]).
    unfold clean_networks.
    eapply ends_for_each; [exact G | exact Hin | intros [? ?]; script |].
    cbv beta iota. apply ends_retry_loop; [exact G|]. intros j.
    unfold network_attempt. rewrite Hlive.
    eapply ends_try with (R1 := fun _ => True); [exact G | | intros e _].
    + apply ends_later; [exact G|]. intros _.
      apply ends_later; [exact G|]. intros _. tell.
    + retry_handler G.
  - (* routers *)
    apply ends_here; [exact G|]. unfold clean_before_security_groups.
    do 3 (apply ends_after; [exact G | script | intros _]).
    apply ends_here; [exact G|]. unfold clean_routers.
    apply ends_here; [exact G|].
    eapply ends_fold_each; [exact G | exact Hin | intros [? ?] ?; script |].
    intros router_fips. cbv beta iota. unfold clean_router. rewrite Hlive.
    apply ends_bind with (Q1 := fun got => exists router, got = Some router);
      [exact G | |].
    + eapply ends_try with (R1 := fun _ => True); [exact G | | intros e _].
      * apply ends_later; [exact G|]. intros router. apply ends_ret. eauto.
      * apply ends_here; [exact G|]. apply router_failed_accounts; reflexivity.
    + intros got [router ->].
      apply ends_after; [exact G | script | intros assigned].
      apply ends_here; [exact G|].
      eapply ends_try with (R1 := fun _ => True); [exact G | | intros e _].
      * apply ends_later; [exact G|]. intros _. tell.
      * apply router_failed_accounts; reflexivity.
Qed.

Lemma clean_accounts (c : cleaner) (rtype resname resid : string) :
  dryrun_of c = false ->
  (forall a, c = AdvancedServices a ->
             (ad_available_dns a = false -> ad_dns_zones a = None)
             /\ (ad_available_heat a = false -> ad_heat_stacks a = None)) ->
  In (rtype, resname, resid) (get_resource_list c) ->
  always (accounted rtype resname resid) (clean be resource_name_re c).
Proof.
  intros Hlive Hwf Hin. destruct c as [a|c|s|l|n]; simpl in Hlive |- *.
  - destruct (Hwf a eq_refl). apply advanced_accounts; assumption.
  - apply compute_accounts; assumption.
  - apply storage_accounts; assumption.
  - apply load_balancer_accounts; assumption.
  - apply network_accounts; assumption.
Qed.

End Accounts.

(** X12.  A run that is no dry run accounts for every row of its
    inventory: the resource is reported as deleted, as not found or as
    failed; or, for an instance, [delete_server] has accepted it and
    the wait for its deletion may have ended before it was gone. *)
Theorem live_run_accounts_for_every_resource
        (World : Type) (be : backend World) (resource_name_re : string -> bool)
        (resources : option (dict (dict string)))
        (w0 : World) (self : OpenStackCleaners) :
  result (OpenStackCleaners_init be resource_name_re resources false w0) = inr self ->
  forall (w : World) (rtype resname resid : string),
    In (rtype, resname, resid) (flat_map get_resource_list (cleaners self)) ->
    accounted rtype resname resid
              (trace (OpenStackCleaners_clean be resource_name_re self w)).
Proof.
  intros Hinit w rtype resname resid Hin.
  destruct (init_result_built _ _ _ _ _ Hinit)
    as (a & c & s & l & n & Hcs & Ha & Hc & Hs & Hl & Hn & Hdns & Hheat).
  apply in_flat_map in Hin. destruct Hin as (x & Hx & Hrow).
  assert (H : always (accounted rtype resname resid)
                     (OpenStackCleaners_clean be resource_name_re self)).
  { unfold OpenStackCleaners_clean.
    eapply ends_for_each;
      [apply grows_accounted | exact Hx | apply clean_safe |].
    rewrite Hcs in Hx.
    apply clean_accounts; [| |exact Hrow].
    - simpl in Hx.
      destruct Hx as [<-|[<-|[<-|[<-|[<-|[]]]]]]; assumption.
    - intros a' ->. simpl in Hx.
      destruct Hx as [Hx|[Hx|[Hx|[Hx|[Hx|[]]]]]]; inversion Hx; subst; auto. }
  destruct (H w) as [HP|Hres]; [exact HP|].
  destruct (result (OpenStackCleaners_clean be resource_name_re self w));
    destruct Hres.
Qed.

Lemma live_run_accounts_for_every_resource_witness :
  accounted "sec_groups" "web" "sg1"
            (trace (OpenStackCleaners_clean small_cloud (Re.search Re.default_filter)
                                            cleaners_of_instance_and_group [])).
Proof.
  refine (@live_run_accounts_for_every_resource
            (list string) small_cloud (Re.search Re.default_filter)
            instance_and_group [] cleaners_of_instance_and_group eq_refl
            [] "sec_groups" "web" "sg1" _).
  simpl. auto.
Defined.

(** ** Load balancers in a pending state *)

Definition is_delete_load_balancer (ev : event) : bool :=
  match ev with
  | Call (DeleteLoadBalancer _ _) _ => true
  | _ => false
  end.

Lemma harmless_keeps_load_balancers :
  harmless (fun ev => negb (is_delete_load_balancer ev)).
Proof.
  intros [c r| |] H; try reflexivity.
  destruct c; try reflexivity; discriminate H.
Qed.

Lemma checked_none (t : list event) :
  forallb (fun ev => negb (is_delete_load_balancer ev)) t = true ->
  checked_before_delete t.
Proof.
  intros H t1 id cascade r t2 ->.
  rewrite forallb_app in H. apply andb_true_iff in H. destruct H as [_ H].
  simpl in H. discriminate H.
Qed.

Lemma checked_app (ta tb : list event) :
  checked_before_delete ta -> checked_before_delete tb ->
  checked_before_delete (ta ++ tb).
Proof.
  intros Ha Hb t1 id cascade r t2 Heq.
  apply app_eq_app in Heq. destruct Heq as (l & [[-> Hl] | [-> Hl]]).
  - destruct l as [|ev l]; simpl in Hl.
    + destruct (Hb [] id cascade r t2 (eq_sym Hl)) as (t0 & lb & H0 & _).
      destruct t0; discriminate H0.
    + inversion Hl. subst. exact (Ha t1 id cascade r l eq_refl).
  - destruct (Hb l id cascade r t2 Hl) as (t0 & lb & -> & Hlb).
    exists (ta ++ t0), lb. rewrite app_assoc. auto.
Qed.

Lemma checked_pair (id : string) (cascade : bool) (lb : load_balancer)
      (r : exn + unit) (rest : list event) :
  in_list (provisioning_status lb) pending_states = false ->
  forallb (fun ev => negb (is_delete_load_balancer ev)) rest = true ->
  checked_before_delete
    (Call (GetLoadBalancer id) (inr lb) :: Call (DeleteLoadBalancer id cascade) r :: rest).
Proof.
  intros Hlb Hrest t1 id' cascade' r' t2 Heq.
  destruct t1 as [|x [|y t1]]; simpl in Heq.
  - discriminate Heq.
  - inversion Heq. subst. exists [], lb. auto.
  - inversion Heq as [[Hx Hy Hr]]. rewrite Hr in Hrest.
    rewrite forallb_app in Hrest. apply andb_true_iff in Hrest.
    destruct Hrest as [_ H]. simpl in H. discriminate H.
Qed.

Section Checked.
Variable World : Type.
Variable be : backend World.
Variable resource_name_re : string -> bool.

(** Every run of [m] deletes a load balancer only right after it has
    seen it in a state that is not pending. *)
Definition checks (A : Type) (m : M World A) : Prop :=
  forall w, checked_before_delete (trace (m w)).

Lemma checks_none (A : Type) (m : M World A) :
  emits (fun ev => negb (is_delete_load_balancer ev)) m -> checks m.
Proof. intros H w. apply checked_none, H. Qed.

Lemma checks_bind (A B : Type) (m : M World A) (f : A -> M World B) :
  checks m -> (forall a, checks (f a)) -> checks (bind m f).
Proof.
  intros Hm Hf w. rewrite bind_trace. apply checked_app; [apply Hm|].
  destruct (result (m w)); [apply checked_none; reflexivity | apply Hf].
Qed.

Lemma checks_for_each (X : Type) (l : list X) (body : X -> M World unit) :
  (forall x, checks (body x)) -> checks (for_each l body).
Proof.
  intros H. induction l as [|x l IH]; simpl.
  - apply checks_none, emits_ret.
  - apply checks_bind; auto.
Qed.

Lemma checks_retry_loop (n : nat) (body : nat -> M World loop_ctl) :
  (forall j, checks (body j)) -> checks (retry_loop n body).
Proof.
  intros H. induction n as [|n IH]; simpl.
  - apply checks_none, emits_ret.
  - apply checks_bind; [apply H|]. intros [|]; [apply checks_none, emits_ret | exact IH].
Qed.

(** Lines 931-944: the check ends the turn without a deletion, or it
    has just seen the load balancer in a state that is not pending. *)
Lemma check_provisioning_cases (id name : string) (retry_count : nat) (w : World) :
  (exists lb w',
      check_provisioning be id name retry_count w
      = (inr None, w', [Call (GetLoadBalancer id) (inr lb)])
      /\ in_list (provisioning_status lb) pending_states = false)
  \/ (forallb (fun ev => negb (is_delete_load_balancer ev))
              (trace (check_provisioning be id name retry_count w)) = true
      /\ result (check_provisioning be id name retry_count w) <> inr None).
Proof.
  unfold check_provisioning, try_catch, bind, invoke, report_not_found, report_error,
    emit, ret, raise, sleep.
  destruct (answer be (GetLoadBalancer id) w) as [[e|lb] w1].
  - right. destruct (exc_is_ResourceNotFound e); simpl; split;
      try reflexivity; unfold result; simpl; discriminate.
  - destruct (in_list (provisioning_status lb) pending_states) eqn:Hlb.
    + right. destruct (0 <? retry_count - 1)%nat; simpl; split;
        try reflexivity; unfold result; simpl; discriminate.
    + left. exists lb, w1. auto.
Qed.

Lemma load_balancer_attempt_checks (self : LoadBalancerCleaner) (id name : string)
      (retry_count : nat) :
  checks (load_balancer_attempt be self id name retry_count).
Proof.
  pose proof harmless_keeps_load_balancers as Hh.
  unfold load_balancer_attempt.
  destruct (lb_dryrun self) eqn:Hdry; [apply checks_none; script|].
  match goal with
  | |- context [try_catch _ ?h] => set (handler := h)
  end.
  intros w. rewrite try_trace, bind_trace, bind_result.
  assert (Hhandler : forall e w',
             forallb (fun ev => negb (is_delete_load_balancer ev))
                     (trace (handler e w')) = true).
  { intros e. change (emits (fun ev => negb (is_delete_load_balancer ev)) (handler e)).
    unfold handler. script. }
  destruct (check_provisioning_cases id name retry_count w)
    as [(lb & w1 & Hrun & Hlb) | [Hquiet Hres]].
  - rewrite Hrun. cbn [trace result final fst snd].
    match goal with
    | |- context [bind (invoke_ be ?c) ?f] => set (rest := f)
    end.
    assert (Hrest : forall w',
               forallb (fun ev => negb (is_delete_load_balancer ev))
                       (trace (rest tt w')) = true
               /\ exists b, result (rest tt w') = inr b).
    { intros w'. split.
      - revert w'.
        change (emits (fun ev => negb (is_delete_load_balancer ev)) (rest tt)).
        unfold rest. script.
      - revert w'. change (safe (rest tt)). unfold rest. script. }
    rewrite bind_trace, bind_result.
    destruct (invoke__cases be (DeleteLoadBalancer id true) w1)
      as [([] & w2 & Hd) | (e & w2 & Hd)]; rewrite Hd; cbn [trace result final fst snd].
    + destruct (Hrest w2) as [Hq [b Hb]]. rewrite Hb. rewrite app_nil_r.
      apply checked_pair; assumption.
    + rewrite app_nil_r.
      apply checked_pair; [exact Hlb | apply Hhandler].
  - apply checked_none. rewrite !forallb_app, Hquiet. simpl.
    destruct (result (check_provisioning be id name retry_count w)) as [e|[c|]].
    + simpl. apply Hhandler.
    + reflexivity.
    + destruct (Hres eq_refl).
Qed.

Lemma clean_checks (c : cleaner) : checks (clean be resource_name_re c).
Proof.
  pose proof harmless_keeps_load_balancers as Hh.
  destruct c as [a|c|s|l|n]; simpl; try solve [apply checks_none; script].
  unfold LoadBalancerCleaner_clean.
  apply checks_for_each. intros [id name].
  apply checks_retry_loop. intros j. apply load_balancer_attempt_checks.
Qed.

End Checked.

(** X13.  A run deletes a load balancer only right after
    [get_load_balancer] has answered for it with a provisioning status
    that is none of [PENDING_UPDATE], [PENDING_CREATE] and
    [PENDING_DELETE]. *)
Theorem load_balancer_deleted_only_when_settled
        (World : Type) (be : backend World) (resource_name_re : string -> bool)
        (self : OpenStackCleaners) (w : World) :
  checked_before_delete (trace (OpenStackCleaners_clean be resource_name_re self w)).
Proof.
  revert w. change (checks (OpenStackCleaners_clean be resource_name_re self)).
  unfold OpenStackCleaners_clean. apply checks_for_each. apply clean_checks.
Qed.

(** ** Properties of traces that hold of [t1 ++ t2] when they hold of
    [t1] and of [t2] *)

Section Closed.
Variable World : Type.
Variable T : list event -> Prop.
Hypothesis T_nil : T [].
Hypothesis T_app : forall t1 t2, T t1 -> T t2 -> T (t1 ++ t2).

(** The trace of every run of [m] has [T]. *)
Definition keeps (A : Type) (m : M World A) : Prop :=
  forall w, T (trace (m w)).

Lemma keeps_ret (A : Type) (a : A) : keeps (ret a).
Proof. intros w. exact T_nil. Qed.

Lemma keeps_bind (A B : Type) (m : M World A) (f : A -> M World B) :
  keeps m -> (forall a, keeps (f a)) -> keeps (bind m f).
Proof.
  intros Hm Hf w. rewrite bind_trace. apply T_app; [apply Hm|].
  destruct (result (m w)); [exact T_nil | apply Hf].
Qed.

Lemma keeps_try (A : Type) (m : M World A) (h : exn -> M World A) :
  keeps m -> (forall e, keeps (h e)) -> keeps (try_catch m h).
Proof.
  intros Hm Hh w. rewrite try_trace. apply T_app; [apply Hm|].
  destruct (result (m w)); [apply Hh | exact T_nil].
Qed.

Lemma keeps_for_each (X : Type) (l : list X) (body : X -> M World unit) :
  (forall x, keeps (body x)) -> keeps (for_each l body).
Proof.
  intros H. induction l as [|x l IH]; simpl.
  - apply keeps_ret.
  - apply keeps_bind; auto.
Qed.

Lemma keeps_fold_each (X S : Type) (l : list X) (s : S) (body : X -> S -> M World S) :
  (forall x s', keeps (body x s')) -> keeps (fold_each l s body).
Proof.
  intros H. revert s. induction l as [|x l IH]; intros s; simpl.
  - apply keeps_ret.
  - apply keeps_bind; auto.
Qed.

Lemma keeps_retry_loop (n : nat) (body : nat -> M World loop_ctl) :
  (forall j, keeps (body j)) -> keeps (retry_loop n body).
Proof.
  intros H. induction n as [|n IH]; simpl.
  - apply keeps_ret.
  - apply keeps_bind; [apply H|]. intros [|]; [apply keeps_ret | exact IH].
Qed.

End Closed.

Arguments keeps {World} T {A} m.

(** ** The ports a run deletes *)

Definition is_delete_port (ev : event) : bool :=
  match ev with
  | Call (DeletePort _) _ => true
  | _ => false
  end.

Lemma harmless_keeps_ports : harmless (fun ev => negb (is_delete_port ev)).
Proof.
  intros [c r| |] H; try reflexivity.
  destruct c; try reflexivity; discriminate H.
Qed.

Section Ports.
Variable World : Type.
Variable be : backend World.
Variable resource_name_re : string -> bool.

Local Abbreviation listed := (ports_deleted_as_listed resource_name_re).

Lemma listed_nil : listed [].
Proof. intros t1 pid r t2 H. destruct t1; discriminate H. Qed.

Lemma listed_none (t : list event) :
  forallb (fun ev => negb (is_delete_port ev)) t = true -> listed t.
Proof.
  intros H t1 pid r t2 ->.
  rewrite forallb_app in H. apply andb_true_iff in H. destruct H as [_ H].
  simpl in H. discriminate H.
Qed.

Lemma listed_app (ta tb : list event) : listed ta -> listed tb -> listed (ta ++ tb).
Proof.
  intros Ha Hb t1 pid r t2 Heq.
  apply app_eq_app in Heq. destruct Heq as (l & [[-> Hl] | [-> Hl]]).
  - destruct l as [|ev l]; simpl in Hl.
    + destruct (Hb [] pid r t2 (eq_sym Hl)) as (q & ports & [] & _).
    + inversion Hl. subst. exact (Ha t1 pid r l eq_refl).
  - destruct (Hb l pid r t2 Hl) as (q & ports & Hin & Hd).
    exists q, ports. split; [apply in_or_app; right; exact Hin | exact Hd].
Qed.

Lemma keeps_none (A : Type) (m : M World A) :
  emits (fun ev => negb (is_delete_port ev)) m -> keeps listed m.
Proof. intros H w. apply listed_none, H. Qed.

(** In the turn of [port], a port is deleted only if it is [port] and
    [port] may be deleted. *)
Definition turn_of (q : port_query) (port : port) (ev : event) : bool :=
  match ev with
  | Call (DeletePort pid) _ =>
      (pid =? port_id port)
      && negb (in_list (device_owner port) system_port_owners)
      && match q with
         | AllPorts =>
             resource_name_re (py_str (port_name port))
             || resource_name_re (port_id port)
         | PortsOfNetwork _ => negb (in_list (device_owner port) network_port_owners)
         | PortsOfDevice _ => false
         end
  | _ => true
  end.

Lemma turn_of_deletable (q : port_query) (ports : list port) (port : port)
      (pid : string) (r : exn + unit) :
  In port ports -> turn_of q port (Call (DeletePort pid) r) = true ->
  deletable_port resource_name_re q ports pid.
Proof.
  intros Hin H. simpl in H.
  apply andb_true_iff in H. destruct H as [H Hq].
  apply andb_true_iff in H. destruct H as [Hid Hsys].
  apply String.eqb_eq in Hid. apply negb_true_iff in Hsys.
  exists port. repeat split; auto.
  destruct q; [exact Hq | discriminate Hq | apply negb_true_iff, Hq].
Qed.

(** A listing of ports and the loop over what it answers. *)
Lemma listing_keeps (q : port_query) (body : port -> M World unit) :
  (forall port, emits (turn_of q port) (body port)) ->
  keeps listed (try_catch (ports <- invoke be (Ports q) ;; for_each ports body)
                          (fun _ => ret tt)).
Proof.
  intros Hbody w. rewrite try_trace, bind_trace, bind_result, invoke_trace,
    invoke_result.
  destruct (fst (answer be (Ports q) w)) as [e|ports] eqn:Hanswer.
  - apply listed_none. reflexivity.
  - set (w1 := final (invoke be (Ports q) w)).
    assert (Hnil : match result (for_each ports body w1) with
                   | inl e => trace (@ret World unit tt (final (for_each ports body w1)))
                   | inr _ => []
                   end = []).
    { destruct (result (for_each ports body w1)); reflexivity. }
    intros t1 pid r t2 Heq.
    match type of Heq with
    | (_ ++ _) ++ ?x = _ =>
        replace x with (@nil event) in Heq
          by (symmetry; destruct (result (for_each ports body w1)); reflexivity)
    end.
    rewrite app_nil_r in Heq. simpl in Heq.
    destruct t1 as [|x t1]; [discriminate Heq|].
    inversion Heq as [[Hx Hrest]]. exists q, ports. split; [left; reflexivity|].
    assert (Hin : In (Call (DeletePort pid) r) (trace (for_each ports body w1))).
    { rewrite Hrest. apply in_or_app. right. left. reflexivity. }
    destruct (in_for_each_trace _ _ _ _ Hin) as (port & w' & Hport & Hev).
    apply (turn_of_deletable q ports port pid r Hport).
    exact (forallb_in _ _ _ (Hbody port w') Hev).
Qed.

Lemma owners_of_line_826 (owner : string) :
  in_list owner network_port_owners = false ->
  in_list owner system_port_owners = false.
Proof.
  unfold in_list, network_port_owners, system_port_owners. simpl.
  destruct (owner =? "network:dhcp"), (owner =? "network:router_interface"),
    (owner =? "network:router_gateway"); simpl; intros H; try discriminate H;
    reflexivity.
Qed.

Lemma sweep_ports_keeps (self : NetworkCleaner) :
  keeps listed (sweep_ports be resource_name_re self).
Proof.
  unfold sweep_ports. apply listing_keeps. intros port. cbv zeta.
  destruct (resource_name_re (py_str (port_name port))
            || resource_name_re (port_id port)) eqn:Hmatch; [|script].
  destruct (in_list (device_owner port) system_port_owners) eqn:Hsys; simpl;
    [script|].
  destruct (ne_dryrun self); [script|].
  unfold invoke_. script.
  apply emits_invoke. intros r. unfold turn_of.
  rewrite String.eqb_refl, Hsys, Hmatch. reflexivity.
Qed.

Lemma delete_remaining_ports_keeps (id : string) :
  keeps listed (delete_remaining_ports be id).
Proof.
  unfold delete_remaining_ports. apply listing_keeps. intros port.
  destruct (in_list (device_owner port) network_port_owners) eqn:Hnet; [script|].
  unfold invoke_. script.
  apply emits_invoke. intros r. unfold turn_of.
  rewrite String.eqb_refl, (owners_of_line_826 _ Hnet), Hnet. reflexivity.
Qed.

Lemma clean_keeps_ports (c : cleaner) :
  keeps listed (clean be resource_name_re c).
Proof.
  pose proof harmless_keeps_ports as Hh.
  destruct c as [a|c|s|l|n]; simpl; try solve [apply keeps_none; script].
  unfold NetworkCleaner_clean, clean_before_security_groups.
  apply keeps_bind; [exact listed_nil | exact listed_app | | intros _].
  - apply keeps_bind; [exact listed_nil | exact listed_app | | intros _];
      [apply keeps_none; script|].
    apply keeps_bind; [exact listed_nil | exact listed_app | | intros _];
      [apply keeps_none; script|].
    apply keeps_bind; [exact listed_nil | exact listed_app | | intros _];
      [apply sweep_ports_keeps|].
    apply keeps_bind; [exact listed_nil | exact listed_app | | intros _];
      [apply keeps_none; script|].
    unfold clean_networks.
    apply keeps_for_each; [exact listed_nil | exact listed_app |]. intros [id name].
    apply keeps_retry_loop; [exact listed_nil | exact listed_app |]. intros j.
    unfold network_attempt.
    apply keeps_try; [exact listed_nil | exact listed_app | | intros e;
                                                               apply keeps_none; script].
    destruct (ne_dryrun n); [apply keeps_none; script|].
    apply keeps_bind; [exact listed_nil | exact listed_app | | intros _];
      [apply delete_remaining_ports_keeps | apply keeps_none; script].
  - apply keeps_none. script.
Qed.

End Ports.

(** X14.  A run deletes a port only after a listing has shown it: in
    the sweep over all ports, as a port that the filter matches by
    name or id and whose device owner is none of router interface,
    DHCP and router gateway; among the ports of a network of the
    inventory, as a port whose device owner is none of these three
    and not [network:floatingip]. *)
Theorem ports_deleted_only_as_listed
        (World : Type) (be : backend World) (resource_name_re : string -> bool)
        (self : OpenStackCleaners) (w : World) :
  ports_deleted_as_listed resource_name_re
    (trace (OpenStackCleaners_clean be resource_name_re self w)).
Proof.
  revert w.
  change (keeps (ports_deleted_as_listed resource_name_re)
                (OpenStackCleaners_clean be resource_name_re self)).
  unfold OpenStackCleaners_clean.
  apply keeps_for_each; [apply listed_nil | apply listed_app | apply clean_keeps_ports].
Qed.

(** ** The report of a deleted instance *)

Definition instance_deleted (ev : event) : bool :=
  match ev with
  | Report o rtype _ =>
      (rtype =? "INSTANCE") && match o with Deleted => true | _ => false end
  | _ => false
  end.

Lemma get_in (V : Type) (k : string) (v : V) (d : dict V) :
  Dict.get k d = Some v -> In (k, v) d.
Proof.
  induction d as [|[k0 v0] d IH]; simpl; [discriminate|].
  destruct (String.eqb_spec k0 k) as [->|_].
  - intros H. inversion H. left. reflexivity.
  - intros H. right. exact (IH H).
Qed.

Lemma remove_in (V : Type) (k : string) (x : string * V) (d : dict V) :
  In x (Dict.remove k d) -> In x d.
Proof.
  induction d as [|[k0 v0] d IH]; simpl; [auto|].
  destruct (k0 =? k); simpl; [auto|]. intros [H|H]; auto.
Qed.

Section Confirmed.
Variable World : Type.
Variable be : backend World.
Variable resource_name_re : string -> bool.
Variable rows : list (string * string * string).

Local Abbreviation confirmed := (deletion_confirmed rows).

Lemma confirmed_nil : confirmed [].
Proof. intros t1 name t2 H. destruct t1; discriminate H. Qed.

Lemma confirmed_none (t : list event) :
  forallb (fun ev => negb (instance_deleted ev)) t = true -> confirmed t.
Proof.
  intros H t1 name t2 ->.
  rewrite forallb_app in H. apply andb_true_iff in H. destruct H as [_ H].
  simpl in H. discriminate H.
Qed.

Lemma confirmed_app (ta tb : list event) :
  confirmed ta -> confirmed tb -> confirmed (ta ++ tb).
Proof.
  intros Ha Hb t1 name t2 Heq.
  apply app_eq_app in Heq. destruct Heq as (l & [[-> Hl] | [-> Hl]]).
  - destruct l as [|ev l]; simpl in Hl.
    + destruct (Hb [] name t2 (eq_sym Hl)) as (t0 & id & e & H0 & _).
      destruct t0; discriminate H0.
    + inversion Hl. subst. exact (Ha t1 name l eq_refl).
  - destruct (Hb l name t2 Hl) as (t0 & id & e & -> & He).
    exists (ta ++ t0), id, e. rewrite app_assoc. auto.
Qed.

Lemma confirms_none (A : Type) (m : M World A) :
  emits (fun ev => negb (instance_deleted ev)) m -> keeps confirmed m.
Proof. intros H w. apply confirmed_none, H. Qed.

(** The instances waited for are instances of [rows], under their
    names. *)
Definition waited_for (d : dict string) : Prop :=
  forall id name, In (id, name) d -> In ("instances", name, id) rows.

(** One turn of the loop of lines 535-541. *)
Lemma check_instance_confirms (self : ComputeCleaner) (ins_id : string)
      (deleting : dict string) (w : World) :
  waited_for deleting ->
  let turn :=
    try_catch
      (invoke_ be (GetServer ins_id) ;; ret deleting)
      (fun e =>
         if is_not_found_error e
         then match Dict.get ins_id deleting with
              | Some ins_name =>
                  report_deletion (co_dryrun self) "INSTANCE" ins_name ;;
                  ret (Dict.remove ins_id deleting)
              | None => raise (KeyError ins_id)
              end
         else ret deleting) in
  confirmed (trace (turn w))
  /\ forall d', result (turn w) = inr d' -> waited_for d'.
Proof.
  intros Hd turn. subst turn.
  unfold try_catch, bind, invoke_, bind, invoke, report_deletion, emit, ret, raise.
  destruct (answer be (GetServer ins_id) w) as [[e|r] w1]; simpl.
  2:{ split; [apply confirmed_none; reflexivity|].
      intros d' H. inversion H. subst. exact Hd. }
  destruct (is_not_found_error e) eqn:Hnf; simpl.
  2:{ split; [apply confirmed_none; reflexivity|].
      intros d' H. inversion H. subst. exact Hd. }
  destruct (Dict.get ins_id deleting) as [ins_name|] eqn:Hget; simpl.
  2:{ split; [apply confirmed_none; reflexivity | discriminate]. }
  split.
  - destruct (co_dryrun self); [apply confirmed_none; reflexivity|].
    intros t1 name t2 Heq.
    destruct t1 as [|x [|y t1]]; simpl in Heq.
    + discriminate Heq.
    + inversion Heq. subst. exists [], ins_id, e.
      split; [reflexivity|]. split; [exact Hnf|]. apply Hd, get_in, Hget.
    + inversion Heq as [[Hx Hy Hr]]. destruct t1; discriminate Hr.
  - intros d' H. inversion H. subst. intros id name Hin.
    apply Hd. exact (remove_in _ _ _ Hin).
Qed.

Lemma check_instances_confirms (self : ComputeCleaner) (ks : list string) :
  forall (d : dict string) (w : World),
    waited_for d ->
    confirmed (trace (check_instances be self ks d w))
    /\ forall d', result (check_instances be self ks d w) = inr d' -> waited_for d'.
Proof.
  unfold check_instances.
  induction ks as [|ins_id ks IH]; intros d w Hd; cbn [fold_each].
  - split; [apply confirmed_nil|]. intros d' H. inversion H. subst. exact Hd.
  - rewrite bind_trace, bind_result.
    destruct (check_instance_confirms self ins_id w Hd) as [Ht Hr].
    cbv zeta in Ht, Hr.
    match goal with
    | |- context [result (?m w)] => destruct (result (m w)) as [e|d1] eqn:Hres
    end.
    + split; [rewrite app_nil_r; exact Ht | discriminate].
    + match goal with
      | |- context [final (?m w)] => set (w1 := final (m w))
      end.
      destruct (IH d1 w1 (Hr d1 eq_refl)) as [Ht' Hr'].
      split; [apply confirmed_app; assumption | exact Hr'].
Qed.

Lemma wait_while_confirms (self : ComputeCleaner) (n : nat) :
  forall d : dict string,
    waited_for d -> keeps confirmed (wait_while be self n d).
Proof.
  induction n as [|n IH]; intros d Hd; simpl.
  - apply confirms_none. script.
  - destruct (nonempty d); [|apply confirms_none; script].
    intros w. rewrite bind_trace.
    destruct (check_instances_confirms self (Dict.keys d) w Hd) as [Ht Hr].
    apply confirmed_app; [exact Ht|].
    destruct (result (check_instances be self (Dict.keys d) d w)) as [e|d'];
      [apply confirmed_nil|].
    revert w Ht Hr. intros w _ Hr.
    generalize (final (check_instances be self (Dict.keys d) d w)).
    apply keeps_bind; [exact confirmed_nil | exact confirmed_app | | intros _].
    + apply confirms_none. script.
    + apply IH. apply Hr. reflexivity.
Qed.

Lemma verify_attempts_unconfirmed (resource_type resource_id : string)
      (n delay : nat) :
  emits (fun ev => negb (instance_deleted ev))
        (verify_attempts be resource_type resource_id n delay).
Proof. induction n as [|n IH]; simpl; script. exact IH. Qed.

Lemma ensures_fold_each (X S : Type) (I : S -> Prop) (l : list X) (s : S)
      (body : X -> S -> M World S) :
  (forall x s', I s' -> ensures (body x s') I) -> I s -> ensures (fold_each l s body) I.
Proof.
  intros H. revert s. induction l as [|x l IH]; intros s Hs; simpl.
  - apply ensures_ret. exact Hs.
  - apply ensures_bind_with with (Q1 := I); [apply H; exact Hs | exact IH].
Qed.

(** The loop of lines 466-488 takes instances off the list and adds
    none. *)
Lemma clean_instances_waited_for (self : ComputeCleaner) :
  waited_for (co_instances self) ->
  ensures (clean_instances be self) waited_for.
Proof.
  intros Hrows. unfold clean_instances.
  apply ensures_fold_each; [|exact Hrows].
  intros [ins_id ins_name] d Hd.
  apply ensures_try.
  - apply ensures_bind. intros instance. apply ensures_bind. intros _.
    apply ensures_ret. exact Hd.
  - intros e. destruct (is_not_found_error e).
    + apply ensures_bind. intros _. apply ensures_ret.
      intros id name Hin. apply Hd. exact (remove_in _ _ _ Hin).
    + apply ensures_bind. intros _. apply ensures_ret. exact Hd.
Qed.

Lemma clean_confirms (c : cleaner) :
  incl (get_resource_list c) rows ->
  keeps confirmed (clean be resource_name_re c).
Proof.
  intros Hrows. destruct c as [a|c|s|l|n]; simpl.
  - apply confirms_none. script.
  - unfold ComputeCleaner_clean. intros w. rewrite bind_trace.
    apply confirmed_app.
    { revert w. apply confirms_none. script. }
    destruct (result (clean_instances be c w)) as [e|d] eqn:Hres;
      [apply confirmed_nil|].
    assert (Hd : waited_for d).
    { apply (@clean_instances_waited_for c) with (w := w); [|exact Hres].
      intros id name Hin. apply Hrows. simpl. apply in_or_app. left.
      apply rows_in. exact Hin. }
    generalize (final (clean_instances be c w)).
    apply keeps_bind; [exact confirmed_nil | exact confirmed_app | | intros _].
    + destruct (negb (co_dryrun c) && nonempty d);
        [apply wait_while_confirms; exact Hd | apply confirms_none; script].
    + apply confirms_none. script.
  - apply confirms_none. script.
  - apply confirms_none. script. apply verify_attempts_unconfirmed.
  - apply confirms_none. script.
Qed.

Lemma clean_all_confirms (l : list cleaner) :
  incl (flat_map get_resource_list l) rows ->
  keeps confirmed (for_each l (clean be resource_name_re)).
Proof.
  induction l as [|c l IH]; intros Hrows; simpl.
  - apply confirms_none. script.
  - apply keeps_bind; [exact confirmed_nil | exact confirmed_app | | intros _].
    + apply clean_confirms. intros row Hin. apply Hrows. simpl.
      apply in_or_app. left. exact Hin.
    + apply IH. intros row Hin. apply Hrows. simpl. apply in_or_app. right. exact Hin.
Qed.

End Confirmed.

(** X15.  A run prints [INSTANCE name is successfully deleted] only
    right after [get_server] has raised, for the id of an instance of
    the inventory that has this name, an exception that the script
    takes for "not found" (the type has [NotFound] in its name or the
    message has [404]). *)
Theorem instance_reported_deleted_only_when_gone
        (World : Type) (be : backend World) (resource_name_re : string -> bool)
        (self : OpenStackCleaners) (w : World) :
  deletion_confirmed (flat_map get_resource_list (cleaners self))
                     (trace (OpenStackCleaners_clean be resource_name_re self w)).
Proof.
  revert w. unfold OpenStackCleaners_clean.
  apply (@clean_all_confirms World be resource_name_re
           (flat_map get_resource_list (cleaners self)) (cleaners self)).
  apply incl_refl.
Qed.

Section Pending.
Variable World : Type.
Variable be : backend World.
Variable self : LoadBalancerCleaner.
Variables id name : string.
Hypothesis live : lb_dryrun self = false.

(** Lines 931-941: a turn that finds the load balancer pending. *)
Lemma load_balancer_attempt_pending (retry_count : nat) (w w1 : World)
      (lb : load_balancer) :
  answer be (GetLoadBalancer id) w = (inr lb, w1) ->
  in_list (provisioning_status lb) pending_states = true ->
  load_balancer_attempt be self id name retry_count w
  = if (0 <? retry_count - 1)%nat
    then (inr Retry, wait be DEFAULT_LB_RETRY_DELAY w1,
          [Call (GetLoadBalancer id) (inr lb); Sleep DEFAULT_LB_RETRY_DELAY])
    else (inr Break, w1,
          [Call (GetLoadBalancer id) (inr lb);
           Report (Failed ("Still in " +++ provisioning_status lb
                           +++ " state after retries"))
                  "LOAD BALANCER" name]).
Proof.
  intros H Hpending.
  unfold load_balancer_attempt, check_provisioning. rewrite live.
  unfold try_catch, bind, invoke. rewrite H, Hpending.
  destruct (0 <? retry_count - 1)%nat; reflexivity.
Qed.

End Pending.

(** X16.  A load balancer that [get_load_balancer] shows in a pending
    state three times, ten seconds apart, is not deleted: the run
    reports it as failed, [Still in ... state after retries], and goes
    on to the next one. *)
Theorem load_balancer_left_alone_while_pending
        (World : Type) (be : backend World) (self : LoadBalancerCleaner)
        (id name : string) (w w1 w2 w3 : World) (lb1 lb2 lb3 : load_balancer) :
  lb_dryrun self = false ->
  answer be (GetLoadBalancer id) w = (inr lb1, w1) ->
  in_list (provisioning_status lb1) pending_states = true ->
  answer be (GetLoadBalancer id) (wait be 10 w1) = (inr lb2, w2) ->
  in_list (provisioning_status lb2) pending_states = true ->
  answer be (GetLoadBalancer id) (wait be 10 w2) = (inr lb3, w3) ->
  in_list (provisioning_status lb3) pending_states = true ->
  retry_loop DEFAULT_RETRY_COUNT (load_balancer_attempt be self id name) w
  = (inr tt, w3,
     [Call (GetLoadBalancer id) (inr lb1); Sleep 10;
      Call (GetLoadBalancer id) (inr lb2); Sleep 10;
      Call (GetLoadBalancer id) (inr lb3);
      Report (Failed ("Still in " +++ provisioning_status lb3
                      +++ " state after retries"))
             "LOAD BALANCER" name]).
Proof.
  intros live H1 P1 H2 P2 H3 P3.
  pose proof (@load_balancer_attempt_pending World be self id name live 3 w w1 lb1 H1 P1) as A1.
  pose proof (@load_balancer_attempt_pending World be self id name live 2 (wait be 10 w1) w2 lb2 H2 P2) as A2.
  pose proof (@load_balancer_attempt_pending World be self id name live 1 (wait be 10 w2) w3 lb3 H3 P3) as A3.
  simpl in A1, A2, A3. unfold DEFAULT_RETRY_COUNT. simpl.
  eapply run_then_eq; [exact A1 | | reflexivity].
  eapply run_then_eq; [exact A2 | | reflexivity].
  eapply run_then_eq; [exact A3 | reflexivity | reflexivity].
Qed.

Lemma load_balancer_left_alone_while_pending_witness :
  LoadBalancerCleaner_clean pending_cloud live_load_balancers tt
  = (inr tt, tt,
     [Call (GetLoadBalancer "lb1") (inr (mk_load_balancer "PENDING_UPDATE")); Sleep 10;
      Call (GetLoadBalancer "lb1") (inr (mk_load_balancer "PENDING_UPDATE")); Sleep 10;
      Call (GetLoadBalancer "lb1") (inr (mk_load_balancer "PENDING_UPDATE"));
      Report (Failed "Still in PENDING_UPDATE state after retries")
             "LOAD BALANCER" "front"]).
Proof.
  unfold LoadBalancerCleaner_clean. cbn [for_each lb_loadbalancers live_load_balancers].
  eapply run_then_eq;
    [ exact (@load_balancer_left_alone_while_pending
               unit pending_cloud live_load_balancers "lb1" "front" tt tt tt tt
               (mk_load_balancer "PENDING_UPDATE") (mk_load_balancer "PENDING_UPDATE")
               (mk_load_balancer "PENDING_UPDATE")
               eq_refl eq_refl eq_refl eq_refl eq_refl eq_refl eq_refl)
    | reflexivity
    | reflexivity ].
Defined.

(** ** The time spent in [time.sleep] *)

Lemma slept_app (t1 t2 : list event) : slept (t1 ++ t2) = slept t1 + slept t2.
Proof.
  induction t1 as [|ev t1 IH]; simpl; [reflexivity|].
  destruct ev; simpl; rewrite IH; lia.
Qed.

Lemma slept_none (t : list event) :
  forallb (fun ev => negb (is_sleep ev)) t = true -> slept t = 0.
Proof.
  induction t as [|ev t IH]; simpl; [reflexivity|].
  intros H. apply andb_true_iff in H. destruct H as [Hev Ht].
  destruct ev; simpl in *; auto. discriminate Hev.
Qed.

Section Sleeps.
Variable World : Type.
Variable be : backend World.

(** No run of [m] sleeps more than [n] seconds. *)
Definition sleeps (n : nat) (A : Type) (m : M World A) : Prop :=
  forall w, slept (trace (m w)) <= n.

Lemma sleeps_none (n : nat) (A : Type) (m : M World A) :
  emits (fun ev => negb (is_sleep ev)) m -> sleeps n m.
Proof. intros H w. rewrite (slept_none _ (H w)). lia. Qed.

Lemma sleeps_weaken (n n' : nat) (A : Type) (m : M World A) :
  n <= n' -> sleeps n m -> sleeps n' m.
Proof. intros Hn H w. specialize (H w). lia. Qed.

Lemma sleeps_bind (n1 n2 n : nat) (A B : Type) (m : M World A) (f : A -> M World B) :
  sleeps n1 m -> (forall a, sleeps n2 (f a)) -> n1 + n2 <= n -> sleeps n (bind m f).
Proof.
  intros Hm Hf Hn w. rewrite bind_trace, slept_app.
  specialize (Hm w). destruct (result (m w)) as [e|a].
  - simpl. lia.
  - specialize (Hf a (final (m w))). lia.
Qed.

Lemma sleeps_try (n1 n2 n : nat) (A : Type) (m : M World A) (h : exn -> M World A) :
  sleeps n1 m -> (forall e, sleeps n2 (h e)) -> n1 + n2 <= n ->
  sleeps n (try_catch m h).
Proof.
  intros Hm Hh Hn w. rewrite try_trace, slept_app.
  specialize (Hm w). destruct (result (m w)) as [e|a].
  - specialize (Hh e (final (m w))). lia.
  - simpl. lia.
Qed.

Lemma sleeps_sleep (seconds : nat) : sleeps seconds (sleep be seconds).
Proof. intros w. simpl. lia. Qed.

Lemma sleeps_for_each (k : nat) (X : Type) (l : list X) (body : X -> M World unit) :
  (forall x, sleeps k (body x)) -> sleeps (k * List.length l) (for_each l body).
Proof.
  intros H. induction l as [|x l IH]; simpl.
  - intros w. simpl. apply Nat.le_0_l.
  - apply sleeps_bind with (n1 := k) (n2 := k * List.length l); [apply H | auto | lia].
Qed.

Lemma sleeps_fold_each (k : nat) (X S : Type) (l : list X) (s : S)
      (body : X -> S -> M World S) :
  (forall x s', sleeps k (body x s')) ->
  sleeps (k * List.length l) (fold_each l s body).
Proof.
  intros H. revert s. induction l as [|x l IH]; intros s; simpl.
  - intros w. simpl. apply Nat.le_0_l.
  - apply sleeps_bind with (n1 := k) (n2 := k * List.length l); [apply H | auto | lia].
Qed.

(** The waits of a retry loop whose turn [j] waits only while turns
    are left. *)
Lemma sleeps_retry_loop (k n : nat) (body : nat -> M World loop_ctl) :
  (forall j, sleeps (if (0 <? j - 1)%nat then k else 0) (body j)) ->
  sleeps (k * (n - 1)) (retry_loop n body).
Proof.
  intros H. induction n as [|n IH]; simpl.
  - intros w. simpl. apply Nat.le_0_l.
  - apply sleeps_bind
      with (n1 := if (0 <? S n - 1)%nat then k else 0) (n2 := k * (n - 1));
      [apply H | |].
    + intros [|]; [intros w; simpl; apply Nat.le_0_l | exact IH].
    + destruct (0 <? S n - 1)%nat eqn:E; [|lia].
      apply Nat.ltb_lt in E. nia.
Qed.

Lemma verify_attempts_sleeps (resource_type resource_id : string) (n delay : nat) :
  sleeps (delay * n) (verify_attempts be resource_type resource_id n delay).
Proof.
  induction n as [|n IH]; simpl.
  - intros w. simpl. apply Nat.le_0_l.
  - apply sleeps_bind with (n1 := delay) (n2 := delay * n); [| |lia].
    + apply sleeps_try with (n1 := delay) (n2 := 0); [| |lia].
      * apply sleeps_bind with (n1 := delay) (n2 := 0); [apply sleeps_sleep | |lia].
        intros _. apply sleeps_none. script.
      * intros e. apply sleeps_none. script.
    + intros [b|]; [apply sleeps_none; script | exact IH].
Qed.

Lemma wait_while_sleeps (self : ComputeCleaner) (n : nat) (d : dict string) :
  sleeps (2 * (n - 1)) (wait_while be self n d).
Proof.
  revert d. induction n as [|n IH]; intros d; simpl.
  - intros w. simpl. apply Nat.le_0_l.
  - destruct (nonempty d); [|apply sleeps_none; script].
    apply sleeps_bind with (n1 := 0) (n2 := 2 * (S n - 1));
      [apply sleeps_none; unfold check_instances; script | | lia].
    intros d'.
    apply sleeps_bind
      with (n1 := if (0 <? n)%nat then 2 else 0) (n2 := 2 * (n - 1)).
    + destruct (nonempty d' && (0 <? n)%nat) eqn:E.
      * apply andb_true_iff in E. destruct E as [_ E]. rewrite E.
        apply sleeps_sleep.
      * apply sleeps_none. script.
    + intros _. apply IH.
    + destruct (0 <? n)%nat eqn:E; [|lia]. apply Nat.ltb_lt in E. lia.
Qed.

End Sleeps.

Arguments sleeps {World} n {A} m.

(** A part of the script that does not sleep. *)
Ltac awake := solve [apply sleeps_none; script].

Section Budget.
Variable World : Type.
Variable be : backend World.
Variable resource_name_re : string -> bool.

Lemma network_attempt_sleeps (self : NetworkCleaner) (id name : string) (j : nat) :
  sleeps (if (0 <? j - 1)%nat then 5 else 0) (network_attempt be self id name j).
Proof.
  unfold network_attempt.
  apply sleeps_try with (n1 := 0) (n2 := if (0 <? j - 1)%nat then 5 else 0);
    [awake | | lia].
  intros e. destruct (is_not_found_error e); [awake|].
  destruct (network_in_use e); [|awake].
  cbv zeta. destruct (0 <? j - 1)%nat; [|awake].
  apply sleeps_bind with (n1 := 5) (n2 := 0); [apply sleeps_sleep | intros; awake | lia].
Qed.

Lemma security_group_attempt_sleeps (self : NetworkCleaner) (id name : string)
      (j : nat) :
  sleeps (if (0 <? j - 1)%nat then 5 else 0) (security_group_attempt be self id name j).
Proof.
  unfold security_group_attempt.
  apply sleeps_try with (n1 := 0) (n2 := if (0 <? j - 1)%nat then 5 else 0);
    [awake | | lia].
  intros e. destruct (is_not_found_error e); [awake|].
  destruct (security_group_in_use e); [|awake].
  cbv zeta. destruct (0 <? j - 1)%nat; [|awake].
  apply sleeps_bind with (n1 := 5) (n2 := 0); [apply sleeps_sleep | intros; awake | lia].
Qed.

Lemma clean_router_sleeps (self : NetworkCleaner)
      (router_fips : option (list floating_ip)) (id name : string) :
  sleeps 5 (clean_router be self router_fips id name).
Proof.
  unfold clean_router. destruct (ne_dryrun self); [awake|].
  apply sleeps_bind with (n1 := 0) (n2 := 5); [awake | | lia].
  intros [router|]; [|awake].
  apply sleeps_bind with (n1 := 0) (n2 := 5); [awake | | lia].
  intros assigned.
  apply sleeps_bind with (n1 := 5) (n2 := 0); [| intros; awake | lia].
  apply sleeps_try with (n1 := 5) (n2 := 0); [| intros; awake | lia].
  apply sleeps_bind with (n1 := 5) (n2 := 0); [| intros; awake | lia].
  unfold unplug_and_delete_router.
  apply sleeps_bind with (n1 := 5) (n2 := 0); [| intros; awake | lia].
  destruct assigned as [fips|]; [|destruct router_fips as [fips|]; [|awake]];
    (destruct (nonempty fips); [apply sleeps_sleep | awake]).
Qed.

Lemma NetworkCleaner_clean_sleeps (self : NetworkCleaner) :
  sleeps (sleep_budget (Network self)) (NetworkCleaner_clean be resource_name_re self).
Proof.
  unfold NetworkCleaner_clean, clean_before_security_groups, sleep_budget.
  apply sleeps_bind
    with (n1 := 5 * List.length (ne_routers self) + 10 * List.length (ne_networks self))
         (n2 := 5 + 10 * List.length (ne_sec_groups self)); [| |lia].
  - apply sleeps_bind with (n1 := 0)
      (n2 := 5 * List.length (ne_routers self) + 10 * List.length (ne_networks self));
      [awake | intros _ | lia].
    apply sleeps_bind with (n1 := 0)
      (n2 := 5 * List.length (ne_routers self) + 10 * List.length (ne_networks self));
      [awake | intros _ | lia].
    apply sleeps_bind with (n1 := 0)
      (n2 := 5 * List.length (ne_routers self) + 10 * List.length (ne_networks self));
      [awake | intros _ | lia].
    apply sleeps_bind with (n1 := 5 * List.length (ne_routers self))
      (n2 := 10 * List.length (ne_networks self)); [| intros _ | lia].
    + unfold clean_routers.
      apply sleeps_bind with (n1 := 5 * List.length (ne_routers self)) (n2 := 0);
        [| intros; awake | lia].
      apply sleeps_fold_each. intros [id name] s. apply clean_router_sleeps.
    + unfold clean_networks. apply sleeps_for_each. intros [id name].
      apply sleeps_retry_loop with (k := 5) (n := 3). apply network_attempt_sleeps.
  - intros _. unfold clean_security_groups.
    destruct (nonempty (ne_sec_groups self)); [|awake].
    apply sleeps_bind with (n1 := 5) (n2 := 10 * List.length (ne_sec_groups self));
      [| intros _ | lia].
    + destruct (negb (ne_dryrun self)); [apply sleeps_sleep | awake].
    + apply sleeps_for_each. intros [id name]. unfold clean_security_group.
      apply sleeps_retry_loop with (k := 5) (n := 3). apply security_group_attempt_sleeps.
Qed.

Lemma ComputeCleaner_clean_sleeps (self : ComputeCleaner) :
  sleeps (sleep_budget (Compute self)) (ComputeCleaner_clean be self).
Proof.
  unfold ComputeCleaner_clean, sleep_budget.
  apply sleeps_bind with (n1 := 0) (n2 := 58); [awake | | lia].
  intros deleting_instances.
  apply sleeps_bind with (n1 := 58) (n2 := 0); [| intros; awake | lia].
  destruct (negb (co_dryrun self) && nonempty deleting_instances); [|awake].
  unfold _wait_for_instance_deletion.
  apply (wait_while_sleeps be self DEFAULT_INSTANCE_DELETE_RETRIES).
Qed.

(** Lines 931-944 wait only to try again, and only while turns are
    left. *)
Lemma check_provisioning_sleeps (id name : string) (j : nat) (w : World) :
  slept (trace (check_provisioning be id name j w)) = 0
  \/ (slept (trace (check_provisioning be id name j w))
      <= (if (0 <? j - 1)%nat then 10 else 0)
      /\ exists c, result (check_provisioning be id name j w) = inr (Some c)).
Proof.
  unfold check_provisioning, try_catch, bind, invoke, report_not_found, report_error,
    emit, ret, raise, sleep.
  destruct (answer be (GetLoadBalancer id) w) as [[e|lb] w1].
  - left. destruct (exc_is_ResourceNotFound e); reflexivity.
  - destruct (in_list (provisioning_status lb) pending_states).
    + destruct (0 <? j - 1)%nat; [right | left; reflexivity].
      split; [simpl; lia | exists Retry; reflexivity].
    + left. reflexivity.
Qed.

(** One turn of the loop of lines 925-968 waits to try again, or
    waits for the deletion to show and ends the loop. *)
Lemma load_balancer_attempt_sleeps (self : LoadBalancerCleaner) (id name : string)
      (j : nat) (w : World) :
  slept (trace (load_balancer_attempt be self id name j w))
  <= (if (0 <? j - 1)%nat then 10 else 0)
  \/ (slept (trace (load_balancer_attempt be self id name j w)) <= 20
      /\ result (load_balancer_attempt be self id name j w) = inr Break).
Proof.
  unfold load_balancer_attempt.
  match goal with
  | |- context [try_catch _ ?h] => set (handler := h)
  end.
  assert (Hhandler : forall e, sleeps (if (0 <? j - 1)%nat then 10 else 0) (handler e)).
  { intros e. unfold handler. destruct (exc_is_ResourceNotFound e); [awake|].
    destruct (Str.contains "ConflictException" (exc_type e)
              || Str.contains "409" (exc_str e)); [|awake].
    cbv zeta. destruct (0 <? j - 1)%nat; [|awake].
    apply sleeps_bind with (n1 := 10) (n2 := 0);
      [apply sleeps_sleep | intros; awake | lia]. }
  destruct (lb_dryrun self) eqn:Hdry.
  { left. revert w.
    match goal with
    | |- forall w, slept (trace (?m w)) <= ?n => change (sleeps n m)
    end.
    apply sleeps_try with (n1 := 0) (n2 := if (0 <? j - 1)%nat then 10 else 0);
      [awake | exact Hhandler | lia]. }
  rewrite try_trace, try_result, bind_trace, bind_result.
  destruct (check_provisioning_sleeps id name j w) as [Hnone | [Hwait [c Hc]]].
  - rewrite !slept_app, Hnone.
    destruct (result (check_provisioning be id name j w)) as [e|[c|]].
    + left. cbn [slept]. apply (Hhandler e).
    + left. cbn. apply Nat.le_0_l.
    + match goal with
      | |- context [bind (invoke_ be ?c) ?f] => set (rest := f)
      end.
      assert (Hrest : forall w',
                 slept (trace (rest tt w')) <= 20 /\ result (rest tt w') = inr Break).
      { intros w'. split.
        - revert w'.
          match goal with
          | |- forall w, slept (trace (?m w)) <= ?n => change (sleeps n m)
          end.
          unfold rest.
          apply sleeps_bind with (n1 := 0) (n2 := 20); [awake | intros _ | lia].
          apply sleeps_bind with (n1 := 20) (n2 := 0); [| intros; awake | lia].
          destruct (lb_monitor self) as [monitor|]; [|awake].
          apply sleeps_bind with (n1 := 20) (n2 := 0); [| intros; awake | lia].
          unfold verify_resource_deleted. destruct (mon_dryrun monitor); [awake|].
          apply (verify_attempts_sleeps be "LOAD BALANCER" id 10 2).
        - assert (Hsafe : safe (rest tt)) by (unfold rest; script).
          assert (Hret : ensures (rest tt) (fun c => c = Break)).
          { unfold rest. apply ensures_bind. intros _.
            apply ensures_bind. intros _. apply ensures_ret. reflexivity. }
          destruct (Hsafe w') as [c Hc]. rewrite Hc. f_equal. exact (Hret w' c Hc). }
      rewrite bind_trace, bind_result.
      destruct (invoke__cases be (DeleteLoadBalancer id true) (final (check_provisioning be id name j w)))
        as [([] & w2 & Hd) | (e & w2 & Hd)]; rewrite Hd; cbn [trace result final fst snd].
      * right. destruct (Hrest w2) as [Hs Hb]. rewrite Hb.
        rewrite !slept_app. cbn [slept]. split; [lia | reflexivity].
      * left. rewrite !slept_app. cbn [slept]. apply (Hhandler e).
  - left. rewrite Hc. cbn [trace result final ret fst snd].
    rewrite !slept_app. cbn [slept]. lia.
Qed.

Lemma load_balancer_loop_sleeps (self : LoadBalancerCleaner) (id name : string)
      (n : nat) :
  sleeps (10 * (n - 1) + 20) (retry_loop n (load_balancer_attempt be self id name)).
Proof.
  induction n as [|n IH]; intros w; [simpl; lia|].
  cbn [retry_loop]. rewrite bind_trace, slept_app.
  destruct (load_balancer_attempt_sleeps self id name (S n) w) as [Hwait | [Hwait Hb]].
  - assert (Hn : (if (0 <? S n - 1)%nat then 10 else 0) + (10 * (n - 1) + 20)
                 <= 10 * (S n - 1) + 20).
    { destruct (0 <? S n - 1)%nat eqn:E; [|lia]. apply Nat.ltb_lt in E. lia. }
    destruct (result (load_balancer_attempt be self id name (S n) w)) as [e|[|]].
    + cbn [slept]. lia.
    + cbn. lia.
    + specialize (IH (final (load_balancer_attempt be self id name (S n) w))). lia.
  - rewrite Hb. cbn. lia.
Qed.

Lemma LoadBalancerCleaner_clean_sleeps (self : LoadBalancerCleaner) :
  sleeps (sleep_budget (LoadBalancer self)) (LoadBalancerCleaner_clean be self).
Proof.
  unfold LoadBalancerCleaner_clean, sleep_budget.
  apply sleeps_for_each. intros [id name].
  apply (load_balancer_loop_sleeps self id name 3).
Qed.

Lemma clean_sleeps (c : cleaner) :
  sleeps (sleep_budget c) (clean be resource_name_re c).
Proof.
  destruct c as [a|c|s|l|n].
  - awake.
  - apply ComputeCleaner_clean_sleeps.
  - awake.
  - apply LoadBalancerCleaner_clean_sleeps.
  - apply NetworkCleaner_clean_sleeps.
Qed.

End Budget.

(** X17.  Whatever the cloud answers, the calls of [time.sleep] of a
    cleaning run add up to at most the budgets of its cleaners: 58
    seconds for the instances, 40 for each load balancer, 5 for each
    router, 10 for each network, and 5 plus 10 for each security
    group. *)
Theorem clean_sleeps_within_budget
        (World : Type) (be : backend World) (resource_name_re : string -> bool)
        (self : OpenStackCleaners) (w : World) :
  slept (trace (OpenStackCleaners_clean be resource_name_re self w))
  <= list_sum (map sleep_budget (cleaners self)).
Proof.
  unfold OpenStackCleaners_clean. revert w.
  induction (cleaners self) as [|c l IH]; intros w; [simpl; lia|].
  cbn [for_each map].
  change (list_sum (sleep_budget c :: map sleep_budget l))
    with (sleep_budget c + list_sum (map sleep_budget l)).
  rewrite bind_trace, slept_app.
  pose proof (clean_sleeps be resource_name_re c w) as Hc.
  destruct (result (clean be resource_name_re c w)) as [e|[]].
  - cbn [slept]. lia.
  - specialize (IH (final (clean be resource_name_re c w))). lia.
Qed.

(** ** The lines of an openrc file *)

Lemma append_nil_r (s : string) : s +++ "" = s.
Proof. induction s as [|c s IH]; simpl; [reflexivity | rewrite IH; reflexivity]. Qed.

Lemma append_assoc (a b c : string) : (a +++ b) +++ c = a +++ (b +++ c).
Proof. induction a as [|x a IH]; simpl; [reflexivity | rewrite IH; reflexivity]. Qed.

Lemma rev_onto_app (s acc : string) : Str.rev_onto s acc = Str.rev s +++ acc.
Proof.
  unfold Str.rev. revert acc. induction s as [|c s IH]; intros acc; simpl; [reflexivity|].
  rewrite (IH (String c acc)), (IH (String c "")), append_assoc. reflexivity.
Qed.

Lemma rev_cons (c : ascii) (s : string) : Str.rev (String c s) = Str.rev s +++ String c "".
Proof. unfold Str.rev at 1. simpl. apply rev_onto_app. Qed.

Lemma rev_app (a b : string) : Str.rev (a +++ b) = Str.rev b +++ Str.rev a.
Proof.
  induction a as [|c a IH]; simpl.
  - rewrite append_nil_r. reflexivity.
  - rewrite !rev_cons, IH, append_assoc. reflexivity.
Qed.

Lemma rev_rev (s : string) : Str.rev (Str.rev s) = s.
Proof.
  induction s as [|c s IH]; [reflexivity|].
  rewrite rev_cons, rev_app, IH. reflexivity.
Qed.

Lemma all_chars_app (p : ascii -> bool) (a b : string) :
  all_chars p (a +++ b) = all_chars p a && all_chars p b.
Proof.
  induction a as [|c a IH]; simpl; [reflexivity|].
  rewrite IH, andb_assoc. reflexivity.
Qed.

Lemma all_chars_rev (p : ascii -> bool) (s : string) :
  all_chars p (Str.rev s) = all_chars p s.
Proof.
  induction s as [|c s IH]; [reflexivity|].
  rewrite rev_cons, all_chars_app, IH. simpl.
  rewrite andb_true_r. apply andb_comm.
Qed.

Lemma all_chars_weaken (p q : ascii -> bool) (s : string) :
  (forall c, p c = true -> q c = true) ->
  all_chars p s = true -> all_chars q s = true.
Proof.
  intros Hpq. induction s as [|c s IH]; simpl; [reflexivity|].
  intros H. apply andb_true_iff in H. destruct H as [Hc Hs].
  rewrite (Hpq c Hc), (IH Hs). reflexivity.
Qed.

(** [lstrip] and [strip(chars)] take a run of the characters they
    strip and stop at the first other character. *)
Lemma lstrip_chars_run (chars : list ascii) (q y : string) :
  all_chars (fun c => existsb (Ascii.eqb c) chars) q = true ->
  Text.lstrip_chars chars (q +++ y) = Text.lstrip_chars chars y.
Proof.
  induction q as [|c q IH]; simpl; [reflexivity|].
  intros H. apply andb_true_iff in H. destruct H as [Hc Hq].
  rewrite Hc. apply IH, Hq.
Qed.

Lemma lstrip_chars_stop (chars : list ascii) (c : ascii) (s : string) :
  existsb (Ascii.eqb c) chars = false ->
  Text.lstrip_chars chars (String c s) = String c s.
Proof. intros H. simpl. rewrite H. reflexivity. Qed.

Lemma lstrip_run (t y : string) :
  all_chars Str.is_space t = true -> Str.lstrip (t +++ y) = Str.lstrip y.
Proof.
  induction t as [|c t IH]; simpl; [reflexivity|].
  intros H. apply andb_true_iff in H. destruct H as [Hc Ht].
  rewrite Hc. apply IH, Ht.
Qed.

Lemma lstrip_stop (c : ascii) (s : string) :
  Str.is_space c = false -> Str.lstrip (String c s) = String c s.
Proof. intros H. simpl. rewrite H. reflexivity. Qed.

Lemma rev_nonempty (c : ascii) (s : string) :
  exists c' s', Str.rev (String c s) = String c' s'
                /\ (forall p, all_chars p (String c s) = true -> p c' = true).
Proof.
  destruct (Str.rev (String c s)) as [|c' s'] eqn:E.
  - apply (f_equal Str.rev) in E. rewrite rev_rev in E. discriminate E.
  - exists c', s'. split; [reflexivity|]. intros p Hp.
    rewrite <- (all_chars_rev p), E in Hp. simpl in Hp.
    apply andb_true_iff in Hp. apply Hp.
Qed.

(** [rstrip] takes the white space at the end, and nothing of a text
    that ends with something else. *)
Lemma rstrip_solid (a b t : string) :
  b <> "" ->
  all_chars (fun c => negb (Str.is_space c)) b = true ->
  all_chars Str.is_space t = true ->
  Str.rstrip (a +++ b +++ t) = a +++ b.
Proof.
  intros Hb Hsolid Ht. unfold Str.rstrip.
  rewrite !rev_app, append_assoc.
  rewrite lstrip_run by (rewrite all_chars_rev; exact Ht).
  destruct b as [|c b]; [congruence|].
  destruct (rev_nonempty c b) as (c' & s' & E & Hc').
  rewrite E. simpl append.
  rewrite lstrip_stop.
  - change (String c' (s' +++ Str.rev a)) with (String c' s' +++ Str.rev a).
    rewrite <- E, rev_app, !rev_rev. reflexivity.
  - apply negb_true_iff. apply (Hc' (fun c => negb (Str.is_space c))), Hsolid.
Qed.

(** [value.strip] with the two quotes. *)
Lemma strip_quotes (q value q' : string) :
  all_chars is_quote q = true ->
  all_chars is_quote q' = true ->
  all_chars (fun c => negb (is_quote c)) value = true ->
  Text.strip_chars Text.quotes (q +++ value +++ q') = value.
Proof.
  intros Hq Hq' Hvalue. unfold Text.strip_chars.
  rewrite lstrip_chars_run by exact Hq.
  destruct value as [|c value].
  - simpl append.
    replace (Text.lstrip_chars Text.quotes q') with "".
    + reflexivity.
    + rewrite <- (append_nil_r q'), lstrip_chars_run by exact Hq'. reflexivity.
  - simpl append. rewrite lstrip_chars_stop.
    + change (String c (value +++ q')) with (String c value +++ q').
      rewrite rev_app.
      rewrite lstrip_chars_run
        by (change (all_chars is_quote (Str.rev q') = true);
            rewrite all_chars_rev; exact Hq').
      destruct (rev_nonempty c value) as (c' & s' & E & Hc').
      rewrite E, lstrip_chars_stop, <- E, rev_rev; [reflexivity|].
      apply negb_true_iff. apply (Hc' (fun c => negb (is_quote c))), Hvalue.
    + simpl in Hvalue. apply andb_true_iff in Hvalue.
      apply negb_true_iff. apply Hvalue.
Qed.

Lemma prefix_app (a b : string) : String.prefix a (a +++ b) = true.
Proof.
  induction a as [|c a IH]; simpl; [destruct b; reflexivity|].
  destruct (ascii_dec c c); [exact IH | congruence].
Qed.

Lemma contains_after (needle a b : string) :
  String.prefix needle b = true -> Str.contains needle (a +++ b) = true.
Proof.
  intros H. induction a as [|c a IH]; cbn [append Str.contains].
  - destruct b; cbn [Str.contains]; rewrite H; reflexivity.
  - rewrite IH. apply orb_true_r.
Qed.

Lemma split_once_at (sep : ascii) (key rest : string) :
  all_chars (fun c => negb (Ascii.eqb c sep)) key = true ->
  Text.split_once sep (key +++ String sep rest) = [key; rest].
Proof.
  induction key as [|c key IH]; simpl.
  - intros _. rewrite Ascii.eqb_refl. reflexivity.
  - intros H. apply andb_true_iff in H. destruct H as [Hc Hkey].
    apply negb_true_iff in Hc. rewrite Hc, (IH Hkey). reflexivity.
Qed.

Lemma contains_char_none (c : ascii) (s : string) :
  all_chars (fun c' => negb (Ascii.eqb c' c)) s = true ->
  Str.contains (String c "") s = false.
Proof.
  induction s as [|c' s IH]; simpl; [reflexivity|].
  intros H. apply andb_true_iff in H. destruct H as [Hc Hs].
  rewrite (IH Hs). apply negb_true_iff in Hc.
  destruct (ascii_dec c c') as [->|_]; [|reflexivity].
  rewrite Ascii.eqb_refl in Hc. discriminate Hc.
Qed.

Lemma printable_not_space (c : ascii) : printable c = true -> Str.is_space c = false.
Proof.
  unfold printable, Str.is_space. intros H.
  apply andb_true_iff in H. destruct H as [H1 H2].
  apply Nat.leb_le in H1.
  apply orb_false_iff. split; apply andb_false_iff; right + left; apply Nat.leb_gt; lia.
Qed.

Lemma printable_not_nul (c : ascii) :
  printable c = true -> negb (Ascii.eqb c (ascii_of_nat 0)) = true.
Proof.
  intros H. apply negb_true_iff. destruct (Ascii.eqb_spec c (ascii_of_nat 0)) as [->|_];
    [discriminate H | reflexivity].
Qed.

Lemma quote_not_space (c : ascii) : is_quote c = true -> Str.is_space c = false.
Proof.
  unfold is_quote, Text.quotes. simpl. intros H.
  apply orb_true_iff in H. destruct H as [H|H].
  - apply Ascii.eqb_eq in H. subst c. reflexivity.
  - rewrite orb_false_r in H. apply Ascii.eqb_eq in H. subst c. reflexivity.
Qed.

Lemma no_nul (p : ascii -> bool) (s : string) :
  (forall c, p c = true -> printable c = true) ->
  all_chars p s = true -> Text.has_nul s = false.
Proof.
  intros Hp Hs. unfold Text.has_nul. apply contains_char_none.
  apply (all_chars_weaken p); [|exact Hs].
  intros c Hc. apply printable_not_nul, Hp, Hc.
Qed.

(** X18.  A line [export NAME=VALUE] of the openrc file, indented or
    not, with its end of line, and with any quotes around the value,
    sets the variable NAME to VALUE when NAME is a non-empty text of
    visible ASCII characters without [=], and VALUE one without
    quotes. *)
Theorem export_line_sets_variable
        (indent name q value q' eol : string) (environ : dict string) :
  all_chars Str.is_space indent = true ->
  all_chars Str.is_space eol = true ->
  all_chars is_quote q = true ->
  all_chars is_quote q' = true ->
  name <> "" ->
  all_chars name_char name = true ->
  all_chars value_char value = true ->
  load_openrc_line (indent +++ "export " +++ name +++ "=" +++ q +++ value +++ q' +++ eol)
                   environ
  = inr (Dict.set name value environ).
Proof.
  intros Hindent Heol Hq Hq' Hname Hnc Hvc.
  assert (Hns : all_chars (fun c => negb (Str.is_space c))
                          (name +++ "=" +++ q +++ value +++ q') = true).
  { assert (Sn : all_chars (fun c => negb (Str.is_space c)) name = true).
    { apply (all_chars_weaken name_char); [|exact Hnc].
      intros c Hc. apply andb_true_iff in Hc.
      apply negb_true_iff, printable_not_space, Hc. }
    assert (Sv : all_chars (fun c => negb (Str.is_space c)) value = true).
    { apply (all_chars_weaken value_char); [|exact Hvc].
      intros c Hc. apply andb_true_iff in Hc.
      apply negb_true_iff, printable_not_space, Hc. }
    assert (Sq : forall s, all_chars is_quote s = true ->
                           all_chars (fun c => negb (Str.is_space c)) s = true).
    { intros s. apply all_chars_weaken.
      intros c Hc. apply negb_true_iff, quote_not_space, Hc. }
    rewrite !all_chars_app, Sn, Sv, (Sq q Hq), (Sq q' Hq'). reflexivity. }
  assert (Hstrip : Str.strip (indent +++ "export " +++ name +++ "=" +++ q +++ value
                                     +++ q' +++ eol)
                   = "export " +++ name +++ "=" +++ q +++ value +++ q').
  { unfold Str.strip. rewrite lstrip_run by exact Hindent.
    change ("export " +++ name +++ "=" +++ q +++ value +++ q' +++ eol)
      with (String "e" ("xport " +++ name +++ "=" +++ q +++ value +++ q' +++ eol)).
    rewrite lstrip_stop by reflexivity.
    change (String "e" ("xport " +++ name +++ "=" +++ q +++ value +++ q' +++ eol))
      with ("export " +++ name +++ "=" +++ q +++ value +++ q' +++ eol).
    replace (name +++ "=" +++ q +++ value +++ q' +++ eol)
      with ((name +++ "=" +++ q +++ value +++ q') +++ eol)
      by (rewrite !append_assoc; reflexivity).
    apply rstrip_solid; [destruct name; [congruence | discriminate] | exact Hns | exact Heol]. }
  unfold load_openrc_line. cbv zeta. rewrite Hstrip.
  rewrite prefix_app.
  change (Text.drop 7 ("export " +++ name +++ "=" +++ q +++ value +++ q'))
    with (name +++ "=" +++ q +++ value +++ q').
  cbv iota.
  rewrite (contains_after "=" name ("=" +++ q +++ value +++ q'))
    by apply (prefix_app "=").
  change (name +++ "=" +++ q +++ value +++ q')
    with (name +++ String "=" (q +++ value +++ q')).
  rewrite split_once_at.
  - rewrite strip_quotes; [| exact Hq | exact Hq' |].
    + unfold environ_set.
      rewrite (no_nul name_char name), (no_nul value_char value); try assumption.
      * simpl. destruct (String.eqb_spec name "") as [E|_]; [congruence | reflexivity].
      * intros c Hc. apply andb_true_iff in Hc. apply Hc.
      * intros c Hc. apply andb_true_iff in Hc. apply Hc.
    + apply (all_chars_weaken value_char); [|exact Hvc].
      intros c Hc. apply andb_true_iff in Hc. apply Hc.
  - apply (all_chars_weaken name_char); [|exact Hnc].
    intros c Hc. apply andb_true_iff in Hc. apply Hc.
Qed.

Lemma export_line_sets_variable_witness :
  load_openrc_line
    ("  " +++ "export " +++ "OS_AUTH_URL" +++ "="
          +++ String (ascii_of_nat 34) "" +++ "http://keystone:5000/v3"
          +++ String (ascii_of_nat 34) "" +++ String (ascii_of_nat 10) "")
    [("OS_USERNAME", "admin")]
  = inr (Dict.set "OS_AUTH_URL" "http://keystone:5000/v3" [("OS_USERNAME", "admin")]).
Proof.
  apply (@export_line_sets_variable
           "  " "OS_AUTH_URL" (String (ascii_of_nat 34) "") "http://keystone:5000/v3"
           (String (ascii_of_nat 34) "") (String (ascii_of_nat 10) ""));
    try reflexivity.
  discriminate.
Defined.

(** Whether a line raises does not depend on the environment. *)
Lemma load_openrc_line_raises (line : string) (environ environ' : dict string) (e : exn) :
  load_openrc_line line environ = inl e -> load_openrc_line line environ' = inl e.
Proof.
  unfold load_openrc_line, environ_set. cbv zeta.
  destruct (String.prefix "export " (Str.strip line)); [|discriminate].
  destruct (Str.contains "=" (Text.drop 7 (Str.strip line))); [|discriminate].
  destruct (Text.split_once "=" (Text.drop 7 (Str.strip line))) as [|key [|value [|x l]]];
    try (intros H; exact H).
  destruct (Text.has_nul key
            || Text.has_nul (Text.strip_chars Text.quotes value));
    [intros H; exact H|].
  destruct (key =? ""); [intros H; exact H | discriminate].
Qed.

(** X19.  A line of the openrc file that raises ends the loading: the
    lines after it are not read, and the environment is as the lines
    before it leave it. *)
Theorem openrc_loading_ends_at_raising_line
        (before after : list string) (line : string) (e : exn)
        (environ0 environ : dict string) :
  load_openrc_line line environ0 = inl e ->
  _load_openrc_file (before ++ line :: after) environ
  = _load_openrc_file before environ.
Proof.
  intros Hline. revert environ.
  induction before as [|first before IH]; intros environ; simpl.
  - rewrite (@load_openrc_line_raises line environ0 environ e Hline). reflexivity.
  - destruct (load_openrc_line first environ) as [e'|environ']; [reflexivity | apply IH].
Qed.

Lemma openrc_loading_ends_at_raising_line_witness :
  _load_openrc_file (["export OS_USERNAME=admin"] ++ "export =x" :: ["export OS_AUTH_URL=u"]) []
  = _load_openrc_file ["export OS_USERNAME=admin"] [].
Proof.
  apply (@openrc_loading_ends_at_raising_line
           ["export OS_USERNAME=admin"] ["export OS_AUTH_URL=u"] "export =x"
           (OSError "[Errno 22] Invalid argument") []).
  reflexivity.
Defined.
